(** * TuneScape audio engine: a shallow embedding of [AudioEngine]

    The definitions below follow the static methods of the TypeScript class
    [AudioEngine] one by one.  JavaScript numbers are modelled as exact
    rationals ([Q]): every comparison, [Math.floor], [Math.round],
    [Math.min], [Math.max] and [Math.abs] is the exact one, and the
    rounding of IEEE doubles (and of [Float32Array] stores) is not
    represented.  Array lengths and indices are [nat]; sample rates are
    positive integers ([Z]).  A function returns [None] when the code does
    not return: a loop that runs over an array with a step of zero never
    ends, and the model gives it as many rounds as the array is long,
    which is enough for any other step; the loops that run on times
    (octave correction, the two track renderers) take an explicit [fuel],
    and a lemma for each says how much suffices.  The transcendental
    functions of [Math] and the host's audio graph are interfaces
    ([MathLib], [WebAudio]) the engine is parametrised by.  The handlers
    of the page, [App.tsx], that call the engine follow the class.

    Where the rounding of doubles decides what the code does, the
    statements below say so: thresholds are met with a margin, and the
    placement loop of [renderLoopingTrack], whose end depends on it, has
    a second model on the doubles themselves ([Float64]). *)

From Stdlib Require Import ZArith QArith Qround Qabs Qminmax.
From Stdlib Require Import List String Ascii Bool Arith Lia Lqa.
From Stdlib Require Import Sorted Permutation SetoidList.
From Stdlib Require PrimFloat.
Import ListNotations.

Local Open Scope Q_scope.

(** ** JavaScript numbers *)

Module JS.

Definition number := Q.

Definition ltb (x y : Q) : bool := negb (Qle_bool y x).
Definition gtb (x y : Q) : bool := ltb y x.
Definition leb (x y : Q) : bool := Qle_bool x y.
Definition geb (x y : Q) : bool := Qle_bool y x.
Definition eqb (x y : Q) : bool := Qeq_bool x y.

Definition Math_floor (x : Q) : Z := Qfloor x.
(** [Math.round] rounds half-way cases towards plus infinity. *)
Definition Math_round (x : Q) : Z := Qfloor (x + (1 # 2)).
Definition Math_abs (x : Q) : Q := Qabs x.
Definition Math_max (x y : Q) : Q := if ltb x y then y else x.
Definition Math_min (x y : Q) : Q := if ltb y x then y else x.

Definition ofZ (z : Z) : Q := inject_Z z.
Definition ofNat (n : nat) : Q := inject_Z (Z.of_nat n).

(** [Math.round(x * 10) / 10] *)
Definition round1 (x : Q) : Q := ofZ (Math_round (x * 10)) / 10.
(** [Math.round(x * 100) / 100] *)
Definition round2 (x : Q) : Q := ofZ (Math_round (x * 100)) / 100.

(** [a || b] on numbers: [0] is falsy. *)
Definition truthy (x : Q) : bool := negb (eqb x 0).

(** The transcendental part of [Math]. *)
Class MathLib := {
  Math_sqrt : Q -> Q;
  Math_cos : Q -> Q;
  Math_pow : Q -> Q -> Q;
  Math_PI : Q
}.

End JS.

Import JS.

(** ** Types of [types.ts] *)

Inductive DetectionMode := fast | accurate.

Inductive ExportFormat := mp3_high | mp3_standard | wav_lossless | flac_lossless.

Inductive Confidence := high | medium | low.

(** An [AudioBuffer]: planar channels of [length] samples each. *)
Record AudioBuffer := mkAudioBuffer {
  sampleRate : Z;
  length : nat;
  channels : list (list Q)
}.

Definition numberOfChannels (b : AudioBuffer) : nat := List.length (channels b).

(** [buffer.getChannelData(i)] *)
Definition getChannelData (b : AudioBuffer) (i : nat) : list Q :=
  nth i (channels b) [].

(** [buffer.duration]: length over sample rate, in seconds. *)
Definition duration (b : AudioBuffer) : Q :=
  ofNat (length b) / ofZ (sampleRate b).

(** A well-formed buffer, as the decoder and the audio context give them. *)
Definition wf_buffer (b : AudioBuffer) : Prop :=
  (0 < sampleRate b)%Z /\
  Forall (fun c => List.length c = length b) (channels b).

Record BpmInfo := mkBpmInfo {
  raw : Q;
  corrected : Q;
  candidates : list Q;
  stdDev : Q;
  confidence : Confidence;
  algorithmsUsed : list string;
  allPasses : list Q;
  filteredPasses : list Q;
  modeUsed : DetectionMode
}.

Record LoopBoundaries := mkLoopBoundaries {
  introEnd : Q;
  outroStart : Q;
  detected : bool
}.

Module ManualBoundaries.
Record t := mk { introEnd : Q; outroStart : Q }.
End ManualBoundaries.

Module ProcessingOptions.
Record t := mk {
  targetDurationMinutes : Q;
  musicVolumeDb : Q;
  focusVolumeDb : Q;
  crossfadeDuration : Q;
  exportFormat : ExportFormat;
  targetBpm : option Q;
  sourceBpmOverride : option Q;
  manualBoundaries : option ManualBoundaries.t
}.
End ProcessingOptions.

Module AudioMetadata.
Record t := mk {
  name : string;
  duration : Q;
  sampleRate : Z;
  buffer : AudioBuffer;
  format : string;
  bpmInfo : option BpmInfo;
  frequency : option Q;
  pulseRate : option Q;
  divisorBpms : option (list Q)
}.
End AudioMetadata.

(** ** The host's audio graph

    What the engine asks of an [OfflineAudioContext] is recorded, not
    executed: every buffer source comes with its own gain node, and a
    [Voice] holds the calls made on the pair, in program order. *)

Inductive GainEvent :=
| setValueAtTime (value time : Q)
| linearRampToValueAtTime (value time : Q).

Record Voice := mkVoice {
  v_buffer : AudioBuffer;
  v_playbackRate : option Q;
  v_gain : list GainEvent;
  v_start : Q * option Q * option Q;   (* when, offset, duration *)
  v_stop : option Q
}.

Record OfflineGraph := mkOfflineGraph {
  g_numberOfChannels : nat;
  g_length : Z;
  g_sampleRate : Z;
  g_masterGain : Q;
  g_voices : list Voice
}.

(** A bin of [getFloatFrequencyData], in decibels. *)
Inductive Decibel := NegInfinity | dB (q : Q).

Class WebAudio := {
(** the analyser's bins for a window of samples at a sample rate *)
  getFloatFrequencyData : list Q -> Z -> list Decibel;
(** [ctx.startRendering()] *)
  startRendering : OfflineGraph -> AudioBuffer
}.

Record Blob := mkBlob {
  bytes : list Z;
  type : string
}.

(** ** Loops

    [while (cond) body]: [None] when the fuel runs out before the
    condition turns false, or when the body itself does not return. *)
Fixpoint while_loop {S : Type} (fuel : nat) (cond : S -> bool)
    (body : S -> option S) (s : S) : option S :=
  if cond s then
    match fuel with
    | O => None
    | Datatypes.S fuel' =>
      match body s with
      | Some s' => while_loop fuel' cond body s'
      | None => None
      end
    end
  else Some s.

Module AudioEngine.

(** *** analyzeBpm, lines 107-151: the aggregation of the raw passes *)

(** [rawResults.sort((a, b) => a - b)]: a stable numeric sort. *)
Fixpoint insert_num (x : Q) (l : list Q) : list Q :=
  match l with
  | [] => [x]
  | y :: t => if leb x y then x :: y :: t else y :: insert_num x t
  end.

Fixpoint sort_num (l : list Q) : list Q :=
  match l with
  | [] => []
  | x :: t => insert_num x (sort_num t)
  end.

(** [a[i]] on an array of numbers; the default stands for [undefined]. *)
Definition at_index (l : list Q) (i : Z) : Q := nth (Z.to_nat i) l 0.

Definition len (l : list Q) : Q := ofNat (List.length l).

Definition q1_of (sorted : list Q) : Q :=
  at_index sorted (Math_floor (len sorted * (25 # 100))).
Definition q3_of (sorted : list Q) : Q :=
  at_index sorted (Math_floor (len sorted * (75 # 100))).

(** Lines 115-118, on the sorted raw results. *)
Definition tukey_filter (sorted : list Q) : list Q :=
  let q1 := q1_of sorted in
  let q3 := q3_of sorted in
  let iqr := q3 - q1 in
  if eqb iqr 0 then sorted
  else filter (fun t => geb t (q1 - (15 # 10) * iqr) &&
                        leb t (q3 + (15 # 10) * iqr)) sorted.

(** Line 120. *)
Definition medianBpm_of (filtered : list Q) : Q :=
  at_index filtered (Math_floor (len filtered / 2)).

Definition sum_num (l : list Q) : Q := fold_left Qplus l 0.

(** [filteredPasses.length || 1] *)
Definition len_or_1 (l : list Q) : Q :=
  if truthy (len l) then len l else 1.

Definition mean_of (l : list Q) : Q := sum_num l / len_or_1 l.

Definition variance_of (l : list Q) : Q :=
  let mean := mean_of l in
  fold_left (fun a b => a + (b - mean) * (b - mean)) l 0 / len_or_1 l.

(** Line 129: [while (corrected > 200) corrected /= 2]. *)
Fixpoint halve_loop (fuel : nat) (c : Q) : option Q :=
  if gtb c 200 then
    match fuel with
    | O => None
    | S fuel' => halve_loop fuel' (c / 2)
    end
  else Some c.

(** Line 130: [while (corrected < 60) corrected *= 2]. *)
Fixpoint double_loop (fuel : nat) (c : Q) : option Q :=
  if ltb c 60 then
    match fuel with
    | O => None
    | S fuel' => double_loop fuel' (c * 2)
    end
  else Some c.

(** Lines 128-130. *)
Definition octave_correct (fuel : nat) (medianBpm : Q) : option Q :=
  match halve_loop fuel medianBpm with
  | Some c => double_loop fuel c
  | None => None
  end.

(** [Array.from(new Set(candidates))]: first occurrences, in order. *)
Fixpoint dedupe (l : list Q) : list Q :=
  match l with
  | [] => []
  | x :: t => x :: filter (fun y => negb (eqb y x)) (dedupe t)
  end.

(** Lines 135-139.  The products are exact here; on doubles one that
    lies within rounding of a half, such as 111.1 * 1.5 * 10, can be
    rounded to the other side, and the alternative listed then differs
    by 0.1. *)
Definition alternates (finalCorrected : Q) : list Q :=
  filter (fun c => geb c 40 && leb c 220 &&
                   gtb (Math_abs (c - finalCorrected)) 2)
    [ round1 (finalCorrected / 2);
      round1 (finalCorrected * (15 # 10));
      round1 (finalCorrected * 2) ].

(** The corrected estimate before line 133 rounds it. *)
Definition corrected_estimate (fuel : nat) (rawResults : list Q) : option Q :=
  octave_correct fuel (medianBpm_of (tukey_filter (sort_num rawResults))).

Definition fallback (mode : DetectionMode) : BpmInfo :=
  {| raw := 120; corrected := 120; candidates := []; stdDev := 0;
     confidence := low; algorithmsUsed := ["Fallback"%string];
     allPasses := []; filteredPasses := []; modeUsed := mode |}.

Definition mode_is_fast (m : DetectionMode) : bool :=
  match m with fast => true | accurate => false end.

(** Lines 107-151, given the raw passes and the algorithm names. *)
Definition aggregate `{MathLib} (fuel : nat) (mode : DetectionMode)
    (algos : list string) (rawResults : list Q) : option BpmInfo :=
  match rawResults with
  | [] => Some (fallback mode)
  | _ =>
    let sorted := sort_num rawResults in
    let filtered := tukey_filter sorted in
    let medianBpm := medianBpm_of filtered in
    let sd := Math_sqrt (variance_of filtered) in
    let conf0 := if mode_is_fast mode then medium else high in
    let conf :=
      if geb sd 10 ||
         (mode_is_fast mode && (List.length filtered <? 3)%nat)
      then low else conf0 in
    match octave_correct fuel medianBpm with
    | None => None
    | Some c =>
      let finalRaw := round1 medianBpm in
      let finalCorrected := round1 c in
      Some {| raw := finalRaw; corrected := finalCorrected;
              candidates := dedupe (alternates finalCorrected);
              stdDev := round2 sd; confidence := conf;
              algorithmsUsed := algos; allPasses := sorted;
              filteredPasses := filtered; modeUsed := mode |}
    end
  end.

(** *** detectBpmByAutocorrelation *)

Definition sample (data : list Q) (i : nat) : Q := nth i data 0.

Definition sum_squares (data : list Q) (from count : nat) : Q :=
  fold_left (fun s j => s + sample data j * sample data j) (seq from count) 0.

(** Lines 160-169: the last slot of [env] is left at zero. *)
Definition energy_env (data : list Q) (ratio envLength : nat) : list Q :=
  map (fun i => if (i <? envLength - 1)%nat
                then sum_squares data (i * ratio) ratio else 0)
      (seq 0 envLength).

(** Lines 171-173: the index runs downwards, so [env[i - 1]] is still
    the energy when [env[i]] is overwritten. *)
Definition onset_env (env : list Q) : list Q :=
  map (fun i => if (i =? 0)%nat then sample env 0
                else Math_max 0 (sample env i - sample env (i - 1)))
      (seq 0 (List.length env)).

Definition autocorr (env : list Q) (lag : nat) : Q :=
  fold_left (fun s i => s + sample env i * sample env (i + lag))
            (seq 0 (List.length env - lag)) 0.

(** Lines 175-186: lags 30 to 100, the first strict maximum wins. *)
Definition best_lag (env : list Q) : nat :=
  snd (fold_left (fun '(maxAuto, bestLag) lag =>
                    let sum := autocorr env lag in
                    if gtb sum maxAuto then (sum, lag) else (maxAuto, bestLag))
                 (seq 30 71) (0, 60%nat)).

(** [None]: a sample rate below 100 makes [ratio] zero and the
    allocation of [env] fail on a non-empty signal. *)
Definition detectBpmByAutocorrelation (buffer : AudioBuffer) : option Q :=
  let data := getChannelData buffer 0 in
  let targetFs := 100 in
  let ratio := Z.to_nat (Math_floor (ofZ (sampleRate buffer) / targetFs)) in
  if (ratio =? 0)%nat && negb (List.length data =? 0)%nat then None
  else
    let envLength := (List.length data / ratio)%nat in
    let env := onset_env (energy_env data ratio envLength) in
    Some ((60 * targetFs) / ofNat (best_lag env)).

(** *** detectBpmByPeakClustering *)

(** Lines 195-199: the largest magnitude of the block at [i], read
    every [step] samples; [n] is [data.length]. *)
Definition block_max (data : list Q) (n i hopSize step : nat) : option Q :=
  option_map snd
    (while_loop hopSize
       (fun '(j, _) => (j <? hopSize)%nat && (i + j <? n)%nat)
       (fun '(j, mx) =>
          let val := Math_abs (sample data (i + j)) in
          Some ((j + step)%nat, if gtb val mx then val else mx))
       (0%nat, 0)).

(** Lines 194-201: the start times of the blocks louder than 0.15. *)
Definition find_peaks (data : list Q) (sampleRate : Z) (hopSize step : nat)
    : option (list Q) :=
  let n := List.length data in
  option_map snd
    (while_loop n
       (fun '(i, _) => (i <? n)%nat)
       (fun '(i, peaks) =>
          match block_max data n i hopSize step with
          | Some mx =>
            Some ((i + hopSize)%nat,
                  if gtb mx (15 # 100)
                  then peaks ++ [ofNat i / ofZ sampleRate] else peaks)
          | None => None
          end)
       (0%nat, [])).

(** Lines 203-207: the consecutive differences inside (0.2, 2.0). *)
Fixpoint kept_diffs (peaks : list Q) : list Q :=
  match peaks with
  | a :: (b :: _) as rest =>
    let d := b - a in
    if gtb d (2 # 10) && ltb d 2 then d :: kept_diffs rest
    else kept_diffs rest
  | _ => []
  end.

(** Line 209, [diffs.sort()[Math.floor(diffs.length / 2)]].  The
    default sort compares the decimal strings of the numbers; on
    values inside (0.2, 2.0), all written as one digit, a point and
    the fraction digits, that order is the numeric one. *)
Definition middle_diff (diffs : list Q) : Q :=
  at_index (sort_num diffs) (Math_floor (len diffs / 2)).

(** Lines 202-210, from the recorded peaks. *)
Definition tempo_of_peaks (peaks : list Q) : Q :=
  if (List.length peaks <? 5)%nat then 0
  else
    let diffs := kept_diffs peaks in
    if (List.length diffs =? 0)%nat then 0
    else 60 / middle_diff diffs.

(** Line 191. *)
Definition hopSize_of (sampleRate : Z) (hopSec : Q) : nat :=
  Z.to_nat (Math_floor (ofZ sampleRate * hopSec)).

(** Line 193. *)
Definition step_of (data : list Q) : nat :=
  Nat.max 1 (List.length data / 3000).

(** [None]: the hop is shorter than one sample and the block loop
    never advances. *)
Definition detectBpmByPeakClustering (data : list Q) (sampleRate : Z)
    (hopSec : Q) : option Q :=
  option_map tempo_of_peaks
    (find_peaks data sampleRate (hopSize_of sampleRate hopSec) (step_of data)).

(** *** analyzeBpm *)

Definition hopSizes : list Q :=
  [3 # 100; 5 # 100; 8 # 100; 1 # 10; 12 # 100; 15 # 100].

(** Lines 100-103. *)
Fixpoint fast_passes (data : list Q) (sampleRate : Z) (hops : list Q)
    : option (list Q) :=
  match hops with
  | [] => Some []
  | hop :: rest =>
    match detectBpmByPeakClustering data sampleRate hop with
    | None => None
    | Some tempo =>
      match fast_passes data sampleRate rest with
      | None => None
      | Some more =>
        Some (if gtb tempo 40 && ltb tempo 300
              then round1 tempo :: more else more)
      end
    end
  end.

(** Lines 89-105: the raw results and the algorithm names. *)
Definition raw_passes (buffer : AudioBuffer) (mode : DetectionMode)
    : option (list Q * list string) :=
  match mode with
  | accurate =>
    match detectBpmByAutocorrelation buffer with
    | None => None
    | Some bpm =>
      Some (if gtb bpm 40 && ltb bpm 250 then [bpm] else [],
            ["Full-Track Autocorrelation"%string])
    end
  | fast =>
    match fast_passes (getChannelData buffer 0) (sampleRate buffer) hopSizes with
    | None => None
    | Some rs => Some (rs, ["Peak Clustering"%string])
    end
  end.

(** The status callback and the cosmetic delay carry no value. *)
Definition analyzeBpm `{MathLib} (fuel : nat) (buffer : AudioBuffer)
    (mode : DetectionMode) : option BpmInfo :=
  match raw_passes buffer mode with
  | None => None
  | Some (rawResults, algos) => aggregate fuel mode algos rawResults
  end.

(** *** detectBoundaries *)

(** Lines 218-223: one RMS value per chunk of [chunkSize] samples. *)
Definition chunk_rms `{MathLib} (data : list Q) (chunkSize : nat)
    : option (list Q) :=
  let n := List.length data in
  option_map snd
    (while_loop n
       (fun '(i, _) => (i <? n)%nat)
       (fun '(i, rmsValues) =>
          let end_ := Nat.min (i + chunkSize) n in
          let sum := sum_squares data i (end_ - i) in
          Some ((i + chunkSize)%nat,
                rmsValues ++ [Math_sqrt (sum / ofNat (end_ - i))]))
       (0%nat, [])).

(** Line 227: the first index above the threshold, or [-1]. *)
Fixpoint first_above (rmsValues : list Q) (threshold : Q) (i : Z) : Z :=
  match rmsValues with
  | [] => (-1)%Z
  | r :: rest => if gtb r threshold then i
                 else first_above rest threshold (i + 1)%Z
  end.

(** Line 228: the last index above the threshold, or [-1]. *)
Fixpoint last_above (rmsValues : list Q) (threshold : Q) (i : Z) : Z :=
  match rmsValues with
  | [] => (-1)%Z
  | r :: rest =>
    let later := last_above rest threshold (i + 1)%Z in
    if (later =? -1)%Z then (if gtb r threshold then i else (-1)%Z)
    else later
  end.

(** Lines 229-232, from the RMS values.  The two times are exact here;
    on doubles they carry a rounding error far below a millisecond,
    which decides the test [introEnd < outroStart] when the two chunks
    are exactly 200 apart. *)
Definition boundaries_of (rmsValues : list Q) (dur : Q) : LoopBoundaries :=
  let sortedRms := sort_num rmsValues in
  let threshold := at_index sortedRms (Math_floor (len sortedRms * (6 # 10))) in
  let iEnd := first_above rmsValues threshold 0 in
  let oStart := last_above rmsValues threshold 0 in
  let introEnd := Math_min dur (ofZ iEnd * (1 # 10) + 10) in
  let outroStart := Math_max 0 (ofZ oStart * (1 # 10) - 10) in
  let detected := ltb introEnd outroStart && gtb introEnd 0 &&
                  ltb outroStart dur in
  {| introEnd := if detected then introEnd else 0;
     outroStart := if detected then outroStart else dur;
     detected := detected |}.

(** [None]: a sample rate below 10 makes the chunk empty and the
    chunk loop never advances. *)
Definition detectBoundaries `{MathLib} (buffer : AudioBuffer)
    : option LoopBoundaries :=
  let data := getChannelData buffer 0 in
  let chunkSize := Z.to_nat (Math_floor (ofZ (sampleRate buffer) * (1 # 10))) in
  match chunk_rms data chunkSize with
  | None => None
  | Some rmsValues => Some (boundaries_of rmsValues (duration buffer))
  end.

(** *** timeStretch *)

(** [a[i] += v] on a typed array; a store outside the array is dropped. *)
Fixpoint add_at (l : list Q) (i : nat) (v : Q) : list Q :=
  match l, i with
  | [], _ => []
  | x :: t, O => (x + v) :: t
  | x :: t, S i' => x :: add_at t i' v
  end.

(** Line 270. *)
Definition hann `{MathLib} (i grainSize : nat) : Q :=
  (1 # 2) * (1 - Math_cos ((2 * Math_PI * ofNat i) / (ofNat grainSize - 1))).

(** Lines 265-272: one windowed grain added into the output. *)
Definition add_grain `{MathLib} (inputData outputData : list Q)
    (inPos outPos grainSize outputLength : nat) : list Q :=
  fold_left (fun out i =>
               let outIdx := (outPos + i)%nat in
               if (outputLength <=? outIdx)%nat then out
               else add_at out outIdx
                      (sample inputData (inPos + i) * hann i grainSize))
            (seq 0 grainSize) outputData.

(** Lines 259-274 for one channel. *)
Definition stretch_channel `{MathLib} (inputData : list Q) (rate : Q)
    (inputLength outputLength grainSize outputStride : nat)
    : option (list Q) :=
  let inPos_of (outPos : nat) := Z.to_nat (Math_floor (ofNat outPos * rate)) in
  option_map snd
    (while_loop outputLength
       (fun '(outPos, _) =>
          (outPos <? outputLength)%nat &&
          negb (inputLength <? inPos_of outPos + grainSize)%nat)
       (fun '(outPos, outputData) =>
          Some ((outPos + outputStride)%nat,
                add_grain inputData outputData (inPos_of outPos) outPos
                          grainSize outputLength))
       (0%nat, repeat 0 outputLength)).

Fixpoint stretch_channels `{MathLib} (chans : list (list Q)) (rate : Q)
    (inputLength outputLength grainSize outputStride : nat)
    : option (list (list Q)) :=
  match chans with
  | [] => Some []
  | c :: rest =>
    match stretch_channel c rate inputLength outputLength grainSize outputStride,
          stretch_channels rest rate inputLength outputLength grainSize outputStride with
    | Some c', Some rest' => Some (c' :: rest')
    | _, _ => None
    end
  end.

(** [None]: the host refuses an output buffer without frames (a
    non-positive rate, or a rate above the input length), or the grain
    stride is zero (a sample rate below 34) and the loop never advances. *)
Definition timeStretch `{MathLib} (buffer : AudioBuffer) (rate : Q)
    : option AudioBuffer :=
  if ltb (Math_abs (rate - 1)) (1 # 100) then Some buffer
  else
    let inputLength := length buffer in
    let outputLength := Math_floor (ofNat inputLength / rate) in
    if leb rate 0 || (outputLength <=? 0)%Z then None
    else
      let grainSize := Z.to_nat (Math_floor (ofZ (sampleRate buffer) * (6 # 100))) in
      let overlap := 1 # 2 in
      let outputStride := Z.to_nat (Math_floor (ofNat grainSize * (1 - overlap))) in
      match stretch_channels (channels buffer) rate inputLength
              (Z.to_nat outputLength) grainSize outputStride with
      | None => None
      | Some chans =>
        Some {| sampleRate := sampleRate buffer;
                length := Z.to_nat outputLength;
                channels := chans |}
      end.

(** *** renderLoopingTrack *)

(** Lines 331-358: the copy of the foundation placed at [cur]. *)
Definition looping_voice (b : AudioBuffer) (totalDur targetVolume cf cur : Q)
    : Voice :=
  let dur := duration b in
  let fadeIn :=
    if eqb cur 0 then [setValueAtTime targetVolume 0]
    else [setValueAtTime 0 cur;
          linearRampToValueAtTime targetVolume (cur + cf)] in
  let segmentEnd := cur + dur in
  let fadeOutStart := segmentEnd - cf in
  let fadeOut :=
    if ltb segmentEnd totalDur
    then [setValueAtTime targetVolume fadeOutStart;
          linearRampToValueAtTime 0 segmentEnd]
    else setValueAtTime targetVolume (Math_min fadeOutStart totalDur)
         :: (if gtb totalDur fadeOutStart
             then [linearRampToValueAtTime 0 (totalDur + cf)] else []) in
  {| v_buffer := b; v_playbackRate := None;
     v_gain := fadeIn ++ fadeOut;
     v_start := (cur, None, None);
     v_stop := if gtb segmentEnd totalDur then Some totalDur else None |}.

(** Lines 327-362; the [break] of line 361 repeats the loop condition.
    The step of line 360 is exact here; [Float64.renderLoopingTrack]
    below has it as the doubles compute it. *)
Definition renderLoopingTrack (fuel : nat) (b : AudioBuffer)
    (totalDur targetVolume cf : Q) : option (list Voice) :=
  option_map snd
    (while_loop fuel
       (fun '(cur, _) => ltb cur totalDur)
       (fun '(cur, voices) =>
          Some (cur + duration b - cf,
                voices ++ [looping_voice b totalDur targetVolume cf cur]))
       (0, [])).

(** *** renderMusicTrack *)

Definition intro_voice (b : AudioBuffer) (targetVolume introEnd cf rate : Q)
    : Voice :=
  let eIntroDur := introEnd / rate in
  {| v_buffer := b; v_playbackRate := Some rate;
     v_gain := [setValueAtTime targetVolume 0;
                setValueAtTime targetVolume (eIntroDur - cf);
                linearRampToValueAtTime 0 eIntroDur];
     v_start := (0, Some 0, Some introEnd);
     v_stop := None |}.

(** Lines 390-413: the repetition placed at [cur]. *)
Definition loop_voice (b : AudioBuffer) (targetVolume loopStart loopEnd cf rate
    lET cur : Q) : Voice :=
  let eLoopDur := (loopEnd - loopStart) / rate in
  let startTime := cur - cf in
  let segmentEnd := cur + eLoopDur in
  let next := cur + eLoopDur - cf in
  {| v_buffer := b; v_playbackRate := Some rate;
     v_gain := [setValueAtTime 0 startTime;
                linearRampToValueAtTime targetVolume cur;
                setValueAtTime targetVolume (segmentEnd - cf);
                linearRampToValueAtTime 0 segmentEnd];
     v_start := (startTime, Some (Math_max 0 (loopStart - cf * rate)),
                 Some ((loopEnd - loopStart) + cf * rate));
     v_stop := if geb next lET then Some lET else None |}.

Definition outro_voice (b : AudioBuffer) (targetVolume loopEnd cf rate cur : Q)
    : Voice :=
  let outroStartTime := cur - cf in
  {| v_buffer := b; v_playbackRate := Some rate;
     v_gain := [setValueAtTime 0 outroStartTime;
                linearRampToValueAtTime targetVolume cur];
     v_start := (outroStartTime, Some (Math_max 0 (loopEnd - cf * rate)), None);
     v_stop := None |}.

Definition renderMusicTrack (fuel : nat) (b : AudioBuffer)
    (totalDur targetVolume : Q) (bnd : LoopBoundaries) (cf rate : Q)
    : option (list Voice) :=
  let loopStart := introEnd bnd in
  let loopEnd := outroStart bnd in
  let eIntroDur := introEnd bnd / rate in
  let eLoopDur := (loopEnd - loopStart) / rate in
  let eOutroDur := (duration b - loopEnd) / rate in
  let lET := totalDur - eOutroDur in
  match
    while_loop fuel
      (fun '(cur, _) => ltb cur lET)
      (fun '(cur, voices) =>
         let next := cur + eLoopDur - cf in
         Some (if geb next lET then lET else next,
               voices ++ [loop_voice b targetVolume loopStart loopEnd cf rate
                                     lET cur]))
      (eIntroDur, [intro_voice b targetVolume (introEnd bnd) cf rate])
  with
  | None => None
  | Some (cur, voices) =>
    Some (voices ++ [outro_voice b targetVolume loopEnd cf rate cur])
  end.

(** *** audioBufferToLossless *)

(** The [DataView] and the write cursor [offset] of lines 434-438. *)
Record ViewState := mkViewState {
  view : list Z;
  offset : nat
}.

(** A step of the encoder: [None] is the [RangeError] of a write
    outside the view. *)
Definition Write := ViewState -> option ViewState.

Definition andThen (w1 w2 : Write) : Write :=
  fun st => match w1 st with Some st' => w2 st' | None => None end.

Definition done : Write := fun st => Some st.

Fixpoint for_each {A : Type} (l : list A) (f : A -> Write) : Write :=
  match l with
  | [] => done
  | a :: t => andThen (f a) (for_each t f)
  end.

(** The [n] low bytes of [z], least significant first. *)
Fixpoint le_bytes (n : nat) (z : Z) : list Z :=
  match n with
  | O => []
  | S n' => (z mod 256)%Z :: le_bytes n' (z / 256)%Z
  end.

Definition store (st : ViewState) (bs : list Z) : option ViewState :=
  let o := offset st in
  let n := List.length bs in
  if (o + n <=? List.length (view st))%nat
  then Some {| view := firstn o (view st) ++ bs ++ skipn (o + n) (view st);
               offset := (o + n)%nat |}
  else None.

(** [view.setUint16(offset, d, true); offset += 2] *)
Definition set16 (d : Z) : Write := fun st => store st (le_bytes 2 d).
(** [view.setUint32(offset, d, true); offset += 4] *)
Definition set32 (d : Z) : Write := fun st => store st (le_bytes 4 d).

(** The integer part a [DataView] setter keeps of a number. *)
Definition truncate (x : Q) : Z :=
  if ltb x 0 then Qceiling x else Qfloor x.

(** Lines 454-455. *)
Definition pcm16 (x : Q) : Q :=
  let s := Math_max (-1) (Math_min 1 x) in
  if ltb s 0 then s * 32768 else s * 32767.

(** [view.setInt16(offset, s, true); offset += 2] *)
Definition setInt16 (s : Q) : Write := fun st => store st (le_bytes 2 (truncate s)).

Notation "w1 ;; w2" := (andThen w1 w2) (at level 61, right associativity).

(** Lines 440-447. *)
Definition write_header (length_ : Z) (numOfChan : Z) (rate : Z) : Write :=
  set32 0x46464952 ;;
  set32 (length_ - 8) ;;
  set32 0x45564157 ;;
  set32 0x20746d66 ;;
  set32 16 ;; set16 1 ;; set16 numOfChan ;; set32 rate ;;
  set32 (rate * 2 * numOfChan) ;; set16 (numOfChan * 2) ;; set16 16 ;;
  set32 0x61746164 ;;
  (fun st => set32 (length_ - Z.of_nat (offset st) - 4) st).

(** Lines 452-459. *)
Definition write_samples (buffer : AudioBuffer) : Write :=
  for_each (seq 0 (length buffer)) (fun pos =>
    for_each (seq 0 (numberOfChannels buffer)) (fun i =>
      setInt16 (pcm16 (sample (getChannelData buffer i) pos)))).

Definition media_type (format : ExportFormat) : string :=
  match format with
  | flac_lossless => "audio/flac"
  | _ => "audio/wav"
  end.

Definition audioBufferToLossless (buffer : AudioBuffer) (format : ExportFormat)
    : option Blob :=
  let numOfChan := numberOfChannels buffer in
  let length_ := (length buffer * numOfChan * 2 + 44)%nat in
  let start := {| view := repeat 0%Z length_; offset := 0 |} in
  match (write_header (Z.of_nat length_) (Z.of_nat numOfChan) (sampleRate buffer) ;;
         write_samples buffer) start with
  | None => None
  | Some st => Some {| bytes := view st; type := media_type format |}
  end.

(** *** extractFrequency *)

Definition is_digit (c : ascii) : bool :=
  let n := nat_of_ascii c in (48 <=? n)%nat && (n <=? 57)%nat.
(** [\s] on a name of ASCII characters: tab to carriage return, and the
    space.  The other characters [\s] matches (U+00A0, U+2028, ...) lie
    outside [ascii]. *)
Definition is_space (c : ascii) : bool :=
  let n := nat_of_ascii c in
  ((9 <=? n)%nat && (n <=? 13)%nat) || (n =? 32)%nat.
Definition is_sep (c : ascii) : bool :=
  let n := nat_of_ascii c in (n =? 46)%nat || (n =? 95)%nat.
Definition is_h (c : ascii) : bool :=
  let n := nat_of_ascii c in (n =? 104)%nat || (n =? 72)%nat.
Definition is_z (c : ascii) : bool :=
  let n := nat_of_ascii c in (n =? 122)%nat || (n =? 90)%nat.

Fixpoint span (p : ascii -> bool) (l : list ascii) : list ascii * list ascii :=
  match l with
  | c :: t => if p c then let (a, r) := span p t in (c :: a, r) else ([], l)
  | [] => ([], [])
  end.

(** White space, then "hz" in either case, at the head of [l]. *)
Definition unit_follows (l : list ascii) : bool :=
  match snd (span is_space l) with
  | h :: z :: _ => is_h h && is_z z
  | _ => false
  end.

(** The pattern of line 34 (digits, an optional point or underscore,
    digits, white space, "hz" in either case) anchored at the head of
    [l]: the integer digits and the fraction digits of the group.
    Every run is taken whole: a shorter run leaves a digit, a separator
    or a space where the pattern wants the next item, so backtracking
    finds nothing the greedy attempt misses. *)
Definition match_here (l : list ascii) : option (list ascii * list ascii) :=
  let (d1, r1) := span is_digit l in
  match d1 with
  | [] => None
  | _ =>
    match r1 with
    | c :: r2 =>
      if is_sep c then
        let (d2, r3) := span is_digit r2 in
        if unit_follows r3 then Some (d1, d2) else None
      else if unit_follows r1 then Some (d1, []) else None
    | [] => None
    end
  end.

(** [name.match(...)]: the leftmost position where the pattern matches. *)
Fixpoint match_first (l : list ascii) : option (list ascii * list ascii) :=
  match match_here l with
  | Some g => Some g
  | None => match l with
            | [] => None
            | _ :: t => match_first t
            end
  end.

Definition digit_value (c : ascii) : Z := Z.of_nat (nat_of_ascii c - 48).

Definition digits_value (ds : list ascii) : Z :=
  fold_left (fun acc c => (acc * 10 + digit_value c)%Z) ds 0%Z.

(** [parseFloat] of the digits, a point and the fraction digits. *)
Definition parseFloat (d1 d2 : list ascii) : Q :=
  ofZ (digits_value d1) +
  ofZ (digits_value d2) / ofZ (10 ^ Z.of_nat (List.length d2)).

Definition extractFrequency (name : string) : option Q :=
  match match_first (list_ascii_of_string name) with
  | Some (d1, d2) => Some (parseFloat d1 d2)
  | None => None
  end.

(** *** detectDominantFrequency *)

(** [x > maxVal] on decibel values; a missing bin compares false. *)
Definition dB_gtb (x : option Decibel) (maxVal : Decibel) : bool :=
  match x, maxVal with
  | Some (dB a), dB b => gtb a b
  | Some (dB _), NegInfinity => true
  | _, _ => false
  end.

(** Lines 65-73. *)
Definition loudest_bin (freqData : list Decibel) (upperLimit : nat) : nat :=
  snd (fold_left (fun '(maxVal, maxIdx) i =>
                    if dB_gtb (nth_error freqData i) maxVal
                    then (nth i freqData NegInfinity, i) else (maxVal, maxIdx))
                 (seq 1 (upperLimit - 1)) (NegInfinity, 0%nat)).

Definition fftSize : nat := 2048.

Definition detectDominantFrequency `{WebAudio} (buffer : AudioBuffer)
    : option Q :=
  let data := getChannelData buffer 0 in
  let start := (List.length data / 2)%nat in
  let window := firstn fftSize (skipn start data) in
  let freqData := getFloatFrequencyData window (sampleRate buffer) in
  let upperLimit :=
    Z.to_nat (Math_floor ((1000 * ofNat fftSize) / ofZ (sampleRate buffer))) in
  let maxIdx := loudest_bin freqData upperLimit in
  let freq := ofNat maxIdx * (ofZ (sampleRate buffer) / ofNat fftSize) in
  if gtb freq 5 then Some (round1 freq) else None.

(** *** decodeFile *)

(** [a || b] on [number | null]. *)
Definition orElse (a b : option Q) : option Q :=
  match a with
  | Some x => if truthy x then Some x else b
  | None => b
  end.

(** Line 24. *)
Definition frequency_of `{WebAudio} (name : string) (buffer : AudioBuffer)
    : option Q :=
  orElse (extractFrequency name) (detectDominantFrequency buffer).

Definition uppercase (c : ascii) : ascii :=
  let n := nat_of_ascii c in
  if (97 <=? n)%nat && (n <=? 122)%nat then ascii_of_nat (n - 32) else c.

(** [file.type.split('/')[1]?.toUpperCase() || 'AUDIO'] *)
Definition format_of (mime : string) : string :=
  match snd (span (fun c => negb (nat_of_ascii c =? 47)%nat)
                  (list_ascii_of_string mime)) with
  | _ :: rest =>
    match fst (span (fun c => negb (nat_of_ascii c =? 47)%nat) rest) with
    | [] => "AUDIO"
    | sub => string_of_list_ascii (map uppercase sub)
    end
  | [] => "AUDIO"
  end.

(** The decoder is a collaborator: [audioBuffer] is what it returned
    for the file called [name] of media type [mime]. *)
Definition decodeFile `{MathLib} `{WebAudio} (fuel : nat) (name mime : string)
    (audioBuffer : AudioBuffer) (mode : DetectionMode)
    : option AudioMetadata.t :=
  let tempo :=
    if ltb (duration audioBuffer) 600
    then option_map Some (analyzeBpm fuel audioBuffer mode)
    else Some None in
  match tempo with
  | None => None
  | Some bpm =>
    let freq := frequency_of name audioBuffer in
    let truthyFreq := match freq with Some x => truthy x | None => false end in
    let pulse := option_map (fun x => x * 60) freq in
    Some {| AudioMetadata.name := name;
            AudioMetadata.duration := duration audioBuffer;
            AudioMetadata.sampleRate := sampleRate audioBuffer;
            AudioMetadata.buffer := audioBuffer;
            AudioMetadata.format := format_of mime;
            AudioMetadata.bpmInfo := bpm;
            AudioMetadata.frequency := freq;
            AudioMetadata.pulseRate := if truthyFreq then pulse else None;
            AudioMetadata.divisorBpms :=
              if truthyFreq
              then option_map (fun pr => map (fun n => round1 (pr / n))
                                             [6; 8; 10; 12]) pulse
              else None |}
  end.

(** *** process *)

(** Line 286: [o.sourceBpmOverride || m.bpmInfo?.corrected || 120]. *)
Definition source_bpm (m : AudioMetadata.t) (o : ProcessingOptions.t) : Q :=
  match orElse (ProcessingOptions.sourceBpmOverride o)
               (option_map corrected (AudioMetadata.bpmInfo m)) with
  | Some x => if truthy x then x else 120
  | None => 120
  end.

(** Line 287. *)
Definition stretch_rate (m : AudioMetadata.t) (o : ProcessingOptions.t) : Q :=
  match ProcessingOptions.targetBpm o with
  | Some t => if truthy t then t / source_bpm m o else 1
  | None => 1
  end.

(** Line 306. *)
Definition original_bounds `{MathLib} (m : AudioMetadata.t)
    (o : ProcessingOptions.t) : option LoopBoundaries :=
  match ProcessingOptions.manualBoundaries o with
  | Some mb => Some {| introEnd := ManualBoundaries.introEnd mb;
                       outroStart := ManualBoundaries.outroStart mb;
                       detected := true |}
  | None => detectBoundaries (AudioMetadata.buffer m)
  end.

(** The value returned and the progress values reported, in order. *)
Record Processed := mkProcessed {
  blob : Blob;
  progress : list Z
}.

(** The calls of [p] on lines 283, 293, 303, 316, 319 and 322. *)
Definition milestones (stretched : bool) : list Z :=
  [5%Z] ++ (if stretched then [25%Z] else []) ++ [45; 75; 95; 100]%Z.

(** Lines 280-316: everything [process] does before it asks the host
    to render, that is the graph it has built and whether the music
    was stretched.  The tempo ratio is the exact quotient here; on
    doubles a ratio within rounding of 0.99 or 1.01 can fall on the
    other side of the test of line 291. *)
Definition mixdown_graph `{MathLib} (fuel : nat)
    (f m : AudioMetadata.t) (o : ProcessingOptions.t)
    : option (OfflineGraph * bool) :=
  let tDur := ProcessingOptions.targetDurationMinutes o * 60 in
  let outputSampleRate :=
    Z.max (AudioMetadata.sampleRate f) (AudioMetadata.sampleRate m) in
  let rate := stretch_rate m o in
  let stretch := gtb (Math_abs (rate - 1)) (1 # 100) in
  match (if stretch then timeStretch (AudioMetadata.buffer m) rate
         else Some (AudioMetadata.buffer m)) with
  | None => None
  | Some musicBuffer =>
    let cf := ProcessingOptions.crossfadeDuration o in
    let focusGainLinear := Math_pow 10 (ProcessingOptions.focusVolumeDb o / 20) in
    match renderLoopingTrack fuel (AudioMetadata.buffer f) tDur
            focusGainLinear cf with
    | None => None
    | Some focusVoices =>
      match original_bounds m o with
      | None => None
      | Some origBounds =>
        let stretchedBounds :=
          {| introEnd := introEnd origBounds / rate;
             outroStart := outroStart origBounds / rate;
             detected := detected origBounds |} in
        let musicGainLinear :=
          Math_pow 10 (ProcessingOptions.musicVolumeDb o / 20) in
        match renderMusicTrack fuel musicBuffer tDur musicGainLinear
                stretchedBounds cf 1 with
        | None => None
        | Some musicVoices =>
          Some ({| g_numberOfChannels := 2;
                   g_length := Math_floor (tDur * ofZ outputSampleRate);
                   g_sampleRate := outputSampleRate;
                   g_masterGain := 89 # 100;
                   g_voices := focusVoices ++ musicVoices |},
                stretch)
        end
      end
    end
  end.

(** Lines 318-323 after lines 280-316. *)
Definition process `{MathLib} `{WebAudio} (fuel : nat)
    (f m : AudioMetadata.t) (o : ProcessingOptions.t) : option Processed :=
  match mixdown_graph fuel f m o with
  | None => None
  | Some (ctx, stretch) =>
    let rendered := startRendering ctx in
    match audioBufferToLossless rendered
            (ProcessingOptions.exportFormat o) with
    | None => None
    | Some b =>
      Some {| blob := b; progress := milestones stretch |}
    end
  end.

End AudioEngine.

Import AudioEngine.

(** * The page, [App.tsx]

    The part of the state of the [App] component that its calls of the
    engine read or write, and the handlers that make those calls.  The
    result of a handler is [None] when the engine yields nothing to
    store; the blob that [handleProcess] stores is given as its result. *)

Module App.

(** Lines 346-360, with the initial values. *)
Record State := mkState {
  focusTrack : option AudioMetadata.t;
  musicTrack : option AudioMetadata.t;
  targetDuration : Q;
  musicVolume : Q;
  focusVolume : Q;
  targetBpm : option Q;
  manualMusicBpm : option Q;
  exportFormat : ExportFormat;
  boundaries : option LoopBoundaries;
  detectionMode : DetectionMode
}.

Definition initial : State :=
  {| focusTrack := None; musicTrack := None; targetDuration := 60;
     musicVolume := 0; focusVolume := 0; targetBpm := None;
     manualMusicBpm := None; exportFormat := wav_lossless;
     boundaries := None; detectionMode := accurate |}.

(** Lines 378-386. *)
Definition handleFocusUpload `{MathLib} `{WebAudio} (fuel : nat)
    (name mime : string) (audioBuffer : AudioBuffer) (st : State)
    : option State :=
  match decodeFile fuel name mime audioBuffer (detectionMode st) with
  | None => None
  | Some meta =>
    Some {| focusTrack := Some meta; musicTrack := musicTrack st;
            targetDuration := targetDuration st;
            musicVolume := musicVolume st; focusVolume := focusVolume st;
            targetBpm := targetBpm st; manualMusicBpm := manualMusicBpm st;
            exportFormat := exportFormat st; boundaries := boundaries st;
            detectionMode := detectionMode st |}
  end.

(** Lines 388-397. *)
Definition handleMusicUpload `{MathLib} `{WebAudio} (fuel : nat)
    (name mime : string) (audioBuffer : AudioBuffer) (st : State)
    : option State :=
  match decodeFile fuel name mime audioBuffer (detectionMode st) with
  | None => None
  | Some meta =>
    match detectBoundaries (AudioMetadata.buffer meta) with
    | None => None
    | Some b =>
      Some {| focusTrack := focusTrack st; musicTrack := Some meta;
              targetDuration := targetDuration st;
              musicVolume := musicVolume st; focusVolume := focusVolume st;
              targetBpm := targetBpm st; manualMusicBpm := manualMusicBpm st;
              exportFormat := exportFormat st; boundaries := Some b;
              detectionMode := detectionMode st |}
    end
  end.

(** Lines 404-413: the options [handleProcess] hands to the engine.
    [boundaries || undefined] passes the whole object; the engine reads
    its two times and replaces its flag. *)
Definition processing_options (st : State) : ProcessingOptions.t :=
  {| ProcessingOptions.targetDurationMinutes := targetDuration st;
     ProcessingOptions.musicVolumeDb := musicVolume st;
     ProcessingOptions.focusVolumeDb := focusVolume st;
     ProcessingOptions.crossfadeDuration := 3;
     ProcessingOptions.exportFormat := exportFormat st;
     ProcessingOptions.targetBpm := targetBpm st;
     ProcessingOptions.sourceBpmOverride := manualMusicBpm st;
     ProcessingOptions.manualBoundaries :=
       option_map (fun b => {| ManualBoundaries.introEnd := introEnd b;
                               ManualBoundaries.outroStart := outroStart b |})
                  (boundaries st) |}.

(** Lines 399-423: [Some None] when a track is missing and the handler
    returns at once, [None] when the engine yields no blob. *)
Definition handleProcess `{MathLib} `{WebAudio} (fuel : nat) (st : State)
    : option (option Processed) :=
  match focusTrack st, musicTrack st with
  | Some f, Some m => option_map Some (process fuel f m (processing_options st))
  | _, _ => Some None
  end.

(** Line 555: a format button changes the selected format and nothing
    else; the blob that the last [handleProcess] stored stays. *)
Definition setExportFormat (format : ExportFormat) (st : State) : State :=
  {| focusTrack := focusTrack st; musicTrack := musicTrack st;
     targetDuration := targetDuration st;
     musicVolume := musicVolume st; focusVolume := focusVolume st;
     targetBpm := targetBpm st; manualMusicBpm := manualMusicBpm st;
     exportFormat := format; boundaries := boundaries st;
     detectionMode := detectionMode st |}.

(** Lines 608-610. *)
Definition download_extension (format : ExportFormat) : string :=
  match format with
  | flac_lossless => "flac"
  | mp3_high | mp3_standard => "mp3"
  | wav_lossless => "wav"
  end.

(** [name.split('.')[0]] *)
Definition before_dot (name : string) : string :=
  string_of_list_ascii
    (fst (span (fun c => negb (nat_of_ascii c =? 46)%nat)
               (list_ascii_of_string name))).

(** Line 611: the name the download button gives to the stored blob,
    from the format selected when it is clicked. *)
Definition download_name (st : State) : string :=
  let stem := match focusTrack st with
              | Some f => before_dot (AudioMetadata.name f)
              | None => "undefined"%string
              end in
  ("TuneScape_" ++ stem ++ "." ++ download_extension (exportFormat st))%string.

End App.

(** ** The placement loop on doubles

    Lines 327-362 once more, with the numbers as the IEEE doubles they
    are at run time.  Only [cur] decides how the loop runs; the gain
    events of lines 337-355 are computed from it and do not feed back
    into it, so of each copy the time handed to [src.start] is kept. *)

Module Float64.
Import PrimFloat.

(** Line 360, [cur + dur - cf]: the sum is rounded, then the difference. *)
Definition advance (dur cf cur : float) : float := (cur + dur - cf)%float.

Definition renderLoopingTrack (fuel : nat) (dur totalDur cf : float)
    : option (list float) :=
  option_map snd
    (while_loop fuel
       (fun '(cur, _) => (cur <? totalDur)%float)
       (fun '(cur, starts) => Some (advance dur cf cur, starts ++ [cur]))
       (0%float, [])).

End Float64.

(** * Specification

    What follows is stated about the definitions above.  First the
    notions the statements use, then a host and some inputs to evaluate
    the engine on, then the lemmas. *)

(** ** Notions used in the statements *)

Fixpoint pow2 (k : nat) : Q :=
  match k with
  | O => 1
  | S k' => 2 * pow2 k'
  end.

(** Raw passes as [analyzeBpm] admits them, after rounding. *)
Definition plausible (t : Q) : Prop := 40 <= t <= 300.

(** The lower median in the spec's words: for an even count, the
    smaller of the two middle values of the sorted list. *)
Definition lower_median (l : list Q) : Q :=
  nth ((List.length l - 1) / 2) (sort_num l) 0.

(** The placement time of the [k]-th copy of the foundation, as line
    360 computes it. *)
Fixpoint placement (b : AudioBuffer) (cf : Q) (k : nat) : Q :=
  match k with
  | O => 0
  | S k' => placement b cf k' + duration b - cf
  end.

Definition looping_voices (b : AudioBuffer) (totalDur targetVolume cf : Q)
    (n : nat) : list Voice :=
  map (fun k => looping_voice b totalDur targetVolume cf (placement b cf k))
      (seq 0 n).

Section DoublesDefs.
Import PrimFloat.



End DoublesDefs.

(** The canonical 44-byte RIFF/WAVE header of a PCM16 stream. *)
Definition riff_header (numChan rate dataLen : Z) : list Z :=
  [82; 73; 70; 70]%Z ++ le_bytes 4 (36 + dataLen) ++
  [87; 65; 86; 69]%Z ++
  [102; 109; 116; 32]%Z ++ le_bytes 4 16 ++
  le_bytes 2 1 ++ le_bytes 2 numChan ++ le_bytes 4 rate ++
  le_bytes 4 (rate * 2 * numChan) ++ le_bytes 2 (numChan * 2) ++
  le_bytes 2 16 ++
  [100; 97; 116; 97]%Z ++ le_bytes 4 dataLen.

(** The frames in order, each frame one sample per channel. *)
Definition pcm_payload (buffer : AudioBuffer) : list Z :=
  flat_map (fun pos =>
              flat_map (fun c => le_bytes 2 (truncate (pcm16 (sample c pos))))
                       (channels buffer))
           (seq 0 (length buffer)).

Definition data_length (buffer : AudioBuffer) : Z :=
  Z.of_nat (length buffer * numberOfChannels buffer * 2).

(** The samples of a wave file in the spec's words: the value clamped
    to [-1, 1], scaled by 32768 if negative and by 32767 otherwise, and
    kept as a 16-bit integer, the fraction dropped; then the low byte
    and the high byte of its two's complement. *)
Definition clamped (x : Q) : Q := Qmax (-1) (Qmin 1 x).

Definition scaled (x : Q) : Q :=
  if Qlt_le_dec (clamped x) 0 then clamped x * 32768 else clamped x * 32767.

Definition sample16 (x : Q) : Z :=
  Z.quot (Qnum (scaled x)) (Zpos (Qden (scaled x))).

Definition little_endian16 (z : Z) : list Z :=
  [Z.land z 255; Z.land (Z.shiftr z 8) 255]%Z.

Definition wave_payload (buffer : AudioBuffer) : list Z :=
  flat_map (fun pos =>
              flat_map (fun c => little_endian16 (sample16 (sample c pos)))
                       (channels buffer))
           (seq 0 (length buffer)).

(** [w] has been written at the front of a view of [total] bytes, the
    rest of which is still zero, and the cursor is right behind [w]. *)
Definition written (w : list Z) (total : nat) (st : ViewState) : Prop :=
  view st = w ++ repeat 0%Z (total - List.length w) /\
  offset st = List.length w /\ (List.length w <= total)%nat.

(** A step that, from cursor [n], appends exactly [bs]. *)
Definition emits (n : nat) (wr : Write) (bs : list Z) : Prop :=
  forall w total st,
    List.length w = n -> written w total st ->
    (n + List.length bs <= total)%nat ->
    exists st', wr st = Some st' /\ written (w ++ bs) total st'.

Definition isSome {A : Type} (x : option A) : bool :=
  match x with Some _ => true | None => false end.

(** ** A host to evaluate the engine on

    Square roots to six decimals, the cosine and the powers of ten by
    truncated series. *)

Fixpoint factorial (k : nat) : Q :=
  match k with
  | O => 1
  | S k' => ofNat k * factorial k'
  end.

Definition horner (coeffs : list Q) (x : Q) : Q :=
  fold_right (fun c acc => Qred (c + x * acc)) 0 coeffs.

Definition exp_series (z : Q) : Q :=
  horner (map (fun k => 1 / factorial k) (seq 0 17)) z.

Definition cos_series (y : Q) : Q :=
  horner (map (fun k => (if Nat.even k then 1 else -1) / factorial (2 * k))
              (seq 0 9)) (y * y).

Definition approx_math : MathLib :=
  {| Math_sqrt := fun x =>
       ofZ (Z.sqrt (Qfloor (x * 1000000000000))) / 1000000;
     Math_cos := fun x =>
       let tau := 2 * (355 # 113) in
       cos_series (x - tau * ofZ (Math_round (x / tau)));
     Math_pow := fun _ e => exp_series (e * (2302585093 # 1000000000));
     Math_PI := 355 # 113 |}.

(** A host whose analyser hears nothing and whose renderer returns
    silence of the requested size. *)
Definition silent_host : WebAudio :=
  {| getFloatFrequencyData := fun _ _ => repeat NegInfinity 1024;
     startRendering := fun g =>
       {| sampleRate := g_sampleRate g;
          length := Z.to_nat (g_length g);
          channels := repeat (repeat 0 (Z.to_nat (g_length g)))
                             (g_numberOfChannels g) |} |}.

(** A host whose analyser finds the first bin the loudest. *)
Definition first_bin_host : WebAudio :=
  {| getFloatFrequencyData := fun _ _ => [dB (-100); dB (-20); dB (-100)];
     startRendering := @startRendering silent_host |}.

(** ** Inputs *)

(** Clicks of full scale, each followed by a stretch of silence. *)
Definition click_track (gaps : list nat) : list Q :=
  flat_map (fun g => 1 :: repeat 0 g) gaps.

(** Clicks at 0, 0.25, 0.75, 1 and 1.5 seconds of a 1.55 second signal
    at 8000 Hz. *)
Definition uneven_clicks : list Q :=
  click_track [1999; 3999; 1999; 3999; 399]%nat.

(** Ten seconds of clicks half a second apart, at 100 Hz. *)
Definition steady_clicks : AudioBuffer :=
  {| sampleRate := 100; length := 1000;
     channels := [click_track (repeat 49%nat 20)] |}.

(** Two stereo frames. *)
Definition two_frames : AudioBuffer :=
  {| sampleRate := 8000; length := 2;
     channels := [[1 # 2; -1]; [3; - (1 # 3)]] |}.

Definition uneven_peaks : list Q :=
  [0 # 8000; 2000 # 8000; 6000 # 8000; 8000 # 8000; 12000 # 8000].

(** One second and ten minutes of silence, half a second of a ramp,
    all at 8000 Hz. *)
Definition one_second : AudioBuffer :=
  {| sampleRate := 8000; length := 8 * 1000;
     channels := [repeat 0 (8 * 1000)] |}.

Definition ten_minutes : AudioBuffer :=
  {| sampleRate := 8000; length := 600 * (8 * 1000);
     channels := [repeat 0 (600 * (8 * 1000))] |}.

Definition short_clip : AudioBuffer :=
  {| sampleRate := 8000; length := 4000;
     channels := [map (fun i => ofNat i / 4000) (seq 0 4000)] |}.

(** Thirty seconds at 100 Hz: a quarter of full scale throughout, one
    half during seconds 1 to 6 and 24 to 29. *)
Definition loud_ends : AudioBuffer :=
  {| sampleRate := 100; length := 3000;
     channels :=
       [repeat (1 # 4) 100 ++ repeat (1 # 2) 500 ++ repeat (1 # 4) 1800 ++
        repeat (1 # 2) 500 ++ repeat (1 # 4) 100] |}.

(** A three-second tone and a four-second bed at 8000 Hz; the loop
    region of the bed, set by hand, is half a second long and the
    crossfade a full second. *)
Definition tone : AudioBuffer :=
  {| sampleRate := 8000; length := 3 * (8 * 1000);
     channels := [repeat (1 # 2) (3 * (8 * 1000))] |}.

Definition bed : AudioBuffer :=
  {| sampleRate := 8000; length := 4 * (8 * 1000);
     channels := [repeat (1 # 4) (4 * (8 * 1000))] |}.

Definition metadata_of (name : string) (b : AudioBuffer) : AudioMetadata.t :=
  {| AudioMetadata.name := name;
     AudioMetadata.duration := duration b;
     AudioMetadata.sampleRate := sampleRate b;
     AudioMetadata.buffer := b;
     AudioMetadata.format := "WAV";
     AudioMetadata.bpmInfo := None;
     AudioMetadata.frequency := None;
     AudioMetadata.pulseRate := None;
     AudioMetadata.divisorBpms := None |}.

Definition focus_track : AudioMetadata.t := metadata_of "tone.wav" tone.
Definition music_track : AudioMetadata.t := metadata_of "bed.wav" bed.

Definition long_crossfade : ProcessingOptions.t :=
  {| ProcessingOptions.targetDurationMinutes := 5 # 100;
     ProcessingOptions.musicVolumeDb := 0;
     ProcessingOptions.focusVolumeDb := 0;
     ProcessingOptions.crossfadeDuration := 1;
     ProcessingOptions.exportFormat := wav_lossless;
     ProcessingOptions.targetBpm := None;
     ProcessingOptions.sourceBpmOverride := None;
     ProcessingOptions.manualBoundaries :=
       Some {| ManualBoundaries.introEnd := 2;
               ManualBoundaries.outroStart := 25 # 10 |} |}.

(** ** Notions for the schedules and the encoded file *)

(** The times a voice hands to the host: those of its gain events, the
    start and the stop. *)
Definition event_time (e : GainEvent) : Q :=
  match e with
  | setValueAtTime _ t => t
  | linearRampToValueAtTime _ t => t
  end.

Definition start_time (v : Voice) : Q := fst (fst (v_start v)).

Definition voice_times (v : Voice) : list Q :=
  map event_time (v_gain v) ++ [start_time v] ++
  match v_stop v with Some t => [t] | None => [] end.

(** Bytes read as a little-endian unsigned integer, and the [n] bytes
    at offset [pos] of a file read that way. *)
Fixpoint read_uint (bs : list Z) : Z :=
  match bs with
  | [] => 0%Z
  | b :: rest => (b + 256 * read_uint rest)%Z
  end.

Definition field (bs : list Z) (pos n : nat) : Z :=
  read_uint (firstn n (skipn pos bs)).

(** A pair of bytes read as a little-endian signed 16-bit integer, and
    a run of bytes read as such pairs. *)
Definition read_int16 (lo hi : Z) : Z :=
  let u := (lo + 256 * hi)%Z in
  if (u <? 32768)%Z then u else (u - 65536)%Z.

Fixpoint read_pcm16 (bs : list Z) : list Z :=
  match bs with
  | lo :: hi :: rest => read_int16 lo hi :: read_pcm16 rest
  | _ => []
  end.

(** The samples of a buffer as 16-bit integers, frame by frame. *)
Definition quantised (buffer : AudioBuffer) : list Z :=
  flat_map (fun pos => map (fun c => truncate (pcm16 (sample c pos)))
                           (channels buffer))
           (seq 0 (length buffer)).

(** [c] is [k] times the tempo [t], up to the rounding to one decimal. *)
Definition multiple_of (k t c : Q) : Prop := Qabs (c - k * t) <= 1 # 10.

(** Two tempi far enough apart to be told apart, the smaller first. *)
Definition apart (a b : Q) : Prop := a + 29 <= b.

(** ** Inputs for the schedules and the page *)

(** A loop region of the bed set by hand, and the boundaries the
    detector returns for the bed. *)
Definition bed_region : LoopBoundaries :=
  {| introEnd := 1; outroStart := 3; detected := true |}.

Definition bed_undetected : LoopBoundaries :=
  {| introEnd := 0; outroStart := duration bed; detected := false |}.

(** A twentieth of a second at 2000 Hz, and four samples at 10300 Hz. *)
Definition blip : AudioBuffer :=
  {| sampleRate := 2000; length := 100; channels := [repeat (1 # 4) 100] |}.

Definition four_samples : AudioBuffer :=
  {| sampleRate := 10300; length := 4; channels := [[0; 1; 0; -1]] |}.

(** The page with the bed as both tracks, six seconds to render and
    the boundaries of an upload on which nothing was detected. *)
Definition page_undetected : App.State :=
  {| App.focusTrack := Some music_track;
     App.musicTrack := Some music_track;
     App.targetDuration := 1 # 10;
     App.musicVolume := 0; App.focusVolume := 0;
     App.targetBpm := None; App.manualMusicBpm := None;
     App.exportFormat := mp3_high;
     App.boundaries := Some bed_undetected;
     App.detectionMode := accurate |}.

(** The options of a run that brings the music to 90 BPM. *)
Definition retimed : ProcessingOptions.t :=
  {| ProcessingOptions.targetDurationMinutes := 5 # 100;
     ProcessingOptions.musicVolumeDb := 0;
     ProcessingOptions.focusVolumeDb := 0;
     ProcessingOptions.crossfadeDuration := 1;
     ProcessingOptions.exportFormat := wav_lossless;
     ProcessingOptions.targetBpm := Some 90;
     ProcessingOptions.sourceBpmOverride := None;
     ProcessingOptions.manualBoundaries := None |}.

(** The page right after the tone and the bed were loaded, with the
    initial settings otherwise. *)
Definition page_short_foundation : App.State :=
  {| App.focusTrack := Some focus_track;
     App.musicTrack := Some music_track;
     App.targetDuration := 60;
     App.musicVolume := 0; App.focusVolume := 0;
     App.targetBpm := None; App.manualMusicBpm := None;
     App.exportFormat := wav_lossless;
     App.boundaries := Some bed_undetected;
     App.detectionMode := accurate |}.

(** A loop region of half a second. *)
Definition bed_half_second : LoopBoundaries :=
  {| introEnd := 2; outroStart := 25 # 10; detected := true |}.

(** The options of a run of one minute over a loop region of two
    seconds, with a crossfade of half a second and the tempo left
    alone. *)
Definition one_minute : ProcessingOptions.t :=
  {| ProcessingOptions.targetDurationMinutes := 1;
     ProcessingOptions.musicVolumeDb := 0;
     ProcessingOptions.focusVolumeDb := 0;
     ProcessingOptions.crossfadeDuration := 1 # 2;
     ProcessingOptions.exportFormat := flac_lossless;
     ProcessingOptions.targetBpm := None;
     ProcessingOptions.sourceBpmOverride := None;
     ProcessingOptions.manualBoundaries :=
       Some {| ManualBoundaries.introEnd := 1;
               ManualBoundaries.outroStart := 3 |} |}.

(** * Lemmas *)

(** ** Comparisons *)

Lemma ltb_lt (x y : Q) : ltb x y = true <-> x < y.
Proof.
  unfold ltb. rewrite negb_true_iff, <- not_true_iff_false, Qle_bool_iff.
  split; [apply Qnot_le_lt | apply Qlt_not_le].
Qed.

Lemma ltb_ge (x y : Q) : ltb x y = false <-> y <= x.
Proof.
  unfold ltb. rewrite negb_false_iff. apply Qle_bool_iff.
Qed.

Lemma gtb_gt (x y : Q) : gtb x y = true <-> y < x.
Proof. apply ltb_lt. Qed.

Lemma gtb_le (x y : Q) : gtb x y = false <-> x <= y.
Proof. apply ltb_ge. Qed.

Lemma leb_le (x y : Q) : leb x y = true <-> x <= y.
Proof. apply Qle_bool_iff. Qed.

Lemma leb_gt (x y : Q) : leb x y = false <-> y < x.
Proof.
  unfold leb. rewrite <- not_true_iff_false, Qle_bool_iff.
  split; [apply Qnot_le_lt | apply Qlt_not_le].
Qed.

Lemma geb_ge (x y : Q) : geb x y = true <-> y <= x.
Proof. apply Qle_bool_iff. Qed.

Lemma geb_lt (x y : Q) : geb x y = false <-> x < y.
Proof. apply leb_gt. Qed.

Lemma eqb_eq (x y : Q) : eqb x y = true <-> x == y.
Proof. apply Qeq_bool_iff. Qed.

Lemma eqb_neq (x y : Q) : eqb x y = false <-> ~ x == y.
Proof.
  unfold eqb. rewrite <- not_true_iff_false, Qeq_bool_iff. tauto.
Qed.

(** Division by a literal is multiplication by its inverse, which
    linear arithmetic understands. *)
Ltac qconst :=
  unfold Qdiv in *;
  repeat match goal with
         | |- context [Qinv (?n # ?d)] =>
           let v := eval compute in (Qinv (n # d)) in
           progress change (Qinv (n # d)) with v
         | H : context [Qinv (?n # ?d)] |- _ =>
           let v := eval compute in (Qinv (n # d)) in
           progress change (Qinv (n # d)) with v in H
         end.

Ltac qlra := qconst; lra.

(** ** Octave correction *)

Lemma pow2_pos (k : nat) : 0 < pow2 k.
Proof. induction k; simpl; lra. Qed.

Lemma pow2_ge1 (k : nat) : 1 <= pow2 k.
Proof. induction k; simpl; lra. Qed.

Lemma pow2_ge (k : nat) : ofNat k <= pow2 k.
Proof.
  induction k.
  - apply Qlt_le_weak, pow2_pos.
  - unfold ofNat in *. rewrite Nat2Z.inj_succ. unfold Z.succ.
    rewrite inject_Z_plus. simpl pow2.
    pose proof (pow2_ge1 k).
    change (inject_Z 1) with 1. lra.
Qed.

Lemma pow2_reaches (x : Q) : exists k, x <= pow2 k.
Proof.
  exists (Z.to_nat (Qceiling x)).
  eapply Qle_trans; [apply Qle_ceiling|].
  eapply Qle_trans; [|apply pow2_ge].
  unfold ofNat. rewrite <- Zle_Qle. lia.
Qed.

Lemma halve_loop_spec (k : nat) : forall c,
  c <= 200 * pow2 k ->
  exists r, (forall fuel, (k <= fuel)%nat -> halve_loop fuel c = Some r) /\
            r <= 200 /\ (c <= 200 -> r = c) /\ (200 < c -> 100 < r).
Proof.
  induction k; intros c Hc.
  - simpl in Hc. exists c. repeat split; try lra; auto.
    intros fuel _. destruct fuel; simpl;
      replace (gtb c 200) with false; auto; symmetry; apply gtb_le; lra.
  - destruct (gtb c 200) eqn:E.
    + apply gtb_gt in E.
      destruct (IHk (c / 2)) as [r (Hr & Hle & Hid & Hgt)].
      { simpl in Hc. qlra. }
      exists r. repeat split; auto.
      * intros fuel Hf. destruct fuel; [lia|]. simpl. 
        replace (gtb c 200) with true by (symmetry; apply gtb_gt; auto).
        apply Hr. lia.
      * intros. lra.
      * intros _. destruct (Qlt_le_dec 200 (c / 2)).
        -- apply Hgt; auto.
        -- rewrite Hid by auto. qlra.
    + apply gtb_le in E. exists c. repeat split; auto; try lra.
      intros fuel _. destruct fuel; simpl;
        replace (gtb c 200) with false; auto; symmetry; apply gtb_le; lra.
Qed.

Lemma double_loop_spec (k : nat) : forall c,
  0 < c -> 60 <= c * pow2 k ->
  exists r, (forall fuel, (k <= fuel)%nat -> double_loop fuel c = Some r) /\
            60 <= r /\ (60 <= c -> r = c) /\ (c < 60 -> r < 120).
Proof.
  induction k; intros c Hpos Hc.
  - simpl in Hc. exists c. repeat split; try lra; auto.
    intros fuel _. destruct fuel; simpl;
      replace (ltb c 60) with false; auto; symmetry; apply ltb_ge; lra.
  - destruct (ltb c 60) eqn:E.
    + apply ltb_lt in E.
      destruct (IHk (c * 2)) as [r (Hr & Hle & Hid & Hgt)].
      { lra. } { simpl in Hc. lra. }
      exists r. repeat split; auto.
      * intros fuel Hf. destruct fuel; [lia|]. simpl.
        replace (ltb c 60) with true by (symmetry; apply ltb_lt; auto).
        apply Hr. lia.
      * intros. lra.
      * intros _. destruct (Qlt_le_dec (c * 2) 60).
        -- apply Hgt; auto.
        -- rewrite Hid by auto. lra.
    + apply ltb_ge in E. exists c. repeat split; auto; try lra.
      intros fuel _. destruct fuel; simpl;
        replace (ltb c 60) with false; auto; symmetry; apply ltb_ge; lra.
Qed.

Lemma octave_correct_spec (c : Q) :
  0 < c ->
  exists n r, (forall fuel, (n <= fuel)%nat -> octave_correct fuel c = Some r) /\
              60 <= r <= 200.
Proof.
  intros Hpos.
  destruct (pow2_reaches (c / 200)) as [k1 Hk1].
  destruct (halve_loop_spec k1 c) as [r1 (H1 & Hle1 & Hid1 & Hgt1)].
  { qlra. }
  assert (Hr1 : 0 < r1).
  { destruct (Qlt_le_dec 200 c); [specialize (Hgt1 q); lra|].
    rewrite Hid1; auto. }
  destruct (pow2_reaches (60 / r1)) as [k2 Hk2].
  destruct (double_loop_spec k2 r1 Hr1) as [r2 (H2 & Hge2 & Hid2 & Hlt2)].
  { assert (E : 60 == r1 * (60 / r1)).
    { rewrite Qmult_div_r; [reflexivity|]. intros Z0. rewrite Z0 in Hr1. lra. }
    rewrite E. apply Qmult_le_l; auto. }
  exists (Nat.max k1 k2), r2. split.
  - intros fuel Hf. unfold octave_correct.
    rewrite H1 by lia. apply H2. lia.
  - split; auto.
    destruct (Qlt_le_dec r1 60).
    + specialize (Hlt2 q). lra.
    + rewrite Hid2; auto.
Qed.

(** ** Sorting *)

Lemma insert_num_perm (x : Q) (l : list Q) : Permutation (insert_num x l) (x :: l).
Proof.
  induction l as [|y t IH]; simpl; auto.
  destruct (leb x y); auto.
  rewrite IH. apply perm_swap.
Qed.

Lemma sort_num_perm (l : list Q) : Permutation (sort_num l) l.
Proof.
  induction l as [|x t IH]; simpl; auto.
  rewrite insert_num_perm. auto.
Qed.

Lemma sort_num_length (l : list Q) : List.length (sort_num l) = List.length l.
Proof. apply Permutation_length, sort_num_perm. Qed.

Lemma sort_num_In (l : list Q) (x : Q) : In x (sort_num l) <-> In x l.
Proof.
  split; apply Permutation_in; [|symmetry]; apply sort_num_perm.
Qed.

Lemma insert_num_sorted (x : Q) (l : list Q) :
  StronglySorted Qle l -> StronglySorted Qle (insert_num x l).
Proof.
  induction 1 as [|y t Hs IH Hall]; simpl.
  - repeat constructor.
  - destruct (leb x y) eqn:E.
    + apply leb_le in E. constructor; [constructor; auto|].
      constructor; auto.
      eapply Forall_impl; [|exact Hall]. intros a Ha. 
      eapply Qle_trans; eauto.
    + apply leb_gt in E. constructor; auto.
      rewrite (Forall_forall (Qle y)). intros a Ha.
      apply (Permutation_in _ (insert_num_perm x t)) in Ha.
      destruct Ha as [<- | Ha]; [apply Qlt_le_weak; auto|].
      rewrite Forall_forall in Hall. auto.
Qed.

Lemma sort_num_sorted (l : list Q) : StronglySorted Qle (sort_num l).
Proof.
  induction l; simpl; [constructor | apply insert_num_sorted; auto].
Qed.

Lemma sorted_nth (l : list Q) :
  StronglySorted Qle l ->
  forall i j, (i <= j < List.length l)%nat -> nth i l 0 <= nth j l 0.
Proof.
  induction 1 as [|x t Hs IH Hall]; intros i j Hij; simpl in *; [lia|].
  destruct i, j; try lia.
  - apply Qle_refl.
  - rewrite Forall_forall in Hall. apply Hall, nth_In. lia.
  - apply IH. lia.
Qed.

(** ** Indices computed with [Math.floor] *)

Lemma floor_scale (z : Z) (p : Z) (q : positive) :
  Qfloor (inject_Z z * (p # q)) = (z * p / Zpos q)%Z.
Proof. reflexivity. Qed.

Lemma floor_half (z : Z) : Qfloor (inject_Z z / 2) = (z / 2)%Z.
Proof.
  change (inject_Z z / 2) with (inject_Z z * (1 # 2)).
  rewrite floor_scale. f_equal. lia.
Qed.

Lemma index_scale (l : list Q) (p : Z) (q : positive) :
  l <> [] -> (0 <= p < Zpos q)%Z ->
  (Z.to_nat (Math_floor (len l * (p # q))) < List.length l)%nat.
Proof.
  intros Hl Hp. unfold Math_floor, len, ofNat. rewrite floor_scale.
  assert (0 < Z.of_nat (List.length l))%Z by (destruct l; simpl in *; [congruence|lia]).
  assert (Z.of_nat (List.length l) * p / Zpos q < Z.of_nat (List.length l))%Z.
  { apply Z.div_lt_upper_bound; nia. }
  assert (0 <= Z.of_nat (List.length l) * p / Zpos q)%Z
    by (apply Z.div_pos; nia).
  lia.
Qed.

Lemma index_half (l : list Q) :
  l <> [] -> (Z.to_nat (Math_floor (len l / 2)) < List.length l)%nat.
Proof.
  intros Hl. change (len l / 2) with (len l * (1 # 2)).
  apply index_scale; auto. lia.
Qed.

(** ** The aggregation *)

Lemma tukey_filter_incl (s : list Q) (x : Q) : In x (tukey_filter s) -> In x s.
Proof.
  unfold tukey_filter. destruct (eqb _ _); auto.
  rewrite filter_In. tauto.
Qed.

Lemma quartiles_ordered (s : list Q) :
  StronglySorted Qle s -> s <> [] -> q1_of s <= q3_of s.
Proof.
  intros Hs Hne. unfold q1_of, q3_of, at_index.
  apply sorted_nth; auto. split.
  - unfold Math_floor, len, ofNat. rewrite !floor_scale.
    apply Z2Nat.inj_le; try (apply Z.div_pos; lia).
    apply Z.div_le_mono; lia. 
  - apply index_scale; auto. lia.
Qed.

Lemma tukey_filter_nonempty (s : list Q) :
  StronglySorted Qle s -> s <> [] -> tukey_filter s <> [].
Proof.
  intros Hs Hne. pose proof (quartiles_ordered s Hs Hne) as Hq.
  unfold tukey_filter. destruct (eqb _ _); auto.
  assert (Hin : In (q1_of s)
    (filter (fun t => geb t (q1_of s - (15 # 10) * (q3_of s - q1_of s)) &&
                      leb t (q3_of s + (15 # 10) * (q3_of s - q1_of s))) s)).
  { apply filter_In. split.
    - apply nth_In, index_scale; auto. lia.
    - apply andb_true_iff. split; [apply geb_ge | apply leb_le]; lra. }
  intros E. rewrite E in Hin. destruct Hin.
Qed.

Lemma medianBpm_In (l : list Q) : l <> [] -> In (medianBpm_of l) l.
Proof. intros. apply nth_In, index_half; auto. Qed.

Lemma median_of_passes (rawResults : list Q) :
  rawResults <> [] ->
  In (medianBpm_of (tukey_filter (sort_num rawResults))) rawResults.
Proof.
  intros Hne. apply sort_num_In, tukey_filter_incl, medianBpm_In.
  apply tukey_filter_nonempty; [apply sort_num_sorted|].
  intros E. apply Hne. apply length_zero_iff_nil.
  rewrite <- sort_num_length, E. reflexivity.
Qed.

(** C2.  Octave correction is total.  For every positive median tempo
    the halving loop followed by the doubling loop returns, with any
    fuel above a bound, a value between 60 and 200; hence for any
    non-empty list of positive raw passes the corrected estimate of the
    aggregation, before it is rounded to one decimal, lies between 60
    and 200, and the aggregation returns its rounding. *)
Theorem octave_correction_total (c : Q) (rawResults : list Q) :
  0 < c -> rawResults <> [] -> Forall (Qlt 0) rawResults ->
  (exists n r,
     (forall fuel, (n <= fuel)%nat -> octave_correct fuel c = Some r) /\
     60 <= r <= 200) /\
  (exists n r,
     60 <= r <= 200 /\
     forall fuel, (n <= fuel)%nat ->
       corrected_estimate fuel rawResults = Some r /\
       forall (M : MathLib) mode algos, exists info,
         aggregate fuel mode algos rawResults = Some info /\
         corrected info = round1 r).
Proof.
  intros Hc Hne Hpos. split; [apply octave_correct_spec; auto|].
  pose proof (median_of_passes rawResults Hne) as Hin.
  rewrite Forall_forall in Hpos. apply Hpos in Hin.
  destruct (octave_correct_spec _ Hin) as (n & r & Hr & Hb).
  exists n, r. split; auto. intros fuel Hf. specialize (Hr fuel Hf).
  split; [exact Hr|]. intros M mode algos.
  unfold aggregate. destruct rawResults as [|x t]; [congruence|].
  rewrite Hr. eexists. split; [reflexivity|]. reflexivity.
Qed.

Lemma octave_correction_total_witness :
  (exists n r,
     (forall fuel, (n <= fuel)%nat -> octave_correct fuel (1 # 3) = Some r) /\
     60 <= r <= 200) /\
  (exists n r,
     60 <= r <= 200 /\
     forall fuel, (n <= fuel)%nat ->
       corrected_estimate fuel [500; 30; 250] = Some r /\
       forall (M : MathLib) mode algos, exists info,
         aggregate fuel mode algos [500; 30; 250] = Some info /\
         corrected info = round1 r).
Proof.
  apply (octave_correction_total (1 # 3) [500; 30; 250]).
  - reflexivity.
  - discriminate.
  - repeat constructor.
Defined.
(** ** Loops *)

Lemma while_loop_total {S : Type} (Inv : S -> Prop) (measure : S -> nat)
    (cond : S -> bool) (body : S -> option S) :
  (forall s, Inv s -> cond s = true ->
     exists s', body s = Some s' /\ Inv s' /\ (measure s' < measure s)%nat) ->
  forall fuel s, Inv s -> (measure s <= fuel)%nat ->
    exists r, while_loop fuel cond body s = Some r /\ Inv r /\ cond r = false.
Proof.
  intros Hstep. induction fuel as [|fuel IH]; intros s Hs Hm.
  - simpl. destruct (cond s) eqn:E.
    + destruct (Hstep s Hs E) as (s' & _ & _ & Hlt). lia.
    + eauto.
  - simpl. destruct (cond s) eqn:E.
    + destruct (Hstep s Hs E) as (s' & Hb & Hs' & Hlt). rewrite Hb.
      apply IH; auto. lia.
    + eauto.
Qed.

Lemma while_loop_inv {S : Type} (Inv : S -> Prop)
    (cond : S -> bool) (body : S -> option S) :
  (forall s s', Inv s -> cond s = true -> body s = Some s' -> Inv s') ->
  forall fuel s r, Inv s -> while_loop fuel cond body s = Some r ->
    Inv r /\ cond r = false.
Proof.
  intros Hstep. induction fuel as [|fuel IH]; intros s r Hs Hr; simpl in Hr.
  - destruct (cond s) eqn:E; [discriminate|]. inversion Hr; subst; auto.
  - destruct (cond s) eqn:E.
    + destruct (body s) as [s'|] eqn:Hb; [|discriminate]. eauto.
    + inversion Hr; subst; auto.
Qed.

(** ** detectBoundaries *)

Section Boundaries.
Context {M : MathLib}.

Lemma boundaries_of_invariant (rmsValues : list Q) (dur : Q) :
  let b := boundaries_of rmsValues dur in
  (detected b = true ->
     0 < introEnd b /\ introEnd b < outroStart b /\ outroStart b < dur) /\
  (detected b = false -> introEnd b = 0 /\ outroStart b = dur).
Proof.
  unfold boundaries_of; simpl.
  set (i := Math_min dur _). set (o := Math_max 0 _).
  destruct (ltb i o && gtb i 0 && ltb o dur) eqn:E; split; intros H;
    try discriminate; auto.
  apply andb_true_iff in E. destruct E as [E E3].
  apply andb_true_iff in E. destruct E as [E1 E2].
  apply ltb_lt in E1, E3. apply gtb_gt in E2. auto.
Qed.

Lemma chunk_rms_total (data : list Q) (chunkSize : nat) :
  (1 <= chunkSize)%nat ->
  exists rmsValues, chunk_rms data chunkSize = Some rmsValues /\
    (rmsValues = [] \/
     ((List.length rmsValues - 1) * chunkSize < List.length data)%nat).
Proof.
  intros Hc. unfold chunk_rms.
  edestruct (while_loop_total
    (fun s : nat * list Q =>
       fst s = (List.length (snd s) * chunkSize)%nat /\
       (snd s = [] \/
        ((List.length (snd s) - 1) * chunkSize < List.length data)%nat))
    (fun s => (List.length data - fst s)%nat))
    as (r & Hr & Hinv & _);
    [| | | rewrite Hr; exists (snd r); split; [reflexivity|apply Hinv]].
  - intros [i rms] [Hi Hn] Hcond. cbn [fst snd] in *.
    apply Nat.ltb_lt in Hcond.
    eexists. split; [reflexivity|]. cbn [fst snd]. rewrite length_app.
    cbn [List.length]. repeat split; nia.
  - cbn [fst snd List.length]. split; [lia | auto].
  - cbn [fst]. lia.
Qed.

Lemma detectBoundaries_returns (buffer : AudioBuffer) :
  (10 <= sampleRate buffer)%Z ->
  exists r, detectBoundaries buffer = Some r.
Proof.
  intros Hsr. unfold detectBoundaries.
  destruct (chunk_rms_total (getChannelData buffer 0)
    (Z.to_nat (Math_floor (ofZ (sampleRate buffer) * (1 # 10))))) as (rms & Hr & _).
  - unfold Math_floor, ofZ. rewrite floor_scale.
    assert (1 <= sampleRate buffer * 1 / 10)%Z by (apply Z.div_le_lower_bound; lia).
    lia.
  - rewrite Hr. eauto.
Qed.

(** C4.  Every value the boundary detector returns has, when detected,
    0 < introEnd < outroStart < duration, and otherwise introEnd = 0
    and outroStart = duration. *)
Theorem detectBoundaries_invariant (buffer : AudioBuffer) (r : LoopBoundaries) :
  detectBoundaries buffer = Some r ->
  (detected r = true ->
     0 < introEnd r /\ introEnd r < outroStart r /\
     outroStart r < duration buffer) /\
  (detected r = false -> introEnd r = 0 /\ outroStart r = duration buffer).
Proof.
  unfold detectBoundaries. destruct (chunk_rms _ _); [|discriminate].
  intros E. inversion E; subst. apply boundaries_of_invariant.
Qed.

Lemma first_above_ge (rms : list Q) (t : Q) : forall i,
  (0 <= i)%Z -> (-1 <= first_above rms t i)%Z.
Proof.
  induction rms as [|r rest IH]; intros i Hi; simpl; [lia|].
  destruct (gtb r t); [lia|]. apply IH. lia.
Qed.

Lemma last_above_lt (rms : list Q) (t : Q) : forall i,
  (0 <= i)%Z -> (last_above rms t i < i + Z.of_nat (List.length rms))%Z.
Proof.
  induction rms as [|r rest IH]; intros i Hi; simpl List.length; simpl last_above; [lia|].
  specialize (IH (i + 1)%Z). 
  destruct (last_above rest t (i + 1) =? -1)%Z; [destruct (gtb r t)|]; lia.
Qed.

Lemma boundaries_of_short (rmsValues : list Q) (dur : Q) :
  (List.length rmsValues <= 199)%nat ->
  detected (boundaries_of rmsValues dur) = false.
Proof.
  intros Hn. unfold boundaries_of; simpl.
  set (t := at_index _ _).
  pose proof (first_above_ge rmsValues t 0 ltac:(lia)) as Hi.
  pose proof (last_above_lt rmsValues t 0 ltac:(lia)) as Ho.
  set (iEnd := first_above rmsValues t 0) in *.
  set (oStart := last_above rmsValues t 0) in *.
  assert (Hi' : -1 <= ofZ iEnd) by (unfold ofZ; change (-1) with (inject_Z (-1)); rewrite <- Zle_Qle; lia).
  assert (Ho' : ofZ oStart <= 198) by (unfold ofZ; change 198 with (inject_Z 198); rewrite <- Zle_Qle; lia).
  unfold Math_min, Math_max.
  destruct (ltb (ofZ iEnd * (1 # 10) + 10) dur) eqn:E1;
  destruct (ltb 0 (ofZ oStart * (1 # 10) - 10)) eqn:E2;
  apply not_true_iff_false; intros E;
  apply andb_true_iff in E; destruct E as [E E5];
  apply andb_true_iff in E; destruct E as [E3 E4];
  apply ltb_lt in E3, E5; apply gtb_gt in E4;
  try apply ltb_lt in E1; try apply ltb_lt in E2;
  try apply ltb_ge in E1; try apply ltb_ge in E2; lra.
Qed.

End Boundaries.


Lemma loud_ends_detected :
  option_map detected (@detectBoundaries approx_math loud_ends) = Some true.
Proof. vm_compute. reflexivity. Qed.

Lemma detectBoundaries_invariant_witness :
  match @detectBoundaries approx_math loud_ends with
  | Some r =>
    (detected r = true ->
       0 < introEnd r /\ introEnd r < outroStart r /\
       outroStart r < duration loud_ends) /\
    (detected r = false -> introEnd r = 0 /\ outroStart r = duration loud_ends)
  | None => False
  end.
Proof.
  destruct (@detectBoundaries approx_math loud_ends) as [r|] eqn:E.
  - apply (@detectBoundaries_invariant approx_math loud_ends r E).
  - pose proof loud_ends_detected as H. rewrite E in H. discriminate H.
Defined.

Lemma getChannelData_length (b : AudioBuffer) (i : nat) :
  wf_buffer b -> (List.length (getChannelData b i) <= length b)%nat.
Proof.
  intros [_ Hall]. unfold getChannelData.
  destruct (nth_in_or_default i (channels b) []) as [Hin | ->]; [|simpl; lia].
  rewrite Forall_forall in Hall. rewrite (Hall _ Hin). lia.
Qed.

Lemma duration_le (b : AudioBuffer) (p : Z) (q : positive) :
  (0 < sampleRate b)%Z -> duration b <= p # q ->
  (Z.of_nat (length b) * Zpos q <= p * sampleRate b)%Z.
Proof.
  intros Hsr Hd. unfold duration, ofNat, ofZ in Hd.
  assert (Hpos : 0 < inject_Z (sampleRate b)).
  { change 0 with (inject_Z 0). rewrite <- Zlt_Qlt. auto. }
  assert (E : inject_Z (Z.of_nat (length b)) ==
              inject_Z (sampleRate b) * (inject_Z (Z.of_nat (length b)) / inject_Z (sampleRate b))).
  { rewrite Qmult_div_r; [reflexivity|]. intros Z0. rewrite Z0 in Hpos. lra. }
  assert (H : inject_Z (Z.of_nat (length b)) <= inject_Z (sampleRate b) * (p # q)).
  { rewrite E. apply Qmult_le_l; auto. }
  unfold Qle in H. simpl in H. nia.
Qed.

Section Short.
Context {M : MathLib}.

(** C10.  On a well-formed signal of at least 8000 Hz and at most 19.8
    seconds the boundary detector returns, and what it returns is
    detected = false with the defaults 0 and duration. *)
Theorem short_tracks_not_detected (buffer : AudioBuffer) :
  wf_buffer buffer ->
  (8000 <= sampleRate buffer)%Z ->
  duration buffer <= 198 # 10 ->
  exists r, detectBoundaries buffer = Some r /\
            detected r = false /\
            introEnd r = 0 /\ outroStart r = duration buffer.
Proof.
  intros Hwf Hsr Hdur.
  pose proof (getChannelData_length buffer 0 Hwf) as Hlen.
  pose proof (duration_le buffer 198 10 ltac:(lia) Hdur) as Hd.
  unfold detectBoundaries.
  set (chunkSize := Z.to_nat (Math_floor (ofZ (sampleRate buffer) * (1 # 10)))).
  assert (Hcs : (Z.of_nat chunkSize = sampleRate buffer * 1 / 10)%Z).
  { unfold chunkSize, Math_floor, ofZ. rewrite floor_scale.
    apply Z2Nat.id. apply Z.div_pos; lia. }
  assert (Hcs1 : (800 <= Z.of_nat chunkSize)%Z).
  { rewrite Hcs. apply Z.div_le_lower_bound; lia. }
  assert (Hcs2 : (sampleRate buffer <= 10 * Z.of_nat chunkSize + 9)%Z).
  { rewrite Hcs. 
    pose proof (Z.mod_pos_bound (sampleRate buffer * 1) 10 ltac:(lia)).
    pose proof (Z.div_mod (sampleRate buffer * 1) 10 ltac:(lia)). lia. }
  destruct (chunk_rms_total (getChannelData buffer 0) chunkSize ltac:(lia))
    as (rms & Hr & Hn).
  rewrite Hr. eexists. split; [reflexivity|].
  assert (Hshort : (List.length rms <= 199)%nat).
  { destruct Hn as [-> | Hn]; [simpl; lia|]. nia. }
  pose proof (boundaries_of_short rms (duration buffer) Hshort) as Hdet.
  split; [exact Hdet|].
  apply (proj2 (boundaries_of_invariant rms (duration buffer)) Hdet).
Qed.

End Short.

Lemma short_tracks_not_detected_witness :
  exists r, @detectBoundaries approx_math short_clip = Some r /\
            detected r = false /\
            introEnd r = 0 /\ outroStart r = duration short_clip.
Proof.
  apply (@short_tracks_not_detected approx_math short_clip).
  - split; [reflexivity|]. repeat constructor.
  - vm_compute. discriminate.
  - vm_compute. discriminate.
Defined.

(** ** renderLoopingTrack *)

Lemma while_loop_mono {S : Type} (cond : S -> bool) (body : S -> option S) :
  forall fuel fuel' s r, (fuel <= fuel')%nat ->
    while_loop fuel cond body s = Some r ->
    while_loop fuel' cond body s = Some r.
Proof.
  induction fuel as [|fuel IH]; intros fuel' s r Hle Hr; simpl in Hr.
  - destruct fuel'; simpl; destruct (cond s); congruence.
  - destruct fuel' as [|fuel']; [lia|]. simpl.
    destruct (cond s); auto.
    destruct (body s); [|discriminate]. apply IH with (fuel' := fuel') in Hr; auto. lia.
Qed.

Lemma placement_closed (b : AudioBuffer) (cf : Q) (k : nat) :
  placement b cf k == ofNat k * (duration b - cf).
Proof.
  induction k.
  - cbn [placement]. unfold ofNat. change (inject_Z (Z.of_nat 0)) with 0. lra.
  - cbn [placement]. rewrite IHk. unfold ofNat. rewrite Nat2Z.inj_succ.
    unfold Z.succ. rewrite inject_Z_plus. change (inject_Z 1) with 1. lra.
Qed.

Section Looping.
Variables (b : AudioBuffer) (totalDur targetVolume cf : Q).
Hypothesis crossfade_short : cf < duration b.

Lemma placement_mono (j k : nat) :
  (j <= k)%nat -> placement b cf j <= placement b cf k.
Proof.
  induction 1; [apply Qle_refl|]. cbn [placement]. lra.
Qed.

Lemma placement_reaches : exists n, totalDur <= placement b cf n.
Proof.
  assert (Hd : 0 < duration b - cf) by lra.
  exists (Z.to_nat (Qceiling (totalDur / (duration b - cf)))).
  rewrite placement_closed.
  apply Qle_trans with ((totalDur / (duration b - cf)) * (duration b - cf)).
  - rewrite Qmult_comm, Qmult_div_r; [apply Qle_refl|].
    intros E. rewrite E in Hd. lra.
  - apply Qmult_le_compat_r; [|lra].
    eapply Qle_trans; [apply Qle_ceiling|].
    unfold ofNat. rewrite <- Zle_Qle. lia.
Qed.

Lemma placement_first : 
  exists n, totalDur <= placement b cf n /\
            forall k, (k < n)%nat -> placement b cf k < totalDur.
Proof.
  destruct placement_reaches as [n0 Hn0]. induction n0 as [|n0 IH].
  - exists 0%nat. split; auto. intros k Hk. lia.
  - destruct (Qlt_le_dec (placement b cf n0) totalDur) as [Hlt | Hle]; auto.
    exists (S n0). split; auto. intros k Hk.
    eapply Qle_lt_trans; [|exact Hlt]. apply placement_mono. lia.
Qed.

Lemma looping_run (m : nat) : forall k voices,
  (forall j, (j < k + m)%nat -> placement b cf j < totalDur) ->
  totalDur <= placement b cf (k + m) ->
  forall fuel, (m <= fuel)%nat ->
    while_loop fuel
      (fun '(cur, _) => ltb cur totalDur)
      (fun '(cur, voices) =>
         Some (cur + duration b - cf,
               voices ++ [looping_voice b totalDur targetVolume cf cur]))
      (placement b cf k, voices)
    = Some (placement b cf (k + m),
            voices ++ map (fun j => looping_voice b totalDur targetVolume cf
                                      (placement b cf j)) (seq k m)).
Proof.
  induction m as [|m IH]; intros k voices Hbefore Hend fuel Hf.
  - rewrite Nat.add_0_r in *. simpl. rewrite app_nil_r.
    destruct fuel; simpl;
      replace (ltb (placement b cf k) totalDur) with false; auto;
      symmetry; apply ltb_ge; auto.
  - destruct fuel as [|fuel]; [lia|]. simpl while_loop.
    replace (ltb (placement b cf k) totalDur) with true
      by (symmetry; apply ltb_lt, Hbefore; lia).
    change (placement b cf k + duration b - cf) with (placement b cf (S k)).
    rewrite IH; try lia.
    + replace (S k + m)%nat with (k + S m)%nat by lia.
      rewrite <- app_assoc. reflexivity.
    + intros j Hj. apply Hbefore. lia.
    + replace (S k + m)%nat with (k + S m)%nat by lia. auto.
Qed.

End Looping.

(** In exact arithmetic a crossfade that is not negative and shorter
    than the foundation is enough: the copies are placed
    [duration - cf > 0] apart, [n] of them start before the target
    duration, the placement after the last is at or beyond it, and
    fuel [n] suffices. *)
Lemma renderLoopingTrack_exact_returns (b : AudioBuffer)
    (totalDur targetVolume cf : Q) :
  0 <= cf -> cf < duration b ->
  exists n,
    (forall fuel, (n <= fuel)%nat ->
       renderLoopingTrack fuel b totalDur targetVolume cf =
       Some (looping_voices b totalDur targetVolume cf n)) /\
    (forall k, placement b cf (S k) - placement b cf k == duration b - cf) /\
    0 < duration b - cf /\
    (forall k, (k < n)%nat -> placement b cf k < totalDur) /\
    totalDur <= placement b cf n.
Proof.
  intros Hcf Hlt.
  destruct (placement_first b totalDur cf Hlt) as (n & Hend & Hbefore).
  exists n. repeat split; auto.
  - intros fuel Hf. unfold renderLoopingTrack.
    rewrite (looping_run b totalDur targetVolume cf n 0%nat []); auto.
  - intros k. cbn [placement]. lra.
  - lra.
Qed.

Section Doubles.
Import PrimFloat.







End Doubles.

Lemma while_loop_stuck {S : Type} (Inv : S -> Prop)
    (cond : S -> bool) (body : S -> option S) :
  (forall s, Inv s -> cond s = true /\ forall s', body s = Some s' -> Inv s') ->
  forall fuel s, Inv s -> while_loop fuel cond body s = None.
Proof.
  intros Hstep. induction fuel as [|fuel IH]; intros s Hs; simpl;
    destruct (Hstep s Hs) as [Hc Hnext]; rewrite Hc; auto.
  destruct (body s) as [s'|] eqn:E; auto.
Qed.

(** With a crossfade as long as the foundation or longer the placement
    time never moves forward, and the loop of lines 330-362 is never
    left. *)
Lemma renderLoopingTrack_stuck (b : AudioBuffer) (totalDur targetVolume cf : Q) :
  duration b <= cf -> 0 < totalDur ->
  forall fuel, renderLoopingTrack fuel b totalDur targetVolume cf = None.
Proof.
  intros Hcf Hpos fuel. unfold renderLoopingTrack.
  rewrite (while_loop_stuck (fun s : Q * list Voice => fst s <= 0)); auto.
  - intros [cur voices] Hcur. cbn [fst] in Hcur. split.
    + apply ltb_lt. lra.
    + intros s' E. inversion E; subst. cbn [fst]. lra.
  - cbn [fst]. lra.
Qed.

(** The loop of lines 389-414 is left as soon as one repetition is
    longer than the crossfade. *)
Lemma renderMusicTrack_returns (b : AudioBuffer) (totalDur targetVolume : Q)
    (bnd : LoopBoundaries) (cf rate : Q) :
  cf < (outroStart bnd - introEnd bnd) / rate ->
  exists n, forall fuel, (n <= fuel)%nat ->
    exists voices,
      renderMusicTrack fuel b totalDur targetVolume bnd cf rate = Some voices.
Proof.
  intros Hcf. unfold renderMusicTrack.
  set (eLoopDur := (outroStart bnd - introEnd bnd) / rate) in *.
  set (lET := totalDur - (duration b - outroStart bnd) / rate).
  set (d := eLoopDur - cf). assert (Hd : 0 < d) by (unfold d; lra).
  set (cond := fun '(cur, _) => ltb cur lET : bool).
  set (body := fun '(cur, voices) =>
    Some (if geb (cur + eLoopDur - cf) lET then lET else cur + eLoopDur - cf,
          voices ++ [loop_voice b targetVolume (introEnd bnd) (outroStart bnd)
                                cf rate lET cur])).
  set (measure := fun s : Q * list Voice =>
    Z.to_nat (Qceiling ((lET - fst s) / d))).
  set (start := (introEnd bnd / rate,
                 [intro_voice b targetVolume (introEnd bnd) cf rate])).
  exists (measure start). intros fuel Hf.
  destruct (while_loop_total (fun _ => True) measure cond body) with
    (fuel := fuel) (s := start) as ([cur voices] & Hr & _); auto.
  - intros [cur voices] _ Hc. unfold cond in Hc. apply ltb_lt in Hc.
    eexists. split; [reflexivity|]. split; auto.
    unfold measure; cbn [fst].
    assert (Hq : 0 < (lET - cur) / d) by (apply Qlt_shift_div_l; auto; lra).
    assert (Hp : (0 < Qceiling ((lET - cur) / d))%Z).
    { rewrite Zlt_Qlt. eapply Qlt_le_trans; [exact Hq|apply Qle_ceiling]. }
    destruct (geb (cur + eLoopDur - cf) lET) eqn:E.
    + assert (Hz : (Qceiling ((lET - lET) / d) <= 0)%Z).
      { rewrite <- (Qceiling_Z 0). apply Qceiling_resp_le.
        apply Qle_shift_div_r; auto. change (inject_Z 0) with 0. lra. }
      lia.
    + assert (Hlt : (Qceiling ((lET - (cur + eLoopDur - cf)) / d) <
                     Qceiling ((lET - cur) / d))%Z).
      { assert (E' : (lET - (cur + eLoopDur - cf)) / d == (lET - cur) / d - 1).
        { unfold d. field. unfold d in Hd. lra. }
        rewrite Zlt_Qlt.
        pose proof (Qceiling_lt ((lET - (cur + eLoopDur - cf)) / d)) as H1.
        pose proof (Qle_ceiling ((lET - cur) / d)) as H2.
        unfold Z.sub in H1. rewrite inject_Z_plus, inject_Z_opp in H1.
        change (inject_Z 1) with 1 in H1.
        set (x := (lET - (cur + eLoopDur - cf)) / d) in *.
        set (y := (lET - cur) / d) in *.
        set (cx := inject_Z (Qceiling x)) in *.
        set (cy := inject_Z (Qceiling y)) in *. lra. }
      lia.
  - fold cond. fold body. fold start. rewrite Hr. eauto.
Qed.

(** ** audioBufferToLossless *)

Lemma skipn_repeat_zero (n m : nat) :
  skipn n (repeat 0%Z m) = repeat 0%Z (m - n).
Proof.
  revert m. induction n as [|n IH]; intros m.
  - rewrite Nat.sub_0_r. reflexivity.
  - destruct m; cbn [repeat skipn Nat.sub]; auto.
Qed.

Lemma store_emits (n : nat) (bs : list Z) : emits n (fun st => store st bs) bs.
Proof.
  intros w total st Hn (Hv & Ho & Hle) Hfit. unfold store.
  rewrite Ho, Hv, length_app, repeat_length.
  replace (List.length w + List.length bs <=?
           List.length w + (total - List.length w))%nat with true
    by (symmetry; apply Nat.leb_le; lia).
  eexists. split; [reflexivity|]. unfold written; cbn [view offset].
  rewrite length_app. repeat split; try lia.
  rewrite firstn_app, firstn_all, Nat.sub_diag, firstn_O, app_nil_r.
  rewrite skipn_app, skipn_all2 by lia. cbn [app].
  rewrite <- app_assoc. do 2 f_equal.
  replace (List.length w + List.length bs - List.length w)%nat
    with (List.length bs) by lia.
  rewrite skipn_repeat_zero. f_equal. lia.
Qed.

Lemma emits_andThen (n : nat) (w1 w2 : Write) (b1 b2 : list Z) :
  emits n w1 b1 -> emits (n + List.length b1) w2 b2 ->
  emits n (andThen w1 w2) (b1 ++ b2).
Proof.
  intros H1 H2 w total st Hn Hw Hfit. rewrite length_app in Hfit.
  destruct (H1 w total st Hn Hw ltac:(lia)) as (st1 & E1 & Hw1).
  destruct (H2 (w ++ b1) total st1) as (st2 & E2 & Hw2); auto.
  { rewrite length_app. lia. } { lia. }
  exists st2. unfold andThen. rewrite E1. split; auto.
  rewrite app_assoc. auto.
Qed.

Lemma emits_done (n : nat) : emits n done [].
Proof.
  intros w total st _ Hw _. exists st. rewrite app_nil_r. auto.
Qed.

Lemma emits_for_each {A : Type} (k : nat) (f : A -> Write) (g : A -> list Z) :
  (forall a, List.length (g a) = k) ->
  (forall n a, emits n (f a) (g a)) ->
  forall l n, emits n (for_each l f) (flat_map g l).
Proof.
  intros Hk Hf. induction l as [|a t IH]; intros n; simpl.
  - apply emits_done.
  - apply emits_andThen; auto.
Qed.

Lemma flat_map_length_const {A : Type} (k : nat) (g : A -> list Z) (l : list A) :
  (forall a, List.length (g a) = k) ->
  List.length (flat_map g l) = (List.length l * k)%nat.
Proof.
  intros Hk. induction l as [|a t IH]; simpl; auto.
  rewrite length_app, Hk, IH. lia.
Qed.

Lemma le_bytes_length (n : nat) (z : Z) : List.length (le_bytes n z) = n.
Proof. revert z. induction n; intros; simpl; auto. Qed.

Lemma channels_by_index (b : AudioBuffer) :
  map (getChannelData b) (seq 0 (numberOfChannels b)) = channels b.
Proof.
  unfold getChannelData, numberOfChannels.
  apply nth_ext with (d := []) (d' := []).
  - rewrite length_map, length_seq. reflexivity.
  - intros n Hn. rewrite length_map, length_seq in Hn.
    rewrite (nth_indep _ [] (nth 0 (channels b) [])) by (rewrite length_map, length_seq; auto).
    rewrite (map_nth (fun i => nth i (channels b) []) (seq 0 _) 0%nat n).
    rewrite seq_nth; auto.
Qed.

Lemma write_samples_emits (buffer : AudioBuffer) (n : nat) :
  emits n (write_samples buffer) (pcm_payload buffer).
Proof.
  unfold write_samples, pcm_payload.
  apply emits_for_each with (k := (numberOfChannels buffer * 2)%nat).
  - intros pos. rewrite flat_map_length_const with (k := 2%nat); auto.
  - intros m pos.
    rewrite <- (channels_by_index buffer) at 1.
    rewrite flat_map_concat_map, map_map, <- flat_map_concat_map.
    apply emits_for_each with (k := 2%nat); auto.
    intros k i. apply store_emits.
Qed.

Lemma write_header_emits (total numChan rate : Z) :
  emits 0 (write_header total numChan rate)
          (riff_header numChan rate (total - 44)).
Proof.
  unfold write_header, riff_header.
  replace (36 + (total - 44))%Z with (total - 8)%Z by lia.
  repeat (apply (emits_andThen _ _ _ (_ :: _ :: _)); [apply store_emits|]).
  cbn [List.length le_bytes Nat.add].
  intros w tot st Hn Hw Hfit.
  destruct Hw as (Hv & Ho & Hle). rewrite Ho, Hn.
  replace (total - Z.of_nat 40 - 4)%Z with (total - 44)%Z by lia.
  apply (store_emits 40); auto; repeat split; auto; congruence.
Qed.

Lemma pcm_payload_length (buffer : AudioBuffer) :
  List.length (pcm_payload buffer) =
  (length buffer * numberOfChannels buffer * 2)%nat.
Proof.
  unfold pcm_payload.
  rewrite flat_map_length_const with (k := (numberOfChannels buffer * 2)%nat).
  - rewrite length_seq. lia.
  - intros pos. rewrite flat_map_length_const with (k := 2%nat); auto.
Qed.

Lemma riff_header_length (numChan rate dataLen : Z) :
  List.length (riff_header numChan rate dataLen) = 44%nat.
Proof. reflexivity. Qed.

Lemma pcm16_range (x : Q) : -32768 <= pcm16 x <= 32767.
Proof.
  unfold pcm16, Math_max, Math_min.
  destruct (ltb x 1) eqn:E1.
  - apply ltb_lt in E1. destruct (ltb (-1) x) eqn:E2.
    + apply ltb_lt in E2. destruct (ltb x 0) eqn:E3.
      * apply ltb_lt in E3. lra.
      * apply ltb_ge in E3. lra.
    + cbn. split; discriminate.
  - cbn. split; discriminate.
Qed.

Lemma truncate_range (x : Q) (lo hi : Z) :
  (lo <= 0 <= hi)%Z -> inject_Z lo <= x <= inject_Z hi ->
  (lo <= truncate x <= hi)%Z.
Proof.
  intros Hz [Hlo Hhi]. unfold truncate. destruct (ltb x 0) eqn:E.
  - apply ltb_lt in E. split.
    + apply Qceiling_resp_le in Hlo. rewrite Qceiling_Z in Hlo. auto.
    + apply Qlt_le_weak, Qceiling_resp_le in E. change (Qceiling 0) with 0%Z in E. lia.
  - apply ltb_ge in E. split.
    + apply Qfloor_resp_le in E. change (Qfloor 0) with 0%Z in E. lia.
    + apply Qfloor_resp_le in Hhi. rewrite Qfloor_Z in Hhi. auto.
Qed.

Lemma audioBufferToLossless_content (buffer : AudioBuffer) (format : ExportFormat) :
  audioBufferToLossless buffer format =
    Some {| bytes := riff_header (Z.of_nat (numberOfChannels buffer))
                                 (sampleRate buffer) (data_length buffer)
                     ++ pcm_payload buffer;
            type := media_type format |}.
Proof.
  set (header := riff_header _ _ _).
  set (total := (length buffer * numberOfChannels buffer * 2 + 44)%nat).
  destruct (emits_andThen 0 _ _ _ _
              (write_header_emits (Z.of_nat total)
                 (Z.of_nat (numberOfChannels buffer)) (sampleRate buffer))
              (write_samples_emits buffer _) [] total
              {| view := repeat 0%Z total; offset := 0 |})
    as (st & Hst & Hv & _).
  - reflexivity.
  - unfold written; cbn. rewrite Nat.sub_0_r. repeat split. lia.
  - rewrite length_app, riff_header_length, pcm_payload_length.
    unfold total. lia.
  - unfold audioBufferToLossless. fold total. rewrite Hst, Hv. cbn [app].
    rewrite length_app, riff_header_length, pcm_payload_length.
    replace (total - _)%nat with 0%nat by (unfold total; lia).
    cbn [repeat]. rewrite app_nil_r.
    unfold header, data_length. do 4 f_equal. unfold total. lia.
Qed.

Lemma audioBufferToLossless_bytes (buffer : AudioBuffer) (format : ExportFormat) :
  exists b, audioBufferToLossless buffer format = Some b.
Proof. rewrite audioBufferToLossless_content. eauto. Qed.

Lemma Math_max_Qmax (x y : Q) : Math_max x y = Qmax x y.
Proof.
  unfold Math_max, Qmax, GenericMinMax.gmax.
  destruct (Qcompare_spec x y) as [H | H | H];
    destruct (ltb x y) eqn:E; auto;
    try (apply ltb_lt in E; lra); apply ltb_ge in E; lra.
Qed.

Lemma Math_min_Qmin (x y : Q) : Math_min x y = Qmin x y.
Proof.
  unfold Math_min, Qmin, GenericMinMax.gmin.
  destruct (Qcompare_spec x y) as [H | H | H];
    destruct (ltb y x) eqn:E; auto;
    try (apply ltb_lt in E; lra); apply ltb_ge in E; lra.
Qed.

Lemma pcm16_scaled (x : Q) : pcm16 x = scaled x.
Proof.
  unfold pcm16, scaled, clamped. rewrite Math_min_Qmin, Math_max_Qmax.
  destruct (Qlt_le_dec _ 0) as [H | H].
  - apply ltb_lt in H. rewrite H. reflexivity.
  - apply ltb_ge in H. rewrite H. reflexivity.
Qed.

Lemma truncate_quot (x : Q) : truncate x = Z.quot (Qnum x) (Zpos (Qden x)).
Proof.
  unfold truncate. destruct x as [n d]. cbn [Qnum Qden].
  destruct (ltb (n # d) 0) eqn:E.
  - apply ltb_lt in E. unfold Qlt in E. cbn in E.
    unfold Qceiling, Qfloor. cbn [Qopp Qnum Qden].
    assert (Hn : (n < 0)%Z) by lia.
    rewrite <- (Z.opp_involutive n) at 2.
    rewrite Z.quot_opp_l by lia. f_equal.
    symmetry. apply Z.quot_div_nonneg; lia.
  - apply ltb_ge in E. unfold Qle in E. cbn in E.
    unfold Qfloor. symmetry. apply Z.quot_div_nonneg; lia.
Qed.

Lemma le_bytes_little_endian16 (z : Z) : le_bytes 2 z = little_endian16 z.
Proof.
  unfold little_endian16. cbn [le_bytes].
  change 255%Z with (Z.ones 8).
  rewrite !Z.land_ones, Z.shiftr_div_pow2 by lia. reflexivity.
Qed.

Lemma quantise_sample16 (x : Q) : truncate (pcm16 x) = sample16 x.
Proof. rewrite truncate_quot, pcm16_scaled. reflexivity. Qed.

Lemma pcm_payload_wave (buffer : AudioBuffer) :
  pcm_payload buffer = wave_payload buffer.
Proof.
  unfold pcm_payload, wave_payload.
  apply flat_map_ext. intros pos. apply flat_map_ext. intros c.
  rewrite quantise_sample16. apply le_bytes_little_endian16.
Qed.

Lemma sample16_range (x : Q) : (-32768 <= sample16 x <= 32767)%Z.
Proof.
  rewrite <- quantise_sample16.
  apply truncate_range; [lia | apply pcm16_range].
Qed.

(** C3.  For every buffer and every export format the encoder returns
    the same bytes: the 44-byte RIFF/WAVE header, with audio format 1 at
    offset 20 and 16 bits per sample at offset 34, then the frames in
    order, each sample of each channel clamped to [-1, 1], scaled by
    32768 if negative and by 32767 otherwise, cut to an integer between
    -32768 and 32767 and stored low byte first.  The format decides the
    media type only. *)
Theorem encoder_ignores_format (buffer : AudioBuffer) (format : ExportFormat) :
  let header := riff_header (Z.of_nat (numberOfChannels buffer))
                            (sampleRate buffer) (data_length buffer) in
  audioBufferToLossless buffer format =
    Some {| bytes := header ++ wave_payload buffer;
            type := media_type format |} /\
  List.length header = 44%nat /\
  firstn 2 (skipn 20 header) = [1; 0]%Z /\
  firstn 2 (skipn 34 header) = [16; 0]%Z /\
  (forall x, (-32768 <= sample16 x <= 32767)%Z) /\
  (forall c pos, truncate (pcm16 (sample c pos)) = sample16 (sample c pos)) /\
  (media_type format = "audio/flac"%string \/
   media_type format = "audio/wav"%string) /\
  forall format',
    option_map bytes (audioBufferToLossless buffer format') =
    option_map bytes (audioBufferToLossless buffer format).
Proof.
  intros header.
  split; [rewrite <- pcm_payload_wave; apply audioBufferToLossless_content|].
  split; [reflexivity|]. split; [reflexivity|]. split; [reflexivity|].
  split; [apply sample16_range|].
  split; [intros c pos; apply quantise_sample16|].
  split; [destruct format; auto|].
  intros format'. rewrite !audioBufferToLossless_content. reflexivity.
Qed.

(** The integers and the bytes of some samples: full scale, beyond it,
    half scale, and values below one step. *)
Example sample16_values :
  map sample16 [0; 1; 2; -1; -2; 1 # 2; -(1 # 2); 1 # 32767; -(1 # 40000)]
  = [0; 32767; 32767; -32768; -32768; 16383; -16384; 1; 0]%Z.
Proof. reflexivity. Qed.

Example little_endian16_values :
  map little_endian16 [0; 1; 32767; -32768; -1; 16383]%Z
  = [[0; 0]; [1; 0]; [255; 127]; [0; 128]; [255; 255]; [255; 63]]%Z.
Proof. reflexivity. Qed.

(** ** detectBpmByPeakClustering *)

Lemma block_max_total (data : list Q) (n i hopSize step : nat) :
  (1 <= step)%nat -> exists mx, block_max data n i hopSize step = Some mx.
Proof.
  intros Hs. unfold block_max.
  edestruct (while_loop_total (fun _ : nat * Q => True)
               (fun s => (hopSize - fst s)%nat))
    as (r & Hr & _); [| | | rewrite Hr; simpl; eauto].
  - intros [j mx] _ Hc. apply andb_true_iff in Hc. destruct Hc as [Hc _].
    apply Nat.ltb_lt in Hc. eexists. split; [reflexivity|]. split; auto.
    cbn [fst]. lia.
  - exact I.
  - cbn [fst]. lia.
Qed.

Lemma find_peaks_total (data : list Q) (sr : Z) (hopSize step : nat) :
  (1 <= hopSize)%nat -> (1 <= step)%nat ->
  exists peaks, find_peaks data sr hopSize step = Some peaks.
Proof.
  intros Hh Hs. unfold find_peaks.
  edestruct (while_loop_total (fun _ : nat * list Q => True)
               (fun s => (List.length data - fst s)%nat))
    as (r & Hr & _); [| | | rewrite Hr; simpl; eauto].
  - intros [i peaks] _ Hc. apply Nat.ltb_lt in Hc.
    destruct (block_max_total data (List.length data) i hopSize step Hs) as [mx Hmx].
    rewrite Hmx. eexists. split; [reflexivity|]. split; auto.
    cbn [fst]. lia.
  - exact I.
  - cbn [fst]. lia.
Qed.

Lemma kept_diffs_bounds (peaks : list Q) :
  Forall (fun d => 2 # 10 < d /\ d < 2) (kept_diffs peaks).
Proof.
  induction peaks as [|a [|b rest] IH]; try (constructor; fail).
  change (kept_diffs (a :: b :: rest)) with
    (if gtb (b - a) (2 # 10) && ltb (b - a) 2
     then (b - a) :: kept_diffs (b :: rest) else kept_diffs (b :: rest)).
  destruct (gtb (b - a) (2 # 10) && ltb (b - a) 2) eqn:E; auto.
  apply andb_true_iff in E. destruct E as [E1 E2].
  apply gtb_gt in E1. apply ltb_lt in E2. constructor; auto.
Qed.

Lemma middle_diff_upper (diffs : list Q) :
  diffs <> [] ->
  In (middle_diff diffs) diffs /\
  lower_median diffs <= middle_diff diffs /\
  (Nat.Odd (List.length diffs) -> middle_diff diffs = lower_median diffs) /\
  (Nat.Even (List.length diffs) ->
     middle_diff diffs = nth (List.length diffs / 2) (sort_num diffs) 0 /\
     lower_median diffs = nth (List.length diffs / 2 - 1) (sort_num diffs) 0).
Proof.
  intros Hne.
  assert (Hn : (0 < List.length diffs)%nat) by (destruct diffs; simpl; [congruence|lia]).
  assert (Hidx : Z.to_nat (Math_floor (len diffs / 2)) = (List.length diffs / 2)%nat).
  { unfold Math_floor, len, ofNat. rewrite floor_half.
    rewrite <- (Nat2Z.id (List.length diffs / 2)). f_equal.
    rewrite Nat2Z.inj_div. reflexivity. }
  unfold middle_diff, lower_median, at_index. rewrite Hidx.
  assert (Hlt : (List.length diffs / 2 < List.length diffs)%nat)
    by (apply Nat.div_lt; lia).
  split; [|split; [|split]].
  - apply sort_num_In, nth_In. rewrite sort_num_length. auto.
  - apply sorted_nth; [apply sort_num_sorted|]. rewrite sort_num_length.
    split; auto. apply Nat.Div0.div_le_mono. lia.
  - intros [k Hk]. f_equal. rewrite Hk.
    replace (2 * k + 1 - 1)%nat with (k * 2)%nat by lia.
    rewrite Nat.div_mul by lia.
    replace (2 * k + 1)%nat with (1 + k * 2)%nat by lia.
    rewrite Nat.div_add by lia. reflexivity.
  - intros [k Hk]. split; auto. f_equal. rewrite Hk.
    replace (2 * k)%nat with (k * 2)%nat by lia. rewrite Nat.div_mul by lia.
    destruct k; [lia|].
    replace (S k * 2 - 1)%nat with (1 + k * 2)%nat by lia.
    rewrite Nat.div_add by lia. simpl. lia.
Qed.

Lemma peak_tempo (data : list Q) (sr : Z) (hopSec : Q) (peaks : list Q) :
  find_peaks data sr (hopSize_of sr hopSec) (step_of data) = Some peaks ->
  (5 <= List.length peaks)%nat ->
  kept_diffs peaks <> [] ->
  detectBpmByPeakClustering data sr hopSec =
    Some (60 / middle_diff (kept_diffs peaks)).
Proof.
  intros Hp H5 Hd. unfold detectBpmByPeakClustering. rewrite Hp.
  cbn [option_map]. unfold tempo_of_peaks.
  replace (List.length peaks <? 5)%nat with false
    by (symmetry; apply Nat.ltb_ge; auto).
  replace (List.length (kept_diffs peaks) =? 0)%nat with false; auto.
  symmetry. apply Nat.eqb_neq. intros E. apply Hd.
  apply length_zero_iff_nil. auto.
Qed.

(** C8, as the code has it.  When a pass records at least five peaks
    and keeps at least one difference, its tempo is 60 over the element
    at index floor(n / 2) of the numerically sorted kept differences,
    all of them inside (0.2, 2.0).  That element is never below the
    lower median; it is the lower median for an odd count, and for an
    even count it is the larger of the two middle values. *)
Theorem peak_tempo_upper_median (data : list Q) (sr : Z) (hopSec : Q)
    (peaks : list Q) :
  find_peaks data sr (hopSize_of sr hopSec) (step_of data) = Some peaks ->
  (5 <= List.length peaks)%nat ->
  kept_diffs peaks <> [] ->
  let diffs := kept_diffs peaks in
  let sorted := sort_num diffs in
  detectBpmByPeakClustering data sr hopSec =
    Some (60 / at_index sorted (Math_floor (len diffs / 2))) /\
  Forall (fun d => 2 # 10 < d /\ d < 2) diffs /\
  Permutation sorted diffs /\ StronglySorted Qle sorted /\
  lower_median diffs <= at_index sorted (Math_floor (len diffs / 2)) /\
  (Nat.Odd (List.length diffs) ->
     at_index sorted (Math_floor (len diffs / 2)) = lower_median diffs) /\
  (Nat.Even (List.length diffs) ->
     at_index sorted (Math_floor (len diffs / 2)) =
       nth (List.length diffs / 2) sorted 0 /\
     lower_median diffs = nth (List.length diffs / 2 - 1) sorted 0).
Proof.
  intros Hp H5 Hd diffs sorted.
  destruct (middle_diff_upper diffs Hd) as (_ & Hle & Hodd & Heven).
  split; [apply peak_tempo; auto|].
  split; [apply kept_diffs_bounds|].
  split; [apply sort_num_perm|].
  split; [apply sort_num_sorted|].
  repeat split; auto; apply Heven; auto.
Qed.

Lemma uneven_clicks_peaks :
  find_peaks uneven_clicks 8000 (hopSize_of 8000 (5 # 100))
             (step_of uneven_clicks) = Some uneven_peaks.
Proof. vm_compute. reflexivity. Qed.

Lemma peak_tempo_upper_median_witness :
  let diffs := kept_diffs uneven_peaks in
  let sorted := sort_num diffs in
  detectBpmByPeakClustering uneven_clicks 8000 (5 # 100) =
    Some (60 / at_index sorted (Math_floor (len diffs / 2))) /\
  Forall (fun d => 2 # 10 < d /\ d < 2) diffs /\
  Permutation sorted diffs /\ StronglySorted Qle sorted /\
  lower_median diffs <= at_index sorted (Math_floor (len diffs / 2)) /\
  (Nat.Odd (List.length diffs) ->
     at_index sorted (Math_floor (len diffs / 2)) = lower_median diffs) /\
  (Nat.Even (List.length diffs) ->
     at_index sorted (Math_floor (len diffs / 2)) =
       nth (List.length diffs / 2) sorted 0 /\
     lower_median diffs = nth (List.length diffs / 2 - 1) sorted 0).
Proof.
  apply (peak_tempo_upper_median uneven_clicks 8000 (5 # 100) uneven_peaks).
  - exact uneven_clicks_peaks.
  - simpl. lia.
  - discriminate.
Defined.

(** With five peaks at 0, 0.25, 0.75, 1 and 1.5 seconds the kept
    differences are 0.25, 0.5, 0.25 and 0.5: the pass of hop 0.05
    reports 120 BPM, where the lower median would give 240. *)
Lemma peak_tempo_not_lower_median :
  find_peaks uneven_clicks 8000 (hopSize_of 8000 (5 # 100))
             (step_of uneven_clicks) = Some uneven_peaks /\
  (5 <= List.length uneven_peaks)%nat /\
  exists tempo,
    detectBpmByPeakClustering uneven_clicks 8000 (5 # 100) = Some tempo /\
    tempo == 120 /\
    60 / lower_median (kept_diffs uneven_peaks) == 240 /\
    ~ tempo == 60 / lower_median (kept_diffs uneven_peaks).
Proof.
  split; [exact uneven_clicks_peaks|]. split; [simpl; lia|].
  eexists. split.
  - apply (peak_tempo uneven_clicks 8000 (5 # 100) uneven_peaks).
    + exact uneven_clicks_peaks.
    + simpl. lia.
    + discriminate.
  - split; [reflexivity|]. split; [reflexivity|].
    intros H. vm_compute in H. discriminate H.
Qed.


(** ** analyzeBpm returns *)

Lemma round1_bounds (x : Q) (lo hi : Z) :
  inject_Z lo <= x <= inject_Z hi -> inject_Z lo <= round1 x <= inject_Z hi.
Proof.
  intros [Hlo Hhi]. unfold round1, Math_round, ofZ.
  assert (H1 : (lo * 10 <= Qfloor (x * 10 + (1 # 2)))%Z).
  { rewrite <- (Qfloor_Z (lo * 10)). apply Qfloor_resp_le.
    rewrite inject_Z_mult. change (inject_Z 10) with 10. lra. }
  assert (H2 : (Qfloor (x * 10 + (1 # 2)) <= hi * 10)%Z).
  { assert (Qfloor (x * 10 + (1 # 2)) < hi * 10 + 1)%Z; [|lia].
    rewrite Zlt_Qlt. eapply Qle_lt_trans; [apply Qfloor_le|].
    rewrite inject_Z_plus, inject_Z_mult.
    change (inject_Z 10) with 10. change (inject_Z 1) with 1. lra. }
  rewrite Zle_Qle in H1, H2. rewrite inject_Z_mult in H1, H2.
  change (inject_Z 10) with 10 in *.
  set (r := inject_Z (Qfloor (x * 10 + (1 # 2)))) in *. qlra.
Qed.

Lemma fast_passes_total (data : list Q) (sr : Z) (hops : list Q) :
  Forall (fun hop => (1 <= hopSize_of sr hop)%nat) hops ->
  exists rs, fast_passes data sr hops = Some rs /\ Forall plausible rs.
Proof.
  induction 1 as [|hop rest Hh _ IH]; simpl.
  - exists []. split; auto.
  - unfold detectBpmByPeakClustering.
    destruct (find_peaks_total data sr (hopSize_of sr hop) (step_of data) Hh)
      as [peaks Hp]; [unfold step_of; lia|].
    rewrite Hp. cbn [option_map].
    destruct IH as (rs & Hrs & Hall). rewrite Hrs.
    eexists. split; [reflexivity|].
    destruct (gtb (tempo_of_peaks peaks) 40 && ltb (tempo_of_peaks peaks) 300)
      eqn:E; auto.
    apply andb_true_iff in E. destruct E as [E1 E2].
    apply gtb_gt in E1. apply ltb_lt in E2. constructor; auto.
    apply (round1_bounds _ 40 300). split; apply Qlt_le_weak; auto.
Qed.

Lemma hopSizes_advance (sr : Z) :
  (34 <= sr)%Z -> Forall (fun hop => (1 <= hopSize_of sr hop)%nat) hopSizes.
Proof.
  intros Hsr. unfold hopSizes, hopSize_of, Math_floor, ofZ.
  repeat constructor; rewrite floor_scale;
    match goal with
    | |- (1 <= Z.to_nat (?a / ?b))%nat =>
      assert (1 <= a / b)%Z by (apply Z.div_le_lower_bound; lia); lia
    end.
Qed.

Lemma raw_passes_total (buffer : AudioBuffer) (mode : DetectionMode) :
  (100 <= sampleRate buffer)%Z ->
  exists rs algos, raw_passes buffer mode = Some (rs, algos) /\
                   Forall plausible rs.
Proof.
  intros Hsr. destruct mode; unfold raw_passes.
  - destruct (fast_passes_total (getChannelData buffer 0) (sampleRate buffer)
                hopSizes) as (rs & Hrs & Hall).
    { apply hopSizes_advance. lia. }
    rewrite Hrs. eauto.
  - unfold detectBpmByAutocorrelation.
    replace (Z.to_nat (Math_floor (ofZ (sampleRate buffer) / 100)) =? 0)%nat
      with false.
    + cbn [andb]. do 2 eexists. split; [reflexivity|].
      match goal with |- context [if ?c then _ else _] => destruct c eqn:E end; auto.
      apply andb_true_iff in E. destruct E as [E1 E2].
      apply gtb_gt in E1. apply ltb_lt in E2.
      constructor; auto. split; lra.
    + symmetry. apply Nat.eqb_neq. unfold Math_floor, ofZ.
      change (inject_Z (sampleRate buffer) / 100)
        with (inject_Z (sampleRate buffer) * (1 # 100)).
      rewrite floor_scale.
      assert (1 <= sampleRate buffer * 1 / 100)%Z
        by (apply Z.div_le_lower_bound; lia).
      lia.
Qed.

Lemma octave_correct_plausible (c : Q) (fuel : nat) :
  plausible c -> (1 <= fuel)%nat ->
  exists r, octave_correct fuel c = Some r.
Proof.
  intros [Hlo Hhi] Hf.
  destruct (halve_loop_spec 1 c) as [r1 (H1 & Hle1 & Hid1 & Hgt1)].
  { simpl. lra. }
  assert (Hr1 : 40 <= r1).
  { destruct (Qlt_le_dec 200 c); [specialize (Hgt1 q); lra|].
    rewrite Hid1; auto. }
  destruct (double_loop_spec 1 r1) as [r2 (H2 & _)]; [lra | simpl; lra |].
  exists r2. unfold octave_correct. rewrite H1 by auto. apply H2. auto.
Qed.

Section Analysis.
Context {M : MathLib}.

Lemma aggregate_total (fuel : nat) (mode : DetectionMode)
    (algos : list string) (rs : list Q) :
  Forall plausible rs -> (1 <= fuel)%nat ->
  exists info, aggregate fuel mode algos rs = Some info.
Proof.
  intros Hall Hf. unfold aggregate. destruct rs as [|x t] eqn:E; eauto.
  rewrite <- E in *.
  assert (Hne : rs <> []) by (rewrite E; discriminate).
  pose proof (median_of_passes rs Hne) as Hin.
  rewrite Forall_forall in Hall. apply Hall in Hin.
  destruct (octave_correct_plausible _ fuel Hin Hf) as [r Hr].
  rewrite Hr. eauto.
Qed.

Lemma analyzeBpm_total (fuel : nat) (buffer : AudioBuffer)
    (mode : DetectionMode) :
  (100 <= sampleRate buffer)%Z -> (1 <= fuel)%nat ->
  exists info, analyzeBpm fuel buffer mode = Some info.
Proof.
  intros Hsr Hf. unfold analyzeBpm.
  destruct (raw_passes_total buffer mode Hsr) as (rs & algos & Hrs & Hall).
  rewrite Hrs. apply aggregate_total; auto.
Qed.

Context {W : WebAudio}.

(** C9, as the code has it.  At a sample rate of at least 100 Hz the
    analysis entrypoint returns; the metadata carries the tempo estimate
    of [analyzeBpm] when the duration is strictly below 600 seconds and
    none from 600 seconds on; the frequency analysis runs either way. *)
Theorem tempo_skipped_from_600 (fuel : nat) (name mime : string)
    (audioBuffer : AudioBuffer) (mode : DetectionMode) :
  (100 <= sampleRate audioBuffer)%Z -> (1 <= fuel)%nat ->
  exists md,
    decodeFile fuel name mime audioBuffer mode = Some md /\
    (duration audioBuffer < 600 ->
       exists info, analyzeBpm fuel audioBuffer mode = Some info /\
                    AudioMetadata.bpmInfo md = Some info) /\
    (600 <= duration audioBuffer -> AudioMetadata.bpmInfo md = None) /\
    AudioMetadata.frequency md = frequency_of name audioBuffer.
Proof.
  intros Hsr Hf. unfold decodeFile.
  destruct (analyzeBpm_total fuel audioBuffer mode Hsr Hf) as [info Hinfo].
  rewrite Hinfo. cbn [option_map].
  destruct (ltb (duration audioBuffer) 600) eqn:E.
  - apply ltb_lt in E. eexists. split; [reflexivity|].
    cbn [AudioMetadata.bpmInfo AudioMetadata.frequency].
    split; [eauto|]. split; [|reflexivity]. intros. lra.
  - apply ltb_ge in E. eexists. split; [reflexivity|].
    cbn [AudioMetadata.bpmInfo AudioMetadata.frequency].
    split; [|split; [|reflexivity]]; auto. intros. lra.
Qed.

Lemma decodeFile_long (fuel : nat) (name mime : string)
    (audioBuffer : AudioBuffer) (mode : DetectionMode) :
  600 <= duration audioBuffer ->
  option_map AudioMetadata.bpmInfo
    (decodeFile fuel name mime audioBuffer mode) = Some None.
Proof.
  intros H. unfold decodeFile.
  replace (ltb (duration audioBuffer) 600) with false
    by (symmetry; apply ltb_ge; auto).
  reflexivity.
Qed.

End Analysis.

Lemma tempo_skipped_from_600_witness :
  exists md,
    @decodeFile approx_math silent_host 1 "rain.wav" "audio/wav"
      one_second fast = Some md /\
    (duration one_second < 600 ->
       exists info, @analyzeBpm approx_math 1 one_second fast = Some info /\
                    AudioMetadata.bpmInfo md = Some info) /\
    (600 <= duration one_second -> AudioMetadata.bpmInfo md = None) /\
    AudioMetadata.frequency md = @frequency_of silent_host "rain.wav" one_second.
Proof.
  apply (@tempo_skipped_from_600 approx_math silent_host 1 "rain.wav"
           "audio/wav" one_second fast).
  - simpl. lia.
  - lia.
Defined.

Lemma ten_minutes_duration : duration ten_minutes == 600.
Proof.
  unfold duration, ofNat, ofZ, ten_minutes; cbn [length sampleRate].
  rewrite !Nat2Z.inj_mul. reflexivity.
Qed.

(** Ten minutes to the sample: no tempo estimate. *)
Lemma tempo_skipped_at_600 :
  wf_buffer ten_minutes /\ duration ten_minutes == 600 /\
  option_map AudioMetadata.bpmInfo
    (@decodeFile approx_math silent_host 1 "bed.wav" "audio/wav"
       ten_minutes fast) = Some None.
Proof.
  split; [|split].
  - split; [reflexivity|]. constructor; [|constructor].
    cbn [length ten_minutes]. apply repeat_length.
  - exact ten_minutes_duration.
  - apply decodeFile_long. rewrite ten_minutes_duration. apply Qle_refl.
Qed.

(** ** Frequency analysis *)

Lemma round1_above (x : Q) (lo : Z) : inject_Z lo <= x -> inject_Z lo <= round1 x.
Proof.
  intros Hlo. unfold round1, Math_round, ofZ.
  assert (H1 : (lo * 10 <= Qfloor (x * 10 + (1 # 2)))%Z).
  { rewrite <- (Qfloor_Z (lo * 10)). apply Qfloor_resp_le.
    rewrite inject_Z_mult. change (inject_Z 10) with 10. lra. }
  rewrite Zle_Qle in H1. rewrite inject_Z_mult in H1.
  change (inject_Z 10) with 10 in *.
  set (r := inject_Z (Qfloor (x * 10 + (1 # 2)))) in *. qlra.
Qed.

Section Frequency.
Context {W : WebAudio}.

Lemma detectDominantFrequency_floor (buffer : AudioBuffer) (f : Q) :
  detectDominantFrequency buffer = Some f ->
  5 <= f /\ exists freq, 5 < freq /\ f = round1 freq.
Proof.
  unfold detectDominantFrequency.
  match goal with |- context [gtb ?x 5] => set (freq := x) end.
  destruct (gtb freq 5) eqn:E; [|discriminate].
  apply gtb_gt in E. intros H. inversion H; subst.
  split; [|eauto]. apply (round1_above freq 5). apply Qlt_le_weak. exact E.
Qed.

(** C5, as the code has it.  A frequency comes either from the file
    name, and is then the number written there, whatever its size as
    long as it is not zero; or, when the name has no hint or a hint of
    zero, from the spectrum, and is then the rounding to one decimal of
    a bin frequency strictly above 5, hence at least 5. *)
Theorem frequency_floor (name : string) (buffer : AudioBuffer) (f : Q) :
  frequency_of name buffer = Some f ->
  (extractFrequency name = Some f /\ ~ f == 0) \/
  ((extractFrequency name = None \/ exists h, extractFrequency name = Some h /\ h == 0) /\
   detectDominantFrequency buffer = Some f /\
   5 <= f /\ exists freq, 5 < freq /\ f = round1 freq).
Proof.
  unfold frequency_of, orElse.
  destruct (extractFrequency name) as [h|] eqn:Eh.
  - unfold truthy. destruct (eqb h 0) eqn:E0; cbn [negb].
    + apply eqb_eq in E0. intros Hd. right.
      split; [right; eauto|]. split; auto.
      apply (detectDominantFrequency_floor buffer); auto.
    + apply eqb_neq in E0. intros H. inversion H; subst. left. auto.
  - intros Hd. right. split; auto. split; auto.
    apply (detectDominantFrequency_floor buffer); auto.
Qed.

End Frequency.

Lemma frequency_floor_witness :
  (extractFrequency "delta_3hz.wav" = Some 3 /\ ~ 3 == 0) \/
  ((extractFrequency "delta_3hz.wav" = None \/
    exists h, extractFrequency "delta_3hz.wav" = Some h /\ h == 0) /\
   @detectDominantFrequency silent_host one_second = Some 3 /\
   5 <= 3 /\ exists freq, 5 < freq /\ 3 = round1 freq).
Proof.
  apply (@frequency_floor silent_host "delta_3hz.wav" one_second 3).
  unfold frequency_of. 
  replace (extractFrequency "delta_3hz.wav") with (Some 3)
    by (vm_compute; reflexivity).
  reflexivity.
Defined.

(** A file called "delta_3hz.wav" is given the frequency 3. *)
Lemma frequency_hint_below_floor :
  exists f, @frequency_of silent_host "delta_3hz.wav" one_second = Some f /\
            f == 3 /\ ~ 5 < f.
Proof.
  exists 3. split.
  - unfold frequency_of.
    replace (extractFrequency "delta_3hz.wav") with (Some 3)
      by (vm_compute; reflexivity).
    reflexivity.
  - split; [reflexivity|]. intros H. discriminate H.
Qed.

(** At a sample rate of 10300 the first bin lies at 5.03 Hz, above the
    floor, and is reported as 5. *)
Example spectral_result_can_be_5 :
  exists f, @detectDominantFrequency first_bin_host
              {| sampleRate := 10300; length := 4; channels := [[0; 1; 0; -1]] |}
            = Some f /\ f == 5.
Proof. eexists. split; [vm_compute; reflexivity | reflexivity]. Qed.

(** ** timeStretch *)

(** C6.  For a rate within 0.01 of 1, and for rate 1 in particular,
    the time-stretcher returns the very buffer it was given. *)
Theorem timeStretch_identity {M : MathLib} (buffer : AudioBuffer) (rate : Q) :
  Qabs (rate - 1) < 1 # 100 ->
  timeStretch buffer rate = Some buffer /\ timeStretch buffer 1 = Some buffer.
Proof.
  intros H. unfold timeStretch, Math_abs.
  replace (ltb (Qabs (rate - 1)) (1 # 100)) with true
    by (symmetry; apply ltb_lt; auto).
  auto.
Qed.

Lemma timeStretch_identity_witness :
  @timeStretch approx_math one_second (1005 # 1000) = Some one_second /\
  @timeStretch approx_math one_second 1 = Some one_second.
Proof.
  apply (@timeStretch_identity approx_math one_second (1005 # 1000)).
  reflexivity.
Defined.

Section Stretch.
Context {M : MathLib}.




End Stretch.

(** ** process *)

Lemma isSome_inv {A : Type} (x : option A) : isSome x = true -> exists a, x = Some a.
Proof. destruct x; [eauto | discriminate]. Qed.

Section Graph.
Context {M : MathLib}.

(** With a crossfade shorter than the foundation and shorter than the
    stretched loop segment both schedulers return, and the graph is
    built, as soon as the stretch and the boundaries are there. *)
Lemma mixdown_graph_built (f m : AudioMetadata.t) (o : ProcessingOptions.t)
    (musicBuffer : AudioBuffer) (bnd : LoopBoundaries) :
  let cf := ProcessingOptions.crossfadeDuration o in
  let rate := stretch_rate m o in
  let stretch := gtb (Math_abs (rate - 1)) (1 # 100) in
  (if stretch then timeStretch (AudioMetadata.buffer m) rate
   else Some (AudioMetadata.buffer m)) = Some musicBuffer ->
  original_bounds m o = Some bnd ->
  cf < duration (AudioMetadata.buffer f) ->
  cf < (outroStart bnd / rate - introEnd bnd / rate) / 1 ->
  exists n, forall fuel, (n <= fuel)%nat ->
    exists ctx, mixdown_graph fuel f m o = Some (ctx, stretch).
Proof.
  intros cf rate stretch Hs Hb Hf Hm.
  set (tDur := ProcessingOptions.targetDurationMinutes o * 60).
  destruct (placement_first (AudioMetadata.buffer f) tDur cf Hf)
    as (n1 & Hend & Hbefore).
  destruct (renderMusicTrack_returns musicBuffer tDur
              (Math_pow 10 (ProcessingOptions.musicVolumeDb o / 20))
              {| introEnd := introEnd bnd / rate;
                 outroStart := outroStart bnd / rate;
                 detected := detected bnd |} cf 1 Hm) as [n2 Hn2].
  exists (Nat.max n1 n2). intros fuel Hfuel.
  unfold mixdown_graph. fold tDur. fold cf. fold rate. fold stretch.
  rewrite Hs. unfold renderLoopingTrack.
  rewrite (looping_run (AudioMetadata.buffer f) tDur _ cf n1 0%nat []);
    auto; [|lia].
  cbn [option_map snd]. rewrite Hb.
  destruct (Hn2 fuel ltac:(lia)) as [voices Hv]. rewrite Hv. eauto.
Qed.

End Graph.

Section Process.
Context {M : MathLib} {W : WebAudio}.

(** Once the graph is built nothing stands between it and the output. *)
Lemma process_after_graph (fuel : nat) (f m : AudioMetadata.t)
    (o : ProcessingOptions.t) (ctx : OfflineGraph) (stretched : bool) :
  mixdown_graph fuel f m o = Some (ctx, stretched) ->
  let rendered := startRendering ctx in
  process fuel f m o =
    Some {| blob :=
              {| bytes := riff_header (Z.of_nat (numberOfChannels rendered))
                                      (sampleRate rendered)
                                      (data_length rendered)
                          ++ pcm_payload rendered;
                 type := media_type (ProcessingOptions.exportFormat o) |};
            progress := milestones stretched |}.
Proof.
  intros Hg rendered. unfold process. rewrite Hg.
  fold rendered. rewrite audioBufferToLossless_content. reflexivity.
Qed.

End Process.

Lemma long_crossfade_graph :
  isSome (@mixdown_graph approx_math 2 focus_track music_track long_crossfade)
  = true.
Proof. vm_compute. reflexivity. Qed.




(** ** The engine at work *)

Example steady_clicks_fast :
  option_map (fun i => (Qred (raw i), Qred (corrected i), confidence i,
                        map Qred (candidates i)))
             (@analyzeBpm approx_math 1 steady_clicks fast)
  = Some (120, 120, medium, [60; 180]).
Proof. vm_compute. reflexivity. Qed.

Example steady_clicks_accurate :
  option_map (fun i => (Qred (corrected i), confidence i, algorithmsUsed i))
             (@analyzeBpm approx_math 1 steady_clicks accurate)
  = Some (120, high, ["Full-Track Autocorrelation"%string]).
Proof. vm_compute. reflexivity. Qed.

Example hinted_file :
  option_map (fun md => (AudioMetadata.format md,
                         option_map Qred (AudioMetadata.frequency md),
                         option_map (map Qred) (AudioMetadata.divisorBpms md)))
             (@decodeFile approx_math silent_host 1 "theta 7_83 Hz.mp3"
                "audio/mpeg" steady_clicks fast)
  = Some ("MPEG"%string, Some (783 # 100),
          Some [783 # 10; 587 # 10; 47; 196 # 5]).
Proof. vm_compute. reflexivity. Qed.

Example two_frames_encoded :
  audioBufferToLossless two_frames flac_lossless =
  Some {| bytes :=
            [82; 73; 70; 70; 44; 0; 0; 0; 87; 65; 86; 69;
             102; 109; 116; 32; 16; 0; 0; 0; 1; 0; 2; 0;
             64; 31; 0; 0; 0; 125; 0; 0; 4; 0; 16; 0;
             100; 97; 116; 97; 8; 0; 0; 0;
             255; 63; 255; 127; 0; 128; 86; 213]%Z;
          type := "audio/flac" |}.
Proof. vm_compute. reflexivity. Qed.

(** ** The reported tempo *)

Lemma halve_loop_result (fuel : nat) : forall c r,
  halve_loop fuel c = Some r ->
  r <= 200 /\ (c <= 200 -> r = c) /\ (200 < c -> 100 < r).
Proof.
  induction fuel as [|fuel IH]; intros c r; simpl;
    destruct (gtb c 200) eqn:E; try discriminate.
  - intros [= <-]. apply gtb_le in E. repeat split; auto; lra.
  - apply gtb_gt in E. intros Hr. apply IH in Hr.
    destruct Hr as (Hle & Hid & Hgt). repeat split; auto; try lra.
    intros _. destruct (Qlt_le_dec 200 (c / 2)); auto.
    rewrite Hid by auto. qlra.
  - intros [= <-]. apply gtb_le in E. repeat split; auto; lra.
Qed.

Lemma double_loop_result (fuel : nat) : forall c r,
  double_loop fuel c = Some r ->
  60 <= r /\ (60 <= c -> r = c) /\ (0 < c -> c < 60 -> r < 120).
Proof.
  induction fuel as [|fuel IH]; intros c r; simpl;
    destruct (ltb c 60) eqn:E; try discriminate.
  - intros [= <-]. apply ltb_ge in E. repeat split; auto; lra.
  - apply ltb_lt in E. intros Hr. apply IH in Hr.
    destruct Hr as (Hle & Hid & Hgt). repeat split; auto; try lra.
    intros Hpos _. destruct (Qlt_le_dec (c * 2) 60).
    + apply Hgt; lra.
    + rewrite Hid by auto. lra.
  - intros [= <-]. apply ltb_ge in E. repeat split; auto; lra.
Qed.

Lemma octave_correct_range (fuel : nat) (c r : Q) :
  0 < c -> octave_correct fuel c = Some r -> 60 <= r <= 200.
Proof.
  intros Hc. unfold octave_correct.
  destruct (halve_loop fuel c) as [r1|] eqn:E1; [|discriminate].
  apply halve_loop_result in E1. destruct E1 as (Hle & Hid & Hgt).
  intros E2. apply double_loop_result in E2. destruct E2 as (Hge & Hid2 & Hlt).
  assert (Hr1 : 0 < r1).
  { destruct (Qlt_le_dec 200 c) as [q|q]; [specialize (Hgt q); lra|].
    rewrite Hid; auto. }
  split; auto. destruct (Qlt_le_dec r1 60) as [q|q].
  - specialize (Hlt Hr1 q). lra.
  - rewrite Hid2; auto.
Qed.

Lemma fast_passes_plausible (data : list Q) (sr : Z) (hops : list Q) :
  forall rs, fast_passes data sr hops = Some rs -> Forall plausible rs.
Proof.
  induction hops as [|hop rest IH]; simpl; intros rs.
  - intros [= <-]. constructor.
  - destruct (detectBpmByPeakClustering data sr hop) as [tempo|]; [|discriminate].
    destruct (fast_passes data sr rest) as [more|]; [|discriminate].
    specialize (IH more eq_refl). intros [= <-].
    destruct (gtb tempo 40 && ltb tempo 300) eqn:E; auto.
    apply andb_true_iff in E. destruct E as [E1 E2].
    apply gtb_gt in E1. apply ltb_lt in E2. constructor; auto.
    apply (round1_bounds _ 40 300). split; apply Qlt_le_weak; auto.
Qed.

Lemma raw_passes_plausible (buffer : AudioBuffer) (mode : DetectionMode)
    (rs : list Q) (algos : list string) :
  raw_passes buffer mode = Some (rs, algos) -> Forall plausible rs.
Proof.
  destruct mode; unfold raw_passes.
  - destruct (fast_passes _ _ _) as [rs'|] eqn:E; [|discriminate].
    intros [= <- _]. eapply fast_passes_plausible; eauto.
  - destruct (detectBpmByAutocorrelation buffer) as [bpm|]; [|discriminate].
    intros [= <- _].
    destruct (gtb bpm 40 && ltb bpm 250) eqn:E; auto.
    apply andb_true_iff in E. destruct E as [E1 E2].
    apply gtb_gt in E1. apply ltb_lt in E2.
    constructor; auto. split; lra.
Qed.

(** What [aggregate] returns on a non-empty list of passes. *)
Lemma aggregate_inv {M : MathLib} (fuel : nat) (mode : DetectionMode)
    (algos : list string) (rs : list Q) (info : BpmInfo) :
  rs <> [] -> aggregate fuel mode algos rs = Some info ->
  let filtered := tukey_filter (sort_num rs) in
  exists c, octave_correct fuel (medianBpm_of filtered) = Some c /\
            raw info = round1 (medianBpm_of filtered) /\
            corrected info = round1 c /\
            candidates info = dedupe (alternates (round1 c)) /\
            allPasses info = sort_num rs /\
            filteredPasses info = filtered.
Proof.
  intros Hne. unfold aggregate. destruct rs as [|x t]; [congruence|].
  destruct (octave_correct _ _) as [c|]; [|discriminate].
  intros [= <-]. exists c. repeat split; reflexivity.
Qed.

Lemma analyzeBpm_inv {M : MathLib} (fuel : nat) (buffer : AudioBuffer)
    (mode : DetectionMode) (info : BpmInfo) :
  analyzeBpm fuel buffer mode = Some info ->
  exists rs algos,
    raw_passes buffer mode = Some (rs, algos) /\ Forall plausible rs /\
    aggregate fuel mode algos rs = Some info.
Proof.
  unfold analyzeBpm. destruct (raw_passes buffer mode) as [[rs algos]|] eqn:E;
    [|discriminate].
  intros H. exists rs, algos. repeat split; auto.
  eapply raw_passes_plausible; eauto.
Qed.

Lemma plausible_median (rs : list Q) :
  rs <> [] -> Forall plausible rs ->
  plausible (medianBpm_of (tukey_filter (sort_num rs))).
Proof.
  intros Hne Hall. rewrite Forall_forall in Hall.
  apply Hall, median_of_passes; auto.
Qed.

Lemma analyzeBpm_corrected_range {M : MathLib} (fuel : nat)
    (buffer : AudioBuffer) (mode : DetectionMode) (info : BpmInfo) :
  analyzeBpm fuel buffer mode = Some info -> 60 <= corrected info <= 200.
Proof.
  intros H. apply analyzeBpm_inv in H. destruct H as (rs & algos & _ & Hall & H).
  destruct rs as [|x t] eqn:E.
  - simpl in H. injection H as <-. simpl. split; lra.
  - rewrite <- E in *. assert (Hne : rs <> []) by (rewrite E; discriminate).
    pose proof (plausible_median rs Hne Hall) as [Hlo Hhi].
    destruct (aggregate_inv _ _ _ _ _ Hne H) as (c & Hc & _ & Hcor & _).
    apply octave_correct_range in Hc; [|lra].
    rewrite Hcor. apply (round1_bounds _ 60 200). exact Hc.
Qed.

(** X1.  Whatever the signal and the mode, the tempo that [analyzeBpm]
    reports as corrected lies between 60 and 200 BPM and the raw one
    between 40 and 300 BPM; this includes the fallback of 120. *)
Theorem analyzeBpm_bounds {M : MathLib} (fuel : nat) (buffer : AudioBuffer)
    (mode : DetectionMode) (info : BpmInfo) :
  analyzeBpm fuel buffer mode = Some info ->
  60 <= corrected info <= 200 /\ 40 <= raw info <= 300.
Proof.
  intros H. split; [exact (analyzeBpm_corrected_range _ _ _ _ H)|].
  apply analyzeBpm_inv in H. destruct H as (rs & algos & _ & Hall & H).
  destruct rs as [|x t] eqn:E.
  - simpl in H. injection H as <-. simpl. split; lra.
  - rewrite <- E in *. assert (Hne : rs <> []) by (rewrite E; discriminate).
    destruct (aggregate_inv _ _ _ _ _ Hne H) as (c & _ & Hraw & _).
    rewrite Hraw. apply (round1_bounds _ 40 300).
    apply plausible_median; auto.
Qed.

Lemma steady_clicks_returns :
  exists info, @analyzeBpm approx_math 1 steady_clicks fast = Some info.
Proof.
  apply (analyzeBpm_total (M := approx_math)); [vm_compute; discriminate | lia].
Qed.

Lemma analyzeBpm_bounds_witness :
  match @analyzeBpm approx_math 1 steady_clicks fast with
  | Some info => 60 <= corrected info <= 200 /\ 40 <= raw info <= 300
  | None => False
  end.
Proof.
  destruct (@analyzeBpm approx_math 1 steady_clicks fast) as [info|] eqn:E.
  - exact (analyzeBpm_bounds 1 steady_clicks fast info E).
  - destruct steady_clicks_returns as [info H]. congruence.
Defined.

Lemma dedupe_In (l : list Q) (x : Q) : In x (dedupe l) -> In x l.
Proof.
  revert x. induction l as [|y t IH]; simpl; auto.
  intros x [E | Hin]; auto. apply filter_In in Hin. right. apply IH, Hin.
Qed.

Lemma dedupe_length (l : list Q) : (List.length (dedupe l) <= List.length l)%nat.
Proof.
  induction l as [|y t IH]; simpl; auto.
  pose proof (filter_length_le (fun z => negb (eqb z y)) (dedupe t)). lia.
Qed.

Lemma NoDupA_filter_num (f : Q -> bool) (l : list Q) :
  NoDupA Qeq l -> NoDupA Qeq (filter f l).
Proof.
  induction 1 as [|x t Hx Ht IH]; simpl; [constructor|].
  destruct (f x); auto. constructor; auto.
  intros Hin. apply Hx. apply InA_alt in Hin. destruct Hin as (y & Hy & Hin).
  apply InA_alt. exists y. split; auto. apply filter_In in Hin. tauto.
Qed.

Lemma dedupe_NoDupA (l : list Q) : NoDupA Qeq (dedupe l).
Proof.
  induction l as [|y t IH]; simpl; constructor.
  - intros Hin. apply InA_alt in Hin. destruct Hin as (z & Hz & Hin).
    apply filter_In in Hin. destruct Hin as [_ Hin].
    apply negb_true_iff, eqb_neq in Hin. apply Hin. symmetry. exact Hz.
  - apply NoDupA_filter_num. exact IH.
Qed.

Lemma round1_near (x : Q) : Qabs (round1 x - x) <= 1 # 20.
Proof.
  unfold round1, Math_round, ofZ.
  pose proof (Qfloor_le (x * 10 + (1 # 2))) as Hlo.
  pose proof (Qlt_floor (x * 10 + (1 # 2))) as Hhi.
  rewrite inject_Z_plus in Hhi. change (inject_Z 1) with 1 in Hhi.
  set (F := inject_Z (Qfloor (x * 10 + (1 # 2)))) in *.
  apply Qabs_Qle_condition. split.
  - apply Qle_minus_iff. unfold Qdiv. change (/ 10) with (1 # 10).
    setoid_replace (F * (1 # 10) - x + - - (1 # 20))
      with ((F + 1 - (x * 10 + (1 # 2))) * (1 # 10)) by ring.
    apply Qmult_le_0_compat; [lra | discriminate].
  - apply Qle_minus_iff. unfold Qdiv. change (/ 10) with (1 # 10).
    setoid_replace ((1 # 20) + - (F * (1 # 10) - x))
      with ((x * 10 + (1 # 2) - F) * (1 # 10)) by ring.
    apply Qmult_le_0_compat; [lra | discriminate].
Qed.

Lemma Qabs_below (x y : Q) : y <= x \/ y <= - x -> y <= Qabs x.
Proof.
  intros [H | H].
  - eapply Qle_trans; [exact H | apply Qle_Qabs].
  - eapply Qle_trans; [exact H|]. rewrite <- Qabs_opp. apply Qle_Qabs.
Qed.

Lemma filter_all {A : Type} (f : A -> bool) (l : list A) :
  Forall (fun a => f a = true) l -> filter f l = l.
Proof.
  induction 1 as [|a t Ha Ht IH]; simpl; [reflexivity|].
  rewrite Ha, IH. reflexivity.
Qed.

Lemma filter_sorted {A : Type} (R : A -> A -> Prop) (f : A -> bool) (l : list A) :
  StronglySorted R l -> StronglySorted R (filter f l).
Proof.
  induction 1 as [|a t Ht IH Ha]; simpl; [constructor|].
  destruct (f a); auto. constructor; auto.
  rewrite Forall_forall in *. intros y Hy. apply Ha.
  apply filter_In in Hy. tauto.
Qed.

(** A [Set] of tempi that are apart keeps them all. *)
Lemma dedupe_apart (l : list Q) : StronglySorted apart l -> dedupe l = l.
Proof.
  induction 1 as [|a t Ht IH Ha]; simpl; [reflexivity|].
  rewrite IH. f_equal. apply filter_all.
  rewrite Forall_forall in *. intros y Hy.
  apply negb_true_iff, eqb_neq. intros E.
  pose proof (Ha y Hy) as Hg. unfold apart in Hg. rewrite E in Hg. lra.
Qed.

Section Alternates.
Variable fc : Q.
Hypothesis corrected_range : 60 <= fc <= 200.

Let half := round1 (fc / 2).
Let sesqui := round1 (fc * (15 # 10)).
Let double := round1 (fc * 2).

Let kept (c : Q) : bool :=
  geb c 40 && leb c 220 && gtb (Math_abs (c - fc)) 2.

Lemma half_near : Qabs (half - (1 # 2) * fc) <= 1 # 20.
Proof.
  pose proof (round1_near (fc / 2)) as H. fold half in H.
  setoid_replace ((1 # 2) * fc) with (fc / 2) by (unfold Qdiv; change (/ 2) with (1 # 2); ring).
  exact H.
Qed.

Lemma sesqui_near : Qabs (sesqui - (3 # 2) * fc) <= 1 # 20.
Proof.
  pose proof (round1_near (fc * (15 # 10))) as H. fold sesqui in H.
  setoid_replace ((3 # 2) * fc) with (fc * (15 # 10)) by ring.
  exact H.
Qed.

Lemma double_near : Qabs (double - 2 * fc) <= 1 # 20.
Proof.
  pose proof (round1_near (fc * 2)) as H. fold double in H.
  setoid_replace (2 * fc) with (fc * 2) by ring.
  exact H.
Qed.

Lemma alternates_apart : StronglySorted apart [half; sesqui; double].
Proof.
  pose proof half_near as H1. pose proof sesqui_near as H2.
  pose proof double_near as H3.
  apply Qabs_Qle_condition in H1, H2, H3.
  repeat constructor; unfold apart; lra.
Qed.

Lemma candidates_filter :
  dedupe (alternates fc) = filter kept [half; sesqui; double].
Proof.
  unfold alternates. fold half sesqui double. apply dedupe_apart.
  apply filter_sorted, alternates_apart.
Qed.

Lemma kept_distance (c : Q) :
  In c [half; sesqui; double] -> 29 <= Qabs (c - fc).
Proof.
  pose proof half_near as H1. pose proof sesqui_near as H2.
  pose proof double_near as H3.
  apply Qabs_Qle_condition in H1, H2, H3.
  intros [<- | [<- | [<- | []]]]; apply Qabs_below; lra.
Qed.

Lemma kept_as (c : Q) :
  In c [half; sesqui; double] ->
  kept c = geb c 40 && leb c 220.
Proof.
  intros Hc. apply kept_distance in Hc. unfold kept.
  replace (gtb (Math_abs (c - fc)) 2) with true; [apply andb_true_r|].
  symmetry. apply gtb_gt. unfold Math_abs. lra.
Qed.

Lemma half_kept : 80 <= fc -> kept half = true.
Proof.
  intros H. rewrite kept_as by (simpl; auto).
  pose proof half_near as H1. apply Qabs_Qle_condition in H1.
  apply andb_true_iff. split; [apply geb_ge | apply leb_le; lra].
  apply (round1_above _ 40). unfold Qdiv. change (/ 2) with (1 # 2).
  change (inject_Z 40) with 40. lra.
Qed.

Lemma half_dropped : fc <= 79 -> kept half = false.
Proof.
  intros H. rewrite kept_as by (simpl; auto).
  pose proof half_near as H1. apply Qabs_Qle_condition in H1.
  apply andb_false_iff. left. apply not_true_is_false. intros E.
  apply geb_ge in E. lra.
Qed.

Lemma sesqui_kept : fc <= 146 -> kept sesqui = true.
Proof.
  intros H. rewrite kept_as by (simpl; auto).
  pose proof sesqui_near as H1. apply Qabs_Qle_condition in H1.
  apply andb_true_iff. split; [apply geb_ge | apply leb_le]; lra.
Qed.

Lemma sesqui_dropped : 147 <= fc -> kept sesqui = false.
Proof.
  intros H. rewrite kept_as by (simpl; auto).
  pose proof sesqui_near as H1. apply Qabs_Qle_condition in H1.
  apply andb_false_iff. right. apply not_true_is_false. intros E.
  apply leb_le in E. lra.
Qed.

Lemma double_kept : fc <= 110 -> kept double = true.
Proof.
  intros H. rewrite kept_as by (simpl; auto).
  pose proof double_near as H1. apply Qabs_Qle_condition in H1.
  apply andb_true_iff. split; [apply geb_ge; lra | apply leb_le].
  assert (Hd : inject_Z 0 <= round1 (fc * 2) <= inject_Z 220).
  { apply round1_bounds. change (inject_Z 0) with 0.
    change (inject_Z 220) with 220. lra. }
  apply Hd.
Qed.

Lemma double_dropped : 111 <= fc -> kept double = false.
Proof.
  intros H. rewrite kept_as by (simpl; auto).
  pose proof double_near as H1. apply Qabs_Qle_condition in H1.
  apply andb_false_iff. right. apply not_true_is_false. intros E.
  apply leb_le in E. lra.
Qed.

Lemma alternates_shape :
  let cs := dedupe (alternates fc) in
  StronglySorted apart cs /\
  Forall (fun c =>
            (multiple_of (1 # 2) fc c \/ multiple_of (3 # 2) fc c \/
             multiple_of 2 fc c) /\
            40 <= c <= 220 /\ 29 <= Qabs (c - fc)) cs /\
  (80 <= fc -> exists c, In c cs /\ multiple_of (1 # 2) fc c) /\
  (fc <= 146 -> exists c, In c cs /\ multiple_of (3 # 2) fc c) /\
  (fc <= 110 -> exists c, In c cs /\ multiple_of 2 fc c) /\
  (80 <= fc <= 110 -> List.length cs = 3%nat) /\
  (fc <= 79 \/ 111 <= fc <= 146 -> List.length cs = 2%nat) /\
  (147 <= fc -> List.length cs = 1%nat).
Proof.
  intros cs. unfold cs. rewrite candidates_filter.
  pose proof half_near as H1. pose proof sesqui_near as H2.
  pose proof double_near as H3.
  assert (N1 : multiple_of (1 # 2) fc half).
  { unfold multiple_of. eapply Qle_trans; [exact H1 | discriminate]. }
  assert (N2 : multiple_of (3 # 2) fc sesqui).
  { unfold multiple_of. eapply Qle_trans; [exact H2 | discriminate]. }
  assert (N3 : multiple_of 2 fc double).
  { unfold multiple_of. eapply Qle_trans; [exact H3 | discriminate]. }
  split; [apply filter_sorted, alternates_apart|].
  split.
  { apply Forall_forall. intros c Hc. apply filter_In in Hc.
    destruct Hc as [Hin Hk]. rewrite kept_as in Hk by exact Hin.
    apply andb_true_iff in Hk. destruct Hk as [Hlo Hhi].
    apply geb_ge in Hlo. apply leb_le in Hhi.
    split; [|split; [split; auto | apply kept_distance, Hin]].
    destruct Hin as [<- | [<- | [<- | []]]]; auto. }
  split.
  { intros H. exists half. split; auto.
    apply filter_In. split; [simpl; auto | apply half_kept, H]. }
  split.
  { intros H. exists sesqui. split; auto.
    apply filter_In. split; [simpl; auto | apply sesqui_kept, H]. }
  split.
  { intros H. exists double. split; auto.
    apply filter_In. split; [simpl; auto | apply double_kept, H]. }
  split.
  { intros [Ha Hb]. cbn [filter].
    rewrite half_kept, sesqui_kept, double_kept by lra. reflexivity. }
  split.
  { intros [H | [Ha Hb]]; cbn [filter].
    - rewrite half_dropped, sesqui_kept, double_kept by lra. reflexivity.
    - rewrite half_kept, sesqui_kept, double_dropped by lra. reflexivity. }
  intros H. cbn [filter].
  rewrite half_kept, sesqui_dropped, double_dropped by lra. reflexivity.
Qed.

End Alternates.

(** X2.  The alternative tempi offered next to the corrected one are
    half, one and a half times and twice the corrected tempo, each up to
    the rounding to one decimal, as far as they lie between 40 and 220
    BPM.  Because the corrected tempo lies between 60 and 200 they are
    listed in ascending order at least 29 BPM apart from each other and
    from the corrected tempo, so that neither the distance test of line
    139 nor the [Set] of line 144 ever removes one.  When a pass was
    admitted, the half is listed from 80 BPM on and not up to 79, the
    one and a half up to 146 and not from 147 on, the double up to 110
    and not from 111 on: there are three alternatives between 80 and
    110, two up to 79 and between 111 and 146, one from 147 on. *)
Theorem analyzeBpm_candidates {M : MathLib} (fuel : nat) (buffer : AudioBuffer)
    (mode : DetectionMode) (info : BpmInfo) :
  analyzeBpm fuel buffer mode = Some info ->
  (List.length (candidates info) <= 3)%nat /\
  NoDupA Qeq (candidates info) /\
  StronglySorted apart (candidates info) /\
  Forall (fun c =>
            (multiple_of (1 # 2) (corrected info) c \/
             multiple_of (3 # 2) (corrected info) c \/
             multiple_of 2 (corrected info) c) /\
            40 <= c <= 220 /\ 29 <= Qabs (c - corrected info))
         (candidates info) /\
  (allPasses info <> [] ->
   (80 <= corrected info ->
      exists c, In c (candidates info) /\ multiple_of (1 # 2) (corrected info) c) /\
   (corrected info <= 146 ->
      exists c, In c (candidates info) /\ multiple_of (3 # 2) (corrected info) c) /\
   (corrected info <= 110 ->
      exists c, In c (candidates info) /\ multiple_of 2 (corrected info) c) /\
   (80 <= corrected info <= 110 -> List.length (candidates info) = 3%nat) /\
   (corrected info <= 79 \/ 111 <= corrected info <= 146 ->
      List.length (candidates info) = 2%nat) /\
   (147 <= corrected info -> List.length (candidates info) = 1%nat)).
Proof.
  intros H. pose proof (analyzeBpm_corrected_range _ _ _ _ H) as Hrange.
  apply analyzeBpm_inv in H. destruct H as (rs & algos & _ & _ & H).
  destruct rs as [|x t] eqn:E.
  - simpl in H. injection H as <-. cbn [candidates allPasses fallback].
    split; [simpl; lia|]. split; [constructor|]. split; [constructor|].
    split; [constructor|]. intros Hne. congruence.
  - rewrite <- E in *. assert (Hne : rs <> []) by (rewrite E; discriminate).
    destruct (aggregate_inv _ _ _ _ _ Hne H) as (c & _ & _ & Hcor & Hcand & _).
    rewrite Hcor in Hrange. rewrite Hcand, Hcor.
    destruct (alternates_shape (round1 c) Hrange) as (Hs & Hall & Hrest).
    split; [|split; [apply dedupe_NoDupA|split; [exact Hs|split; [exact Hall|]]]].
    + eapply Nat.le_trans; [apply dedupe_length|].
      eapply Nat.le_trans; [apply filter_length_le|]. simpl. lia.
    + intros _. exact Hrest.
Qed.

Lemma analyzeBpm_candidates_witness :
  match @analyzeBpm approx_math 1 steady_clicks fast with
  | Some info =>
    (List.length (candidates info) <= 3)%nat /\
    NoDupA Qeq (candidates info) /\
    StronglySorted apart (candidates info) /\
    Forall (fun c =>
              (multiple_of (1 # 2) (corrected info) c \/
               multiple_of (3 # 2) (corrected info) c \/
               multiple_of 2 (corrected info) c) /\
              40 <= c <= 220 /\ 29 <= Qabs (c - corrected info))
           (candidates info) /\
    (allPasses info <> [] ->
     (80 <= corrected info ->
        exists c, In c (candidates info) /\ multiple_of (1 # 2) (corrected info) c) /\
     (corrected info <= 146 ->
        exists c, In c (candidates info) /\ multiple_of (3 # 2) (corrected info) c) /\
     (corrected info <= 110 ->
        exists c, In c (candidates info) /\ multiple_of 2 (corrected info) c) /\
     (80 <= corrected info <= 110 -> List.length (candidates info) = 3%nat) /\
     (corrected info <= 79 \/ 111 <= corrected info <= 146 ->
        List.length (candidates info) = 2%nat) /\
     (147 <= corrected info -> List.length (candidates info) = 1%nat))
  | None => False
  end.
Proof.
  destruct (@analyzeBpm approx_math 1 steady_clicks fast) as [info|] eqn:E.
  - exact (analyzeBpm_candidates 1 steady_clicks fast info E).
  - destruct steady_clicks_returns as [info H]. congruence.
Defined.

(** X3.  The passes that [analyzeBpm] reports are sorted and each lies
    between 40 and 300 BPM; the outlier filter only removes passes and
    never all of them: unless no pass was admitted, in which case the
    result is the fallback, the raw tempo is the rounding of one of the
    passes that survived the filter. *)
Theorem analyzeBpm_passes {M : MathLib} (fuel : nat) (buffer : AudioBuffer)
    (mode : DetectionMode) (info : BpmInfo) :
  analyzeBpm fuel buffer mode = Some info ->
  StronglySorted Qle (allPasses info) /\
  Forall plausible (allPasses info) /\
  incl (filteredPasses info) (allPasses info) /\
  (allPasses info = [] -> info = fallback mode) /\
  (allPasses info <> [] ->
     exists m, In m (filteredPasses info) /\ raw info = round1 m).
Proof.
  intros H. apply analyzeBpm_inv in H. destruct H as (rs & algos & _ & Hall & H).
  destruct rs as [|x t] eqn:E.
  - simpl in H. injection H as <-. simpl.
    repeat split; auto; try constructor.
    + intros a [].
    + congruence.
  - rewrite <- E in *. assert (Hne : rs <> []) by (rewrite E; discriminate).
    destruct (aggregate_inv _ _ _ _ _ Hne H) as (c & _ & Hraw & _ & _ & Hap & Hfp).
    rewrite Hap, Hfp, Hraw.
    assert (Hs : sort_num rs <> []).
    { intros E0. apply Hne, length_zero_iff_nil.
      rewrite <- sort_num_length, E0. reflexivity. }
    split; [apply sort_num_sorted|]. split; [|split; [|split]].
    + rewrite Forall_forall in *. intros a Ha. apply Hall, sort_num_In, Ha.
    + intros a Ha. apply tukey_filter_incl, Ha.
    + intros E0. congruence.
    + intros _. eexists. split; [|reflexivity].
      apply medianBpm_In, tukey_filter_nonempty; auto. apply sort_num_sorted.
Qed.

Lemma analyzeBpm_passes_witness :
  match @analyzeBpm approx_math 1 steady_clicks fast with
  | Some info =>
    StronglySorted Qle (allPasses info) /\
    Forall plausible (allPasses info) /\
    incl (filteredPasses info) (allPasses info) /\
    (allPasses info = [] -> info = fallback fast) /\
    (allPasses info <> [] ->
       exists m, In m (filteredPasses info) /\ raw info = round1 m)
  | None => False
  end.
Proof.
  destruct (@analyzeBpm approx_math 1 steady_clicks fast) as [info|] eqn:E.
  - exact (analyzeBpm_passes 1 steady_clicks fast info E).
  - destruct steady_clicks_returns as [info H]. congruence.
Defined.

(** ** Accurate mode *)

Lemma best_lag_range (env : list Q) : (30 <= best_lag env <= 100)%nat.
Proof.
  unfold best_lag.
  assert (G : forall l init,
    (30 <= snd init <= 100)%nat -> Forall (fun lag => (30 <= lag <= 100)%nat) l ->
    (30 <= snd (fold_left (fun '(maxAuto, bestLag) lag =>
                    let sum := autocorr env lag in
                    if gtb sum maxAuto then (sum, lag) else (maxAuto, bestLag))
                 l init) <= 100)%nat).
  { induction l as [|lag l IH]; intros [mx bl] Hi Hl; simpl; auto.
    inversion Hl; subst. apply IH; auto.
    destruct (gtb (autocorr env lag) mx); simpl; auto. }
  apply G; [simpl; lia|]. apply Forall_forall. intros lag Hin.
  apply in_seq in Hin. lia.
Qed.

Lemma autocorrelation_range (buffer : AudioBuffer) (bpm : Q) :
  detectBpmByAutocorrelation buffer = Some bpm -> 60 <= bpm <= 200.
Proof.
  unfold detectBpmByAutocorrelation.
  destruct (_ && _); [discriminate|]. intros [= <-].
  set (env := onset_env _). pose proof (best_lag_range env) as [Hlo Hhi].
  assert (H30 : 30 <= ofNat (best_lag env)).
  { unfold ofNat. change 30 with (inject_Z 30). rewrite <- Zle_Qle. lia. }
  assert (H100 : ofNat (best_lag env) <= 100).
  { unfold ofNat. change 100 with (inject_Z 100). rewrite <- Zle_Qle. lia. }
  set (l := ofNat (best_lag env)) in *.
  split.
  - apply Qle_shift_div_l; [lra|]. change (60 * 100) with 6000. lra.
  - apply Qle_shift_div_r; [lra|]. change (60 * 100) with 6000. lra.
Qed.

Lemma variance_single (x : Q) : variance_of [x] == 0.
Proof.
  unfold variance_of, mean_of, sum_num, len_or_1, len. simpl fold_left.
  change (truthy (ofNat (List.length [x]))) with true. cbv iota.
  change (ofNat (List.length [x])) with 1. change (ofNat 1) with 1.
  unfold Qdiv. change (/ 1) with 1. ring.
Qed.

Lemma tukey_filter_single (x : Q) : tukey_filter [x] = [x].
Proof.
  unfold tukey_filter.
  change (q1_of [x]) with x. change (q3_of [x]) with x.
  replace (eqb (x - x) 0) with true; auto.
  symmetry. apply eqb_eq. ring.
Qed.

Lemma octave_correct_fixed (fuel : nat) (c : Q) :
  60 <= c <= 200 -> octave_correct fuel c = Some c.
Proof.
  intros [Hlo Hhi]. unfold octave_correct.
  assert (E1 : halve_loop fuel c = Some c).
  { destruct fuel; simpl; replace (gtb c 200) with false; auto;
      symmetry; apply gtb_le; auto. }
  rewrite E1. destruct fuel; simpl; replace (ltb c 60) with false; auto;
    symmetry; apply ltb_ge; auto.
Qed.

(** Lines 89-151 when the autocorrelation tempo needs no correction. *)
Lemma analyzeBpm_accurate_of {M : MathLib} (fuel : nat) (buffer : AudioBuffer)
    (bpm : Q) :
  detectBpmByAutocorrelation buffer = Some bpm -> 60 <= bpm <= 200 ->
  exists info,
    analyzeBpm fuel buffer accurate = Some info /\
    allPasses info = [bpm] /\ filteredPasses info = [bpm] /\
    raw info = round1 bpm /\ corrected info = round1 bpm /\
    algorithmsUsed info = ["Full-Track Autocorrelation"%string] /\
    ((forall x, x == 0 -> Math_sqrt x < 10) -> confidence info = high).
Proof.
  intros Hb Hr. unfold analyzeBpm, raw_passes. rewrite Hb.
  replace (gtb bpm 40 && ltb bpm 250) with true.
  2:{ symmetry. apply andb_true_iff. split; [apply gtb_gt | apply ltb_lt]; lra. }
  unfold aggregate. change (sort_num [bpm]) with [bpm].
  rewrite tukey_filter_single.
  change (medianBpm_of [bpm]) with bpm.
  rewrite (octave_correct_fixed fuel bpm Hr).
  eexists. split; [reflexivity|].
  cbn [allPasses filteredPasses raw corrected algorithmsUsed confidence].
  repeat (split; [reflexivity|]).
  intros Hsqrt. cbn [mode_is_fast andb orb].
  replace (geb (Math_sqrt (variance_of [bpm])) 10) with false; auto.
  symmetry. apply geb_lt, Hsqrt, variance_single.
Qed.

(** X4.  In accurate mode the autocorrelation tempo is 6000 over a lag
    between 30 and 100, hence between 60 and 200 BPM: at a sample rate
    of at least 100 Hz [analyzeBpm] returns with any fuel, never the
    fallback; its single pass survives the filter, needs no octave
    correction and is reported, rounded, as both the raw and the
    corrected tempo.  The spread of a single pass is zero, so the
    confidence is high as soon as the square root of zero is below 10. *)
Theorem accurate_mode_single_pass {M : MathLib} (fuel : nat)
    (buffer : AudioBuffer) :
  (100 <= sampleRate buffer)%Z ->
  exists bpm info,
    detectBpmByAutocorrelation buffer = Some bpm /\ 60 <= bpm <= 200 /\
    analyzeBpm fuel buffer accurate = Some info /\
    allPasses info = [bpm] /\ filteredPasses info = [bpm] /\
    raw info = round1 bpm /\ corrected info = round1 bpm /\
    algorithmsUsed info = ["Full-Track Autocorrelation"%string] /\
    variance_of (filteredPasses info) == 0 /\
    ((forall x, x == 0 -> Math_sqrt x < 10) -> confidence info = high).
Proof.
  intros Hsr.
  destruct (raw_passes_total buffer accurate Hsr) as (rs & algos & Hrs & _).
  unfold raw_passes in Hrs.
  destruct (detectBpmByAutocorrelation buffer) as [bpm|] eqn:Hb; [|discriminate].
  pose proof (autocorrelation_range buffer bpm Hb) as Hr.
  destruct (analyzeBpm_accurate_of fuel buffer bpm Hb Hr)
    as (info & Hi & Hap & Hfp & Hraw & Hcor & Halg & Hconf).
  exists bpm, info. split; [reflexivity|]. split; [exact Hr|].
  split; [exact Hi|]. split; [exact Hap|]. split; [exact Hfp|].
  split; [exact Hraw|]. split; [exact Hcor|]. split; [exact Halg|].
  split; [rewrite Hfp; apply variance_single | exact Hconf].
Qed.

Lemma accurate_mode_single_pass_witness :
  exists bpm info,
    detectBpmByAutocorrelation steady_clicks = Some bpm /\ 60 <= bpm <= 200 /\
    @analyzeBpm approx_math 0 steady_clicks accurate = Some info /\
    allPasses info = [bpm] /\ filteredPasses info = [bpm] /\
    raw info = round1 bpm /\ corrected info = round1 bpm /\
    algorithmsUsed info = ["Full-Track Autocorrelation"%string] /\
    variance_of (filteredPasses info) == 0 /\
    ((forall x, x == 0 -> @Math_sqrt approx_math x < 10) -> confidence info = high).
Proof.
  apply (@accurate_mode_single_pass approx_math 0 steady_clicks).
  vm_compute. discriminate.
Defined.

(** ** Peak clustering *)

Lemma tempo_of_peaks_range (peaks : list Q) :
  tempo_of_peaks peaks = 0 \/ 30 < tempo_of_peaks peaks < 300.
Proof.
  unfold tempo_of_peaks. destruct (_ <? 5)%nat; auto.
  destruct (List.length (kept_diffs peaks) =? 0)%nat eqn:E; auto. right.
  apply Nat.eqb_neq in E.
  assert (Hne : kept_diffs peaks <> []).
  { intros E0. rewrite E0 in E. apply E. reflexivity. }
  destruct (middle_diff_upper _ Hne) as (Hin & _).
  pose proof (kept_diffs_bounds peaks) as Hb. rewrite Forall_forall in Hb.
  apply Hb in Hin. destruct Hin as [Hlo Hhi].
  set (m := middle_diff (kept_diffs peaks)) in *. split.
  - apply Qlt_shift_div_l; lra.
  - apply Qlt_shift_div_r; lra.
Qed.

(** X5.  A peak-clustering pass reports either no tempo, as 0, or a
    tempo strictly between 30 and 300 BPM, since only inter-peak
    differences strictly between 0.2 and 2 seconds are kept. *)
Theorem peak_clustering_range (data : list Q) (sr : Z) (hopSec tempo : Q) :
  detectBpmByPeakClustering data sr hopSec = Some tempo ->
  tempo = 0 \/ 30 < tempo < 300.
Proof.
  unfold detectBpmByPeakClustering.
  destruct (find_peaks _ _ _ _) as [peaks|]; [|discriminate].
  intros [= <-]. apply tempo_of_peaks_range.
Qed.

Lemma peak_clustering_range_witness :
  match detectBpmByPeakClustering uneven_clicks 8000 (5 # 100) with
  | Some tempo => tempo = 0 \/ 30 < tempo < 300
  | None => False
  end.
Proof.
  destruct (detectBpmByPeakClustering uneven_clicks 8000 (5 # 100))
    as [tempo|] eqn:E.
  - exact (peak_clustering_range uneven_clicks 8000 (5 # 100) tempo E).
  - rewrite (peak_tempo uneven_clicks 8000 (5 # 100) uneven_peaks) in E.
    + discriminate E.
    + exact uneven_clicks_peaks.
    + simpl. lia.
    + discriminate.
Defined.

(** ** Quiet signals *)

Lemma block_max_bound (data : list Q) (n i hopSize step : nat) (b mx : Q) :
  0 <= b -> (forall k, Qabs (sample data k) <= b) ->
  block_max data n i hopSize step = Some mx -> mx <= b.
Proof.
  intros Hb Hall. unfold block_max.
  destruct (while_loop _ _ _ _) as [[j m]|] eqn:E; [|discriminate].
  intros [= <-].
  apply (while_loop_inv (fun s : nat * Q => snd s <= b)) in E; [apply E| |exact Hb].
  intros [j0 m0] s' Hinv _ [= <-]. cbn [snd] in *.
  destruct (gtb _ m0); auto.
Qed.

Lemma find_peaks_quiet (data : list Q) (sr : Z) (hopSize step : nat)
    (peaks : list Q) :
  (forall k, Qabs (sample data k) <= 15 # 100) ->
  find_peaks data sr hopSize step = Some peaks -> peaks = [].
Proof.
  intros Hall. unfold find_peaks.
  destruct (while_loop _ _ _ _) as [[j m]|] eqn:E; [|discriminate].
  intros [= <-].
  apply (while_loop_inv (fun s : nat * list Q => snd s = [])) in E;
    [apply E| |reflexivity].
  intros [i0 p0] s' Hinv _. cbn [snd] in *. subst p0.
  destruct (block_max _ _ _ _ _) as [mx|] eqn:Hmx; [|discriminate].
  apply (block_max_bound _ _ _ _ _ (15 # 100)) in Hmx; [|lra|auto].
  intros [= <-]. cbn [snd].
  replace (gtb mx (15 # 100)) with false; auto.
  symmetry. apply gtb_le. auto.
Qed.

Lemma fast_passes_quiet (data : list Q) (sr : Z) (hops : list Q) :
  (forall k, Qabs (sample data k) <= 15 # 100) ->
  forall rs, fast_passes data sr hops = Some rs -> rs = [].
Proof.
  intros Hall. induction hops as [|hop rest IH]; simpl; intros rs.
  - congruence.
  - unfold detectBpmByPeakClustering.
    destruct (find_peaks _ _ _ _) as [peaks|] eqn:Hp; [|discriminate].
    apply find_peaks_quiet in Hp; auto. subst peaks. cbn [option_map].
    destruct (fast_passes data sr rest) as [more|]; [|discriminate].
    rewrite (IH more eq_refl). intros [= <-]. reflexivity.
Qed.

Lemma sample_Forall (P : Q -> Prop) (data : list Q) :
  P 0 -> Forall P data -> forall k, P (sample data k).
Proof.
  intros H0 Hall k. unfold sample.
  destruct (Nat.lt_ge_cases k (List.length data)).
  - rewrite Forall_forall in Hall. apply Hall, nth_In. auto.
  - rewrite nth_overflow; auto.
Qed.

(** X6.  When no sample of the first channel exceeds 0.15 in magnitude,
    fast mode finds no peak in any of its six passes and [analyzeBpm]
    returns the fallback: 120 BPM, low confidence, no passes. *)
Theorem quiet_signal_fallback {M : MathLib} (fuel : nat) (buffer : AudioBuffer) :
  (34 <= sampleRate buffer)%Z ->
  Forall (fun x => Qabs x <= 15 # 100) (getChannelData buffer 0) ->
  analyzeBpm fuel buffer fast = Some (fallback fast).
Proof.
  intros Hsr Hq. unfold analyzeBpm, raw_passes.
  destruct (fast_passes_total (getChannelData buffer 0) (sampleRate buffer)
              hopSizes (hopSizes_advance _ Hsr)) as (rs & Hrs & _).
  rewrite Hrs. apply fast_passes_quiet in Hrs.
  - subst rs. reflexivity.
  - apply (sample_Forall (fun x => Qabs x <= 15 # 100)); auto.
    simpl. lra.
Qed.

Lemma quiet_signal_fallback_witness :
  @analyzeBpm approx_math 0 one_second fast = Some (fallback fast).
Proof.
  apply (@quiet_signal_fallback approx_math 0 one_second).
  - vm_compute. discriminate.
  - change (getChannelData one_second 0) with (repeat 0 (8 * 1000)).
    apply Forall_forall. intros x Hin. apply repeat_spec in Hin. subst x.
    simpl. lra.
Defined.

(** ** Detected regions *)

Lemma first_above_none (rms : list Q) (t : Q) : forall i,
  (0 <= i)%Z -> first_above rms t i = (-1)%Z -> last_above rms t i = (-1)%Z.
Proof.
  induction rms as [|r rest IH]; intros i Hi; simpl; auto.
  destruct (gtb r t); [lia|]. intros H. rewrite IH; auto. lia.
Qed.

Lemma boundaries_of_detected (rmsValues : list Q) (dur : Q) :
  detected (boundaries_of rmsValues dur) = true ->
  exists iEnd oStart : Z,
    (0 <= iEnd)%Z /\ (iEnd + 200 < oStart)%Z /\
    introEnd (boundaries_of rmsValues dur) = ofZ iEnd * (1 # 10) + 10 /\
    outroStart (boundaries_of rmsValues dur) = ofZ oStart * (1 # 10) - 10 /\
    ofZ oStart * (1 # 10) - 10 < dur.
Proof.
  unfold boundaries_of; simpl.
  set (t := at_index _ _).
  pose proof (first_above_ge rmsValues t 0 ltac:(lia)) as Hi.
  pose proof (first_above_none rmsValues t 0 ltac:(lia)) as Hnone.
  set (iEnd := first_above rmsValues t 0) in *.
  set (oStart := last_above rmsValues t 0) in *.
  intros E. rewrite E. exists iEnd, oStart.
  apply andb_true_iff in E. destruct E as [E E3].
  apply andb_true_iff in E. destruct E as [E1 E2].
  apply ltb_lt in E1, E3. apply gtb_gt in E2.
  unfold Math_min, Math_max in *.
  destruct (ltb (ofZ iEnd * (1 # 10) + 10) dur) eqn:C1; [|lra].
  destruct (ltb 0 (ofZ oStart * (1 # 10) - 10)) eqn:C2; [|lra].
  apply ltb_lt in C2.
  assert (Hlt : (iEnd + 200 < oStart)%Z).
  { rewrite Zlt_Qlt, inject_Z_plus. unfold ofZ in *.
    change (inject_Z 200) with 200. lra. }
  assert (H0 : (0 <= iEnd)%Z).
  { destruct (Z.eq_dec iEnd (-1)) as [Em|]; [|lia].
    apply Hnone in Em. exfalso. unfold ofZ in C2. rewrite Em in C2.
    vm_compute in C2. discriminate C2. }
  repeat split; auto.
Qed.

Lemma Qabs_same (x y : Q) (tol : Q) : 0 <= tol -> x = y -> Qabs (x - y) <= tol.
Proof.
  intros Ht ->. setoid_replace (y - y) with 0 by ring. exact Ht.
Qed.

(** X7.  A region the boundary detector reports as detected starts ten
    seconds after the beginning of a chunk and ends ten seconds before
    the beginning of a later one, at least 200 chunks further on, both
    times up to a thousandth of a second: some chunk is above the
    threshold, the intro is at least 10 seconds long, the region is not
    empty and ends before the track does. *)
Theorem detected_region_margins {M : MathLib} (buffer : AudioBuffer)
    (r : LoopBoundaries) :
  detectBoundaries buffer = Some r -> detected r = true ->
  (exists iEnd oStart : Z,
     (0 <= iEnd)%Z /\ (iEnd + 200 <= oStart)%Z /\
     Qabs (introEnd r - (ofZ iEnd * (1 # 10) + 10)) <= 1 # 1000 /\
     Qabs (outroStart r - (ofZ oStart * (1 # 10) - 10)) <= 1 # 1000) /\
  10 <= introEnd r /\ introEnd r < outroStart r /\
  outroStart r < duration buffer.
Proof.
  unfold detectBoundaries. destruct (chunk_rms _ _) as [rms|]; [|discriminate].
  intros [= <-] Hd.
  destruct (boundaries_of_detected rms (duration buffer) Hd)
    as (iEnd & oStart & Hi & Ho & Ei & Eo & Hdur).
  split.
  - exists iEnd, oStart. split; [exact Hi|]. split; [lia|].
    split; apply Qabs_same; auto; discriminate.
  - rewrite Ei, Eo. unfold ofZ in *.
    assert (H1 : 0 <= inject_Z iEnd).
    { change 0 with (inject_Z 0). rewrite <- Zle_Qle. auto. }
    assert (H2 : inject_Z iEnd + 201 <= inject_Z oStart).
    { change 201 with (inject_Z 201). rewrite <- inject_Z_plus, <- Zle_Qle. lia. }
    split; [|split]; lra.
Qed.

Lemma detected_region_margins_witness :
  match @detectBoundaries approx_math loud_ends with
  | Some r =>
    (exists iEnd oStart : Z,
       (0 <= iEnd)%Z /\ (iEnd + 200 <= oStart)%Z /\
       Qabs (introEnd r - (ofZ iEnd * (1 # 10) + 10)) <= 1 # 1000 /\
       Qabs (outroStart r - (ofZ oStart * (1 # 10) - 10)) <= 1 # 1000) /\
    10 <= introEnd r /\ introEnd r < outroStart r /\
    outroStart r < duration loud_ends
  | None => False
  end.
Proof.
  pose proof loud_ends_detected as H.
  destruct (@detectBoundaries approx_math loud_ends) as [r|] eqn:E.
  - apply (@detected_region_margins approx_math loud_ends r E).
    simpl in H. congruence.
  - discriminate H.
Defined.

(** ** Signals of constant power *)

Lemma sum_squares_const (data : list Q) (a : Q) :
  Forall (fun x => x * x == a) data ->
  forall count from, (from + count <= List.length data)%nat ->
    sum_squares data from count == ofNat count * a.
Proof.
  intros Hall count from Hle. unfold sum_squares.
  assert (G : forall count from acc,
    (from + count <= List.length data)%nat ->
    fold_left (fun s j => s + sample data j * sample data j) (seq from count) acc
    == acc + ofNat count * a).
  { clear count from Hle. induction count as [|count IH]; intros from acc Hle.
    - simpl. unfold ofNat. change (inject_Z (Z.of_nat 0)) with 0. ring.
    - cbn [seq fold_left]. rewrite IH by lia.
      assert (Hs : sample data from * sample data from == a).
      { rewrite Forall_forall in Hall. apply Hall, nth_In. lia. }
      rewrite Hs. unfold ofNat. rewrite Nat2Z.inj_succ. unfold Z.succ.
      rewrite inject_Z_plus. change (inject_Z 1) with 1. ring. }
  rewrite G by auto. ring.
Qed.

Lemma none_above (rms : list Q) (t : Q) :
  Forall (fun r => r <= t) rms ->
  forall i, first_above rms t i = (-1)%Z /\ last_above rms t i = (-1)%Z.
Proof.
  induction 1 as [|r rest Hr _ IH]; intros i; simpl; auto.
  replace (gtb r t) with false by (symmetry; apply gtb_le; auto).
  destruct (IH (i + 1)%Z) as [E1 E2]. rewrite E1, E2. auto.
Qed.

Lemma boundaries_of_level (rmsValues : list Q) (dur c : Q) :
  Forall (fun r => r == c) rmsValues ->
  detected (boundaries_of rmsValues dur) = false.
Proof.
  intros Hall. unfold boundaries_of. cbv zeta. cbn [detected].
  set (t := at_index _ _).
  assert (Hle : Forall (fun r => r <= t) rmsValues).
  { assert (Hcase : rmsValues = [] \/ rmsValues <> [])
      by (destruct rmsValues; [left; reflexivity | right; discriminate]).
    destruct Hcase as [-> | Hne0]; [constructor|].
    assert (Hne : sort_num rmsValues <> []).
    { intros E0. apply Hne0, length_zero_iff_nil.
      rewrite <- sort_num_length, E0. reflexivity. }
    assert (Hin : In t rmsValues).
    { apply sort_num_In. unfold t, at_index. apply nth_In.
      apply index_scale; auto. lia. }
    rewrite Forall_forall in *. intros r Hr.
    rewrite (Hall r Hr), (Hall t Hin). apply Qle_refl. }
  destruct (none_above rmsValues t Hle 0) as [E1 E2]. rewrite E1, E2.
  change (Math_max 0 (ofZ (-1) * (1 # 10) - 10)) with 0.
  apply not_true_iff_false. intros E.
  apply andb_true_iff in E. destruct E as [E _].
  apply andb_true_iff in E. destruct E as [E3 E4].
  apply ltb_lt in E3. apply gtb_gt in E4. lra.
Qed.

Section Level.
Context {M : MathLib}.
Hypothesis sqrt_proper : forall x y, x == y -> Math_sqrt x == Math_sqrt y.

Lemma chunk_rms_level (data : list Q) (chunkSize : nat) (a : Q)
    (rms : list Q) :
  (1 <= chunkSize)%nat -> Forall (fun x => x * x == a) data ->
  chunk_rms data chunkSize = Some rms ->
  Forall (fun r => r == Math_sqrt a) rms.
Proof.
  intros Hc Hall. unfold chunk_rms.
  destruct (while_loop _ _ _ _) as [[i0 r0]|] eqn:E; [|discriminate].
  intros [= <-].
  apply (while_loop_inv (fun s : nat * list Q =>
           Forall (fun r => r == Math_sqrt a) (snd s))) in E;
    [apply E| |constructor].
  intros [i rs] s' Hinv Hcond [= <-]. cbn [snd] in *.
  apply Nat.ltb_lt in Hcond.
  apply Forall_app. split; auto. constructor; [|constructor].
  set (k := (Nat.min (i + chunkSize) (List.length data) - i)%nat).
  assert (Hk : (1 <= k)%nat) by (unfold k; lia).
  apply sqrt_proper. rewrite (sum_squares_const data a Hall) by (unfold k; lia).
  assert (Hq : 0 < ofNat k).
  { unfold ofNat. change 0 with (inject_Z 0). rewrite <- Zlt_Qlt. lia. }
  field. intros E0. rewrite E0 in Hq. lra.
Qed.

(** X8.  On a signal whose samples all have the same magnitude (silence,
    a square wave, a constant level) every chunk has the same RMS, none
    exceeds the threshold, and the boundary detector reports nothing:
    detected = false with the defaults 0 and duration. *)
Theorem level_signal_not_detected (buffer : AudioBuffer) (a : Q) :
  (10 <= sampleRate buffer)%Z ->
  Forall (fun x => x * x == a) (getChannelData buffer 0) ->
  exists r, detectBoundaries buffer = Some r /\
            detected r = false /\
            introEnd r = 0 /\ outroStart r = duration buffer.
Proof.
  intros Hsr Hall. unfold detectBoundaries.
  set (chunkSize := Z.to_nat (Math_floor (ofZ (sampleRate buffer) * (1 # 10)))).
  assert (Hcs : (1 <= chunkSize)%nat).
  { unfold chunkSize, Math_floor, ofZ. rewrite floor_scale.
    assert (1 <= sampleRate buffer * 1 / 10)%Z by (apply Z.div_le_lower_bound; lia).
    lia. }
  destruct (chunk_rms_total (getChannelData buffer 0) chunkSize Hcs)
    as (rms & Hr & _).
  rewrite Hr. eexists. split; [reflexivity|].
  pose proof (chunk_rms_level _ _ a rms Hcs Hall Hr) as Hlevel.
  pose proof (boundaries_of_level rms (duration buffer) _ Hlevel) as Hdet.
  split; [exact Hdet|].
  apply (proj2 (boundaries_of_invariant rms (duration buffer)) Hdet).
Qed.

End Level.

Lemma approx_sqrt_proper (x y : Q) :
  x == y -> @Math_sqrt approx_math x == @Math_sqrt approx_math y.
Proof.
  intros E. unfold Math_sqrt, approx_math.
  assert (E' : x * 1000000000000 == y * 1000000000000) by (rewrite E; reflexivity).
  rewrite (Qfloor_comp _ _ E'). reflexivity.
Qed.

Lemma level_signal_not_detected_witness :
  exists r, @detectBoundaries approx_math bed = Some r /\
            detected r = false /\
            introEnd r = 0 /\ outroStart r = duration bed.
Proof.
  apply (@level_signal_not_detected approx_math approx_sqrt_proper bed (1 # 16)).
  - vm_compute. discriminate.
  - change (getChannelData bed 0) with (repeat (1 # 4) (4 * (8 * 1000))).
    apply Forall_forall. intros x Hin. apply repeat_spec in Hin. subst x.
    reflexivity.
Defined.

(** ** The stretched buffer *)


Section StretchShape.
Context {M : MathLib}.





End StretchShape.


(** ** The foundation schedule *)

Lemma looping_voice_times (b : AudioBuffer) (totalDur targetVolume cf cur : Q) :
  0 <= cf -> cf <= duration b -> 0 <= cur -> cur < totalDur ->
  Forall (Qle 0) (voice_times (looping_voice b totalDur targetVolume cf cur)).
Proof.
  intros Hcf Hd Hcur Hlt. unfold looping_voice, voice_times, start_time.
  cbn [v_gain v_start v_stop fst]. rewrite map_app.
  repeat rewrite Forall_app. split; [split|split].
  - destruct (eqb cur 0); repeat constructor; cbn [event_time]; lra.
  - destruct (ltb (cur + duration b) totalDur).
    + repeat constructor; cbn [event_time]; lra.
    + constructor.
      * cbn [event_time]. unfold Math_min.
        destruct (ltb totalDur (cur + duration b - cf)); lra.
      * destruct (gtb totalDur (cur + duration b - cf));
          repeat constructor; cbn [event_time]; lra.
  - repeat constructor. exact Hcur.
  - destruct (gtb (cur + duration b) totalDur); repeat constructor. lra.
Qed.

(** X10.  With a crossfade between zero and the length of the
    foundation, every time the looping renderer hands to the host (gain
    events, starts and stops) is at or after time zero. *)
Theorem renderLoopingTrack_times (fuel : nat) (b : AudioBuffer)
    (totalDur targetVolume cf : Q) (voices : list Voice) :
  0 <= cf -> cf <= duration b ->
  renderLoopingTrack fuel b totalDur targetVolume cf = Some voices ->
  Forall (fun v => Forall (Qle 0) (voice_times v)) voices.
Proof.
  intros Hcf Hd. unfold renderLoopingTrack.
  destruct (while_loop _ _ _ _) as [[c vs]|] eqn:E; [|discriminate].
  intros [= <-].
  apply (while_loop_inv (fun s : Q * list Voice =>
           0 <= fst s /\
           Forall (fun v => Forall (Qle 0) (voice_times v)) (snd s))) in E;
    [apply E| |split; [apply Qle_refl | constructor]].
  intros [cur vs0] s' [Hcur Hall] Hcond [= <-]. cbn [fst snd] in *.
  apply ltb_lt in Hcond. split; [lra|].
  apply Forall_app. split; auto. constructor; [|constructor].
  apply looping_voice_times; auto.
Qed.

Lemma tone_looped : isSome (renderLoopingTrack 3 tone 7 1 (1 # 2)) = true.
Proof. vm_compute. reflexivity. Qed.

Lemma renderLoopingTrack_times_witness :
  match renderLoopingTrack 3 tone 7 1 (1 # 2) with
  | Some voices => Forall (fun v => Forall (Qle 0) (voice_times v)) voices
  | None => False
  end.
Proof.
  destruct (renderLoopingTrack 3 tone 7 1 (1 # 2)) as [voices|] eqn:E.
  - apply (renderLoopingTrack_times 3 tone 7 1 (1 # 2) voices); auto.
    + discriminate.
    + vm_compute. discriminate.
  - pose proof tone_looped as H. rewrite E in H. discriminate H.
Defined.

(** ** The music schedule *)

Section Music.
Variables (b : AudioBuffer) (totalDur targetVolume : Q) (bnd : LoopBoundaries)
          (cf rate : Q).

Let eIntroDur := introEnd bnd / rate.
Let eLoopDur := (outroStart bnd - introEnd bnd) / rate.
Let lET := totalDur - (duration b - outroStart bnd) / rate.

Lemma renderMusicTrack_inv (fuel : nat) (voices : list Voice) :
  renderMusicTrack fuel b totalDur targetVolume bnd cf rate = Some voices ->
  exists loops,
    voices =
      intro_voice b targetVolume (introEnd bnd) cf rate :: loops ++
      [outro_voice b targetVolume (outroStart bnd) cf rate
         (if ltb eIntroDur lET then lET else eIntroDur)] /\
    Forall (fun v => exists cur,
              v = loop_voice b targetVolume (introEnd bnd) (outroStart bnd)
                    cf rate lET cur /\
              cur < lET /\ (cf <= eLoopDur -> eIntroDur <= cur)) loops /\
    (loops = [] <-> lET <= eIntroDur).
Proof.
  unfold renderMusicTrack. fold eIntroDur. fold eLoopDur. fold lET.
  destruct (while_loop _ _ _ _) as [[c vs]|] eqn:E; [|discriminate].
  intros [= <-].
  apply (while_loop_inv (fun s : Q * list Voice =>
    exists loops,
      snd s = intro_voice b targetVolume (introEnd bnd) cf rate :: loops /\
      Forall (fun v => exists cur,
                v = loop_voice b targetVolume (introEnd bnd) (outroStart bnd)
                      cf rate lET cur /\
                cur < lET /\ (cf <= eLoopDur -> eIntroDur <= cur)) loops /\
      ((loops = [] /\ fst s = eIntroDur) \/
       (loops <> [] /\ eIntroDur < lET /\
        (fst s = lET \/ fst s < lET) /\
        (cf <= eLoopDur -> eIntroDur <= fst s)))))
    in E.
  - destruct E as [(loops & Hv & Hall & Hcase) Hcond]. cbn [fst snd] in *.
    apply ltb_ge in Hcond. exists loops. subst vs.
    destruct Hcase as [[-> ->] | (Hne & Hlt & Hcur & _)].
    + replace (ltb eIntroDur lET) with false by (symmetry; apply ltb_ge; auto).
      repeat split; auto.
    + replace (ltb eIntroDur lET) with true by (symmetry; apply ltb_lt; auto).
      destruct Hcur as [-> | Hcur]; [|lra].
      repeat split; auto; [congruence | intros; lra].
  - intros [cur vs0] s' (loops & Hv & Hall & Hcase) Hcond [= <-].
    cbn [fst snd] in *. apply ltb_lt in Hcond.
    exists (loops ++ [loop_voice b targetVolume (introEnd bnd) (outroStart bnd)
                        cf rate lET cur]).
    assert (Hge : cf <= eLoopDur -> eIntroDur <= cur).
    { destruct Hcase as [[_ ->] | (_ & _ & _ & H)]; [intros; lra | exact H]. }
    assert (Hlt : eIntroDur < lET).
    { destruct Hcase as [[_ <-] | (_ & H & _)]; auto. }
    split; [rewrite Hv; reflexivity|]. split.
    + apply Forall_app. split; auto. constructor; [|constructor].
      exists cur. auto.
    + right. split; [destruct loops; discriminate|]. split; auto.
      destruct (geb (cur + eLoopDur - cf) lET) eqn:G.
      * split; [left; reflexivity|]. intros; lra.
      * apply geb_lt in G. split; [right; exact G|].
        intros H. specialize (Hge H). lra.
  - exists []. cbn [fst snd]. split; [reflexivity|]. split; [constructor|].
    left. split; reflexivity.
Qed.

(** X12.  What the music renderer schedules is the intro, then the
    repetitions of the loop region, each started before the point
    [lET = totalDur - outro length], then the outro.  The outro reaches
    its full volume at [lET], or at the end of the intro when that comes
    later, in which case there is no repetition at all. *)
Theorem renderMusicTrack_layout (fuel : nat) (voices : list Voice) :
  renderMusicTrack fuel b totalDur targetVolume bnd cf rate = Some voices ->
  exists loops,
    voices =
      intro_voice b targetVolume (introEnd bnd) cf rate :: loops ++
      [outro_voice b targetVolume (outroStart bnd) cf rate
         (if ltb eIntroDur lET then lET else eIntroDur)] /\
    Forall (fun v => exists cur,
              v = loop_voice b targetVolume (introEnd bnd) (outroStart bnd)
                    cf rate lET cur /\ cur < lET) loops /\
    (loops = [] <-> lET <= eIntroDur).
Proof.
  intros H. destruct (renderMusicTrack_inv fuel voices H) as (loops & Hv & Hall & Hn).
  exists loops. repeat split; auto; try apply Hn.
  eapply Forall_impl; [|exact Hall]. intros v (cur & Hc & Hlt & _). eauto.
Qed.

(** X13.  When the crossfade is not negative, not longer than the intro
    and not longer than the loop region, both taken at the playback
    rate, every time the music renderer hands to the host is at or after
    time zero. *)
Theorem renderMusicTrack_times (fuel : nat) (voices : list Voice) :
  0 <= cf -> cf <= eIntroDur -> cf <= eLoopDur ->
  renderMusicTrack fuel b totalDur targetVolume bnd cf rate = Some voices ->
  Forall (fun v => Forall (Qle 0) (voice_times v)) voices.
Proof.
  intros Hcf Hi Hl H.
  destruct (renderMusicTrack_inv fuel voices H) as (loops & -> & Hall & _).
  constructor; [|apply Forall_app; split].
  - unfold voice_times, start_time, intro_voice. fold eIntroDur.
    cbn [v_gain v_start v_stop fst map event_time app].
    repeat constructor; lra.
  - eapply Forall_impl; [|exact Hall]. intros v (cur & -> & Hlt & Hge).
    specialize (Hge Hl).
    unfold voice_times, start_time, loop_voice. fold eLoopDur.
    cbn [v_gain v_start v_stop fst map event_time app].
    destruct (geb (cur + eLoopDur - cf) lET);
      repeat constructor; lra.
  - constructor; [|constructor].
    unfold voice_times, start_time, outro_voice.
    cbn [v_gain v_start v_stop fst map event_time app].
    destruct (ltb eIntroDur lET) eqn:C.
    + apply ltb_lt in C. repeat constructor; lra.
    + repeat constructor; lra.
Qed.

(** X14.  When the intro, taken at the playback rate, is shorter than
    the crossfade (boundaries that start at zero, as the detector gives
    them when it detects nothing, with any positive crossfade), the
    music renderer sets the gain of the intro at a negative time. *)
Theorem renderMusicTrack_negative_time (fuel : nat) (voices : list Voice) :
  eIntroDur < cf ->
  renderMusicTrack fuel b totalDur targetVolume bnd cf rate = Some voices ->
  exists v, hd_error voices = Some v /\
            In (setValueAtTime targetVolume (eIntroDur - cf)) (v_gain v) /\
            eIntroDur - cf < 0.
Proof.
  intros Hlt H.
  destruct (renderMusicTrack_inv fuel voices H) as (loops & -> & _).
  eexists. split; [reflexivity|]. split; [|lra].
  unfold intro_voice. fold eIntroDur. cbn [v_gain]. simpl. auto.
Qed.

End Music.

Lemma bed_region_rendered :
  isSome (renderMusicTrack 2 bed 5 1 bed_region (1 # 2) 1) = true.
Proof. vm_compute. reflexivity. Qed.

Lemma bed_undetected_rendered :
  isSome (renderMusicTrack 6 bed 6 1 bed_undetected 3 1) = true.
Proof. vm_compute. reflexivity. Qed.

Lemma renderMusicTrack_layout_witness :
  match renderMusicTrack 2 bed 5 1 bed_region (1 # 2) 1 with
  | Some voices =>
    let eIntroDur := introEnd bed_region / 1 in
    let lET := 5 - (duration bed - outroStart bed_region) / 1 in
    exists loops,
      voices =
        intro_voice bed 1 (introEnd bed_region) (1 # 2) 1 :: loops ++
        [outro_voice bed 1 (outroStart bed_region) (1 # 2) 1
           (if ltb eIntroDur lET then lET else eIntroDur)] /\
      Forall (fun v => exists cur,
                v = loop_voice bed 1 (introEnd bed_region)
                      (outroStart bed_region) (1 # 2) 1 lET cur /\ cur < lET)
             loops /\
      (loops = [] <-> lET <= eIntroDur)
  | None => False
  end.
Proof.
  destruct (renderMusicTrack 2 bed 5 1 bed_region (1 # 2) 1) as [voices|] eqn:E.
  - exact (renderMusicTrack_layout bed 5 1 bed_region (1 # 2) 1 2 voices E).
  - pose proof bed_region_rendered as H. rewrite E in H. discriminate H.
Defined.

Lemma renderMusicTrack_times_witness :
  match renderMusicTrack 2 bed 5 1 bed_region (1 # 2) 1 with
  | Some voices => Forall (fun v => Forall (Qle 0) (voice_times v)) voices
  | None => False
  end.
Proof.
  destruct (renderMusicTrack 2 bed 5 1 bed_region (1 # 2) 1) as [voices|] eqn:E.
  - apply (renderMusicTrack_times bed 5 1 bed_region (1 # 2) 1 2 voices); auto.
    + discriminate.
    + vm_compute. discriminate.
    + vm_compute. discriminate.
  - pose proof bed_region_rendered as H. rewrite E in H. discriminate H.
Defined.

Lemma renderMusicTrack_negative_time_witness :
  match renderMusicTrack 6 bed 6 1 bed_undetected 3 1 with
  | Some voices =>
    exists v, hd_error voices = Some v /\
              In (setValueAtTime 1 (introEnd bed_undetected / 1 - 3)) (v_gain v) /\
              introEnd bed_undetected / 1 - 3 < 0
  | None => False
  end.
Proof.
  destruct (renderMusicTrack 6 bed 6 1 bed_undetected 3 1) as [voices|] eqn:E.
  - apply (renderMusicTrack_negative_time bed 6 1 bed_undetected 3 1 6 voices); auto.
    reflexivity.
  - pose proof bed_undetected_rendered as H. rewrite E in H. discriminate H.
Defined.

(** ** The page and the engine *)

Lemma decodeFile_inv {M : MathLib} {W : WebAudio} (fuel : nat)
    (name mime : string) (audioBuffer : AudioBuffer) (mode : DetectionMode)
    (md : AudioMetadata.t) :
  decodeFile fuel name mime audioBuffer mode = Some md ->
  AudioMetadata.name md = name /\
  AudioMetadata.buffer md = audioBuffer /\
  AudioMetadata.duration md = duration audioBuffer /\
  AudioMetadata.sampleRate md = sampleRate audioBuffer /\
  AudioMetadata.format md = format_of mime /\
  AudioMetadata.frequency md = frequency_of name audioBuffer.
Proof.
  unfold decodeFile. destruct (if ltb _ _ then _ else _); [|discriminate].
  intros [= <-]. repeat split.
Qed.

(** X15.  After an upload of the music the page holds the result of the
    boundary detector for the decoded signal, and [handleProcess] hands
    it to the engine as boundaries set by hand: [process] does not run
    the detector again and takes the region as detected, whatever the
    detector had found. *)
Theorem upload_boundaries_count_as_manual {M : MathLib} {W : WebAudio}
    (fuel : nat) (name mime : string) (audioBuffer : AudioBuffer)
    (st st' : App.State) :
  App.handleMusicUpload fuel name mime audioBuffer st = Some st' ->
  exists meta r,
    App.musicTrack st' = Some meta /\
    AudioMetadata.buffer meta = audioBuffer /\
    detectBoundaries audioBuffer = Some r /\
    App.boundaries st' = Some r /\
    forall m, original_bounds m (App.processing_options st') =
              Some {| introEnd := introEnd r; outroStart := outroStart r;
                      detected := true |}.
Proof.
  unfold App.handleMusicUpload.
  destruct (decodeFile _ _ _ _ _) as [meta|] eqn:Hd; [|discriminate].
  destruct (decodeFile_inv _ _ _ _ _ _ Hd) as (_ & Hb & _).
  rewrite Hb. destruct (detectBoundaries audioBuffer) as [r|] eqn:Hr; [|discriminate].
  intros [= <-]. exists meta, r. repeat split; auto.
Qed.

Lemma blip_uploaded :
  isSome (@App.handleMusicUpload approx_math silent_host 1 "blip.wav"
            "audio/wav" blip App.initial) = true.
Proof. vm_compute. reflexivity. Qed.

Lemma upload_boundaries_count_as_manual_witness :
  match @App.handleMusicUpload approx_math silent_host 1 "blip.wav"
          "audio/wav" blip App.initial with
  | Some st' =>
    exists meta r,
      App.musicTrack st' = Some meta /\
      AudioMetadata.buffer meta = blip /\
      @detectBoundaries approx_math blip = Some r /\
      App.boundaries st' = Some r /\
      forall m, @original_bounds approx_math m (App.processing_options st') =
                Some {| introEnd := introEnd r; outroStart := outroStart r;
                        detected := true |}
  | None => False
  end.
Proof.
  destruct (@App.handleMusicUpload approx_math silent_host 1 "blip.wav"
              "audio/wav" blip App.initial) as [st'|] eqn:E.
  - exact (@upload_boundaries_count_as_manual approx_math silent_host 1
             "blip.wav" "audio/wav" blip App.initial st' E).
  - pose proof blip_uploaded as H. rewrite E in H. discriminate H.
Defined.

(** X16.  When the boundaries the page holds start at zero, as those of
    an upload on which the detector found nothing do, the graph that
    [process] builds from the page's options (crossfade three seconds)
    has a voice whose gain is set at minus three seconds. *)
Theorem page_undetected_negative_time {M : MathLib} (fuel : nat)
    (st : App.State) (f m : AudioMetadata.t) (r : LoopBoundaries)
    (ctx : OfflineGraph) (stretched : bool) :
  App.boundaries st = Some r -> introEnd r = 0 ->
  mixdown_graph fuel f m (App.processing_options st) = Some (ctx, stretched) ->
  exists v t, In v (g_voices ctx) /\ In t (voice_times v) /\ t == -3.
Proof.
  intros Hb Hi. unfold mixdown_graph.
  destruct (if gtb _ _ then _ else _) as [musicBuffer|]; [|discriminate].
  destruct (renderLoopingTrack _ _ _ _ _) as [focusVoices|]; [|discriminate].
  unfold original_bounds.
  cbn [ProcessingOptions.manualBoundaries App.processing_options].
  rewrite Hb. cbn [option_map].
  cbn [introEnd outroStart detected ManualBoundaries.introEnd
       ManualBoundaries.outroStart].
  destruct (renderMusicTrack _ _ _ _ _ _ _) as [musicVoices|] eqn:Hm; [|discriminate].
  intros [= <- _]. cbn [g_voices].
  destruct (renderMusicTrack_inv _ _ _ _ _ _ _ _ Hm) as (loops & -> & _).
  eexists. eexists. split.
  - apply in_or_app. right. left. reflexivity.
  - split.
    + unfold voice_times, intro_voice. cbn [v_gain map event_time app].
      right. left. reflexivity.
    + cbn [introEnd ProcessingOptions.crossfadeDuration App.processing_options].
      rewrite Hi. unfold Qdiv. rewrite !Qmult_0_l. reflexivity.
Qed.

Lemma page_undetected_graph :
  isSome (@mixdown_graph approx_math 6 music_track music_track
            (App.processing_options page_undetected)) = true.
Proof. vm_compute. reflexivity. Qed.

Lemma page_undetected_negative_time_witness :
  match @mixdown_graph approx_math 6 music_track music_track
          (App.processing_options page_undetected) with
  | Some (ctx, _) =>
    exists v t, In v (g_voices ctx) /\ In t (voice_times v) /\ t == -3
  | None => False
  end.
Proof.
  destruct (@mixdown_graph approx_math 6 music_track music_track
              (App.processing_options page_undetected))
    as [[ctx stretched]|] eqn:E.
  - exact (@page_undetected_negative_time approx_math 6 page_undetected
             music_track music_track bed_undetected ctx stretched
             eq_refl eq_refl E).
  - pose proof page_undetected_graph as H. rewrite E in H. discriminate H.
Defined.

(** A run of the page on two loaded tracks returns once the graph is
    built. *)
Lemma handleProcess_after_graph {M : MathLib} {W : WebAudio} (fuel : nat)
    (st : App.State) (f m : AudioMetadata.t) (ctx : OfflineGraph)
    (stretched : bool) :
  App.focusTrack st = Some f -> App.musicTrack st = Some m ->
  mixdown_graph fuel f m (App.processing_options st) = Some (ctx, stretched) ->
  exists out, App.handleProcess fuel st = Some (Some out).
Proof.
  intros Ef Em Hg. unfold App.handleProcess. rewrite Ef, Em.
  rewrite (process_after_graph _ _ _ _ _ _ Hg). eexists. reflexivity.
Qed.

Lemma mixdown_graph_format {M : MathLib} (fuel : nat)
    (f m : AudioMetadata.t) (st : App.State) (format : ExportFormat) :
  mixdown_graph fuel f m
    (App.processing_options (App.setExportFormat format st)) =
  mixdown_graph fuel f m (App.processing_options st).
Proof. reflexivity. Qed.

(** X17.  The download button offers the blob that the last run of
    [handleProcess] stored, under a name made from the format selected
    when it is clicked.  After a run that returned, whatever format is
    selected next: the stored blob has the media type of the format of
    the run and is a RIFF/WAVE file of PCM samples; the name offered
    ends in the extension of the format selected now, which need not be
    that of the run; and a second run under the format selected now
    returns as well, with the same bytes and the media type of that
    format. *)
Theorem download_after_format_change {M : MathLib} {W : WebAudio}
    (fuel : nat) (st : App.State) (out : Processed) (format : ExportFormat) :
  App.handleProcess fuel st = Some (Some out) ->
  type (blob out) = media_type (App.exportFormat st) /\
  firstn 4 (bytes (blob out)) = [82; 73; 70; 70]%Z /\
  firstn 4 (skipn 8 (bytes (blob out))) = [87; 65; 86; 69]%Z /\
  firstn 2 (skipn 20 (bytes (blob out))) = [1; 0]%Z /\
  (exists f, App.focusTrack st = Some f /\
     App.download_name (App.setExportFormat format st) =
     ("TuneScape_" ++ App.before_dot (AudioMetadata.name f) ++ "." ++
      App.download_extension format)%string) /\
  exists out',
    App.handleProcess fuel (App.setExportFormat format st) = Some (Some out') /\
    bytes (blob out') = bytes (blob out) /\
    type (blob out') = media_type format.
Proof.
  unfold App.handleProcess.
  cbn [App.focusTrack App.musicTrack App.setExportFormat].
  destruct (App.focusTrack st) as [f|] eqn:Ef; [|discriminate].
  destruct (App.musicTrack st) as [m|] eqn:Em; [|discriminate].
  destruct (mixdown_graph fuel f m (App.processing_options st))
    as [[ctx stretched]|] eqn:Hg.
  2:{ unfold process. rewrite Hg. discriminate. }
  pose proof (process_after_graph fuel f m _ ctx stretched Hg) as Hp.
  pose proof Hg as Hg'. rewrite <- (mixdown_graph_format fuel f m st format) in Hg'.
  pose proof (process_after_graph fuel f m _ ctx stretched Hg') as Hp'.
  cbv zeta in Hp, Hp'. rewrite Hp, Hp'. cbn [option_map].
  intros H. apply (f_equal (fun x => match x with
                                     | Some (Some y) => y
                                     | _ => out
                                     end)) in H.
  rewrite <- H. cbv beta iota delta [blob bytes type].
  split; [reflexivity|]. split; [reflexivity|]. split; [reflexivity|].
  split; [reflexivity|]. split.
  - exists f. split; [reflexivity|].
    unfold App.download_name. cbn [App.focusTrack App.exportFormat App.setExportFormat].
    rewrite Ef. reflexivity.
  - eexists. split; [reflexivity|]. cbv beta iota delta [blob bytes type].
    split; reflexivity.
Qed.

Lemma download_after_format_change_witness :
  match @App.handleProcess approx_math silent_host 6 page_undetected with
  | Some (Some out) =>
    type (blob out) = media_type (App.exportFormat page_undetected) /\
    firstn 4 (bytes (blob out)) = [82; 73; 70; 70]%Z /\
    firstn 4 (skipn 8 (bytes (blob out))) = [87; 65; 86; 69]%Z /\
    firstn 2 (skipn 20 (bytes (blob out))) = [1; 0]%Z /\
    (exists f, App.focusTrack page_undetected = Some f /\
       App.download_name (App.setExportFormat flac_lossless page_undetected) =
       ("TuneScape_" ++ App.before_dot (AudioMetadata.name f) ++ "." ++
        App.download_extension flac_lossless)%string) /\
    exists out',
      @App.handleProcess approx_math silent_host 6
        (App.setExportFormat flac_lossless page_undetected) = Some (Some out') /\
      bytes (blob out') = bytes (blob out) /\
      type (blob out') = media_type flac_lossless
  | _ => False
  end.
Proof.
  destruct (isSome_inv _ page_undetected_graph) as [[ctx stretched] Hg].
  destruct (@handleProcess_after_graph approx_math silent_host 6
              page_undetected music_track music_track ctx stretched
              eq_refl eq_refl Hg) as [out0 Hrun].
  destruct (@App.handleProcess approx_math silent_host 6 page_undetected)
    as [[out|]|] eqn:E.
  - exact (@download_after_format_change approx_math silent_host 6
             page_undetected out flac_lossless E).
  - discriminate Hrun.
  - discriminate Hrun.
Defined.

(** A run under an MP3 format followed by the selection of FLAC: a
    blob of type audio/wav is offered as TuneScape_bed.flac; and a run
    under FLAC followed by the selection of an MP3 format: a blob of
    type audio/flac is offered as TuneScape_bed.mp3. *)
Example name_and_type_disagree :
  media_type (App.exportFormat page_undetected) = "audio/wav"%string /\
  App.download_name (App.setExportFormat flac_lossless page_undetected)
  = "TuneScape_bed.flac"%string /\
  media_type (App.exportFormat
                (App.setExportFormat flac_lossless page_undetected))
  = "audio/flac"%string /\
  App.download_name
    (App.setExportFormat mp3_standard
       (App.setExportFormat flac_lossless page_undetected))
  = "TuneScape_bed.mp3"%string.
Proof. repeat split; reflexivity. Qed.

(** ** The encoded file read back *)

Lemma le_bytes_range (n : nat) : forall z,
  Forall (fun x => (0 <= x < 256)%Z) (le_bytes n z).
Proof.
  induction n as [|n IH]; intros z; simpl; constructor; auto.
  apply Z.mod_pos_bound. lia.
Qed.

Lemma read_uint_le_bytes (n : nat) : forall z,
  read_uint (le_bytes n z) = (z mod 256 ^ Z.of_nat n)%Z.
Proof.
  induction n as [|n IH]; intros z.
  - simpl. rewrite Z.mod_1_r. reflexivity.
  - cbn [le_bytes read_uint]. rewrite IH.
    rewrite Nat2Z.inj_succ, Z.pow_succ_r by lia.
    rewrite Z.rem_mul_r; [reflexivity | lia |].
    apply Z.pow_pos_nonneg; lia.
Qed.

Lemma Forall_flat_map_all {A B : Type} (P : B -> Prop) (g : A -> list B) (l : list A) :
  (forall a, Forall P (g a)) -> Forall P (flat_map g l).
Proof.
  intros H. induction l as [|a t IH]; simpl; [constructor|].
  apply Forall_app. auto.
Qed.

Lemma pcm_payload_range (buffer : AudioBuffer) :
  Forall (fun x => (0 <= x < 256)%Z) (pcm_payload buffer).
Proof.
  unfold pcm_payload. apply Forall_flat_map_all. intros pos.
  apply Forall_flat_map_all. intros c. apply le_bytes_range.
Qed.

Lemma riff_header_range (numChan rate dataLen : Z) :
  Forall (fun x => (0 <= x < 256)%Z) (riff_header numChan rate dataLen).
Proof.
  unfold riff_header.
  repeat (apply Forall_app; split); try apply le_bytes_range;
    repeat constructor; lia.
Qed.

(** X18.  The encoder always returns; the file has 44 bytes plus two
    per sample of each channel, every byte between 0 and 255, and its
    header read back as little-endian integers gives the RIFF size
    (file length minus 8), the channel count, the sample rate, the byte
    rate, the block alignment and the data size, each modulo the width
    of its field. *)
Theorem wav_header_fields (buffer : AudioBuffer) (format : ExportFormat) :
  exists b,
    audioBufferToLossless buffer format = Some b /\
    List.length (bytes b) = (44 + 2 * numberOfChannels buffer * length buffer)%nat /\
    Forall (fun x => (0 <= x < 256)%Z) (bytes b) /\
    field (bytes b) 4 4 = ((Z.of_nat (List.length (bytes b)) - 8) mod 2 ^ 32)%Z /\
    field (bytes b) 22 2 = (Z.of_nat (numberOfChannels buffer) mod 2 ^ 16)%Z /\
    field (bytes b) 24 4 = (sampleRate buffer mod 2 ^ 32)%Z /\
    field (bytes b) 28 4 =
      ((sampleRate buffer * 2 * Z.of_nat (numberOfChannels buffer)) mod 2 ^ 32)%Z /\
    field (bytes b) 32 2 = ((Z.of_nat (numberOfChannels buffer) * 2) mod 2 ^ 16)%Z /\
    field (bytes b) 40 4 =
      (Z.of_nat (2 * numberOfChannels buffer * length buffer) mod 2 ^ 32)%Z.
Proof.
  rewrite audioBufferToLossless_content. eexists. split; [reflexivity|].
  cbn [bytes].
  assert (Hlen : List.length
            (riff_header (Z.of_nat (numberOfChannels buffer)) (sampleRate buffer)
               (data_length buffer) ++ pcm_payload buffer)
          = (44 + 2 * numberOfChannels buffer * length buffer)%nat).
  { rewrite length_app, riff_header_length, pcm_payload_length. lia. }
  split; [exact Hlen|].
  split; [apply Forall_app; split;
          [apply riff_header_range | apply pcm_payload_range]|].
  rewrite Hlen. unfold field.
  set (p := pcm_payload buffer). set (c := Z.of_nat (numberOfChannels buffer)).
  set (r := sampleRate buffer).
  assert (Hd : data_length buffer =
               Z.of_nat (2 * numberOfChannels buffer * length buffer))
    by (unfold data_length; f_equal; lia).
  rewrite Hd. set (d := Z.of_nat (2 * numberOfChannels buffer * length buffer)).
  split.
  { change (firstn 4 (skipn 4 (riff_header c r d ++ p)))
      with (le_bytes 4 (36 + d)).
    rewrite read_uint_le_bytes. f_equal. unfold d. lia. }
  split.
  { change (firstn 2 (skipn 22 (riff_header c r d ++ p))) with (le_bytes 2 c).
    apply read_uint_le_bytes. }
  split.
  { change (firstn 4 (skipn 24 (riff_header c r d ++ p))) with (le_bytes 4 r).
    apply read_uint_le_bytes. }
  split.
  { change (firstn 4 (skipn 28 (riff_header c r d ++ p)))
      with (le_bytes 4 (r * 2 * c)).
    apply read_uint_le_bytes. }
  split.
  { change (firstn 2 (skipn 32 (riff_header c r d ++ p)))
      with (le_bytes 2 (c * 2)).
    apply read_uint_le_bytes. }
  change (firstn 4 (skipn 40 (riff_header c r d ++ p))) with (le_bytes 4 d).
  apply read_uint_le_bytes.
Qed.

Lemma read_int16_le_bytes (z : Z) :
  (-32768 <= z <= 32767)%Z ->
  read_int16 (z mod 256) ((z / 256) mod 256) = z.
Proof.
  intros Hz. unfold read_int16.
  assert (E : (z mod 256 + 256 * ((z / 256) mod 256) = z mod 65536)%Z).
  { change 65536%Z with (256 * 256)%Z. rewrite Z.rem_mul_r; lia. }
  rewrite E.
  destruct (Z_lt_le_dec z 0) as [Hn | Hp].
  - assert (E2 : (z mod 65536 = z + 65536)%Z).
    { symmetry. apply (Z.mod_unique z 65536 (-1)); lia. }
    rewrite E2. replace (z + 65536 <? 32768)%Z with false
      by (symmetry; apply Z.ltb_ge; lia). lia.
  - rewrite Z.mod_small by lia.
    replace (z <? 32768)%Z with true by (symmetry; apply Z.ltb_lt; lia).
    reflexivity.
Qed.

Lemma read_pcm16_samples (zs : list Z) :
  Forall (fun z => (-32768 <= z <= 32767)%Z) zs ->
  read_pcm16 (flat_map (le_bytes 2) zs) = zs.
Proof.
  induction 1 as [|z t Hz _ IH]; [reflexivity|].
  change (flat_map (le_bytes 2) (z :: t))
    with ((z mod 256)%Z :: ((z / 256) mod 256)%Z :: flat_map (le_bytes 2) t).
  change (read_pcm16 ((z mod 256)%Z :: ((z / 256) mod 256)%Z
                      :: flat_map (le_bytes 2) t))
    with (read_int16 (z mod 256) ((z / 256) mod 256)
          :: read_pcm16 (flat_map (le_bytes 2) t)).
  rewrite IH, read_int16_le_bytes by exact Hz. reflexivity.
Qed.

Lemma quantised_range (buffer : AudioBuffer) :
  Forall (fun z => (-32768 <= z <= 32767)%Z) (quantised buffer).
Proof.
  unfold quantised. apply Forall_flat_map_all. intros pos.
  apply Forall_forall. intros z Hin. apply in_map_iff in Hin.
  destruct Hin as (c & <- & _).
  apply truncate_range; [lia | apply pcm16_range].
Qed.

Lemma pcm_payload_quantised (buffer : AudioBuffer) :
  pcm_payload buffer = flat_map (le_bytes 2) (quantised buffer).
Proof.
  unfold pcm_payload, quantised.
  assert (G : forall (g : list Q -> Z) (cs : list (list Q)),
            flat_map (fun c => le_bytes 2 (g c)) cs
            = flat_map (le_bytes 2) (map g cs)).
  { intros g cs. induction cs as [|c cs IHc]; [reflexivity|].
    cbn [flat_map map]. rewrite IHc. reflexivity. }
  induction (seq 0 (length buffer)) as [|pos t IH]; [reflexivity|].
  cbn [flat_map]. rewrite flat_map_app, <- IH. f_equal.
  apply (G (fun c => truncate (pcm16 (sample c pos)))).
Qed.

(** X19.  Reading the bytes after the 44-byte header back as
    little-endian signed 16-bit integers gives the samples of the
    buffer frame by frame, each clamped to [-1, 1], scaled and cut to
    an integer between -32768 and 32767: nothing is lost or reordered
    on the way into the file. *)
Theorem wav_payload_round_trip (buffer : AudioBuffer) (format : ExportFormat) :
  exists b,
    audioBufferToLossless buffer format = Some b /\
    read_pcm16 (skipn 44 (bytes b)) = quantised buffer /\
    List.length (quantised buffer) = (length buffer * numberOfChannels buffer)%nat /\
    Forall (fun z => (-32768 <= z <= 32767)%Z) (quantised buffer).
Proof.
  rewrite audioBufferToLossless_content. eexists. split; [reflexivity|].
  cbn [bytes]. split; [|split; [|apply quantised_range]].
  - change (skipn 44 (riff_header (Z.of_nat (numberOfChannels buffer))
                        (sampleRate buffer) (data_length buffer)
                      ++ pcm_payload buffer))
      with (pcm_payload buffer).
    rewrite pcm_payload_quantised. apply read_pcm16_samples, quantised_range.
  - unfold quantised.
    assert (G : forall l, List.length
              (flat_map (fun pos => map (fun c => truncate (pcm16 (sample c pos)))
                                        (channels buffer)) l)
            = (List.length l * numberOfChannels buffer)%nat).
    { induction l as [|a t IH]; [reflexivity|].
      cbn [flat_map]. rewrite length_app, length_map, IH.
      unfold numberOfChannels. simpl. lia. }
    rewrite G, length_seq. reflexivity.
Qed.

(** ** Quantisation *)

Lemma pcm16_mono (x y : Q) : x <= y -> pcm16 x <= pcm16 y.
Proof.
  intros H. unfold pcm16, Math_max, Math_min.
  destruct (ltb x 1) eqn:X1; destruct (ltb y 1) eqn:Y1;
    try apply ltb_lt in X1; try apply ltb_ge in X1;
    try apply ltb_lt in Y1; try apply ltb_ge in Y1;
    try (change (ltb (-1) 1) with true; cbv iota);
    try (change (ltb 1 0) with false; cbv iota);
    repeat match goal with
           | |- context [ltb ?a ?b] =>
             let E := fresh "E" in
             destruct (ltb a b) eqn:E;
             [apply ltb_lt in E | apply ltb_ge in E]
           end; lra.
Qed.

Lemma truncate_mono (a b : Q) : a <= b -> (truncate a <= truncate b)%Z.
Proof.
  intros H. unfold truncate.
  destruct (ltb a 0) eqn:A; destruct (ltb b 0) eqn:B;
    try apply ltb_lt in A; try apply ltb_ge in A;
    try apply ltb_lt in B; try apply ltb_ge in B.
  - apply Qceiling_resp_le. exact H.
  - apply Qlt_le_weak, Qceiling_resp_le in A.
    apply Qfloor_resp_le in B.
    change (Qceiling 0) with 0%Z in A. change (Qfloor 0) with 0%Z in B. lia.
  - lra.
  - apply Qfloor_resp_le. exact H.
Qed.

(** X20.  The 16-bit value stored for a sample never decreases when
    the sample increases; samples at or above 1 are stored as 32767,
    samples at or below -1 as -32768, and zero as 0. *)
Theorem quantisation_monotone (x y : Q) :
  x <= y ->
  (truncate (pcm16 x) <= truncate (pcm16 y))%Z /\
  (1 <= x -> truncate (pcm16 y) = 32767%Z) /\
  (y <= -1 -> truncate (pcm16 x) = (-32768)%Z) /\
  (x == 0 -> truncate (pcm16 x) = 0%Z).
Proof.
  intros H. split; [apply truncate_mono, pcm16_mono, H|].
  assert (Hhi : forall z, 1 <= z -> truncate (pcm16 z) = 32767%Z).
  { intros z Hz. unfold pcm16, Math_min.
    replace (ltb z 1) with false by (symmetry; apply ltb_ge; auto).
    reflexivity. }
  assert (Hlo : forall z, z <= -1 -> truncate (pcm16 z) = (-32768)%Z).
  { intros z Hz. unfold pcm16, Math_min, Math_max.
    replace (ltb z 1) with true by (symmetry; apply ltb_lt; lra).
    replace (ltb (-1) z) with false by (symmetry; apply ltb_ge; auto).
    reflexivity. }
  split; [intros; apply Hhi; lra|]. split; [intros; apply Hlo; lra|].
  intros E. unfold pcm16, Math_min, Math_max.
  replace (ltb x 1) with true by (symmetry; apply ltb_lt; lra).
  replace (ltb (-1) x) with true by (symmetry; apply ltb_lt; lra).
  replace (ltb x 0) with false by (symmetry; apply ltb_ge; lra).
  unfold truncate.
  replace (ltb (x * 32767) 0) with false by (symmetry; apply ltb_ge; lra).
  assert (E0 : x * 32767 == 0) by (rewrite E; reflexivity).
  rewrite (Qfloor_comp _ _ E0). reflexivity.
Qed.

Lemma quantisation_monotone_witness :
  (truncate (pcm16 (1 # 3)) <= truncate (pcm16 (1 # 2)))%Z /\
  (1 <= 1 # 3 -> truncate (pcm16 (1 # 2)) = 32767%Z) /\
  (1 # 2 <= -1 -> truncate (pcm16 (1 # 3)) = (-32768)%Z) /\
  (1 # 3 == 0 -> truncate (pcm16 (1 # 3)) = 0%Z).
Proof.
  apply (quantisation_monotone (1 # 3) (1 # 2)). vm_compute. discriminate.
Defined.

(** ** The spectral estimate *)

Lemma loudest_bin_range (freqData : list Decibel) (upperLimit : nat) :
  loudest_bin freqData upperLimit = 0%nat \/
  (1 <= loudest_bin freqData upperLimit < upperLimit)%nat.
Proof.
  unfold loudest_bin.
  assert (G : forall l init,
    (snd init = 0%nat \/ (1 <= snd init < upperLimit)%nat) ->
    Forall (fun i => (1 <= i < upperLimit)%nat) l ->
    let r := snd (fold_left (fun '(maxVal, maxIdx) i =>
                    if dB_gtb (nth_error freqData i) maxVal
                    then (nth i freqData NegInfinity, i) else (maxVal, maxIdx))
                 l init) in
    r = 0%nat \/ (1 <= r < upperLimit)%nat).
  { induction l as [|i l IH]; intros [mx idx] Hi Hl; simpl; auto.
    inversion Hl; subst. apply IH; auto.
    destruct (dB_gtb _ mx); simpl; auto. }
  apply G; [left; reflexivity|]. apply Forall_forall. intros i Hin.
  apply in_seq in Hin. lia.
Qed.

Lemma upperLimit_positive_rate (sr : Z) :
  (2 <= Z.to_nat (Math_floor ((1000 * ofNat fftSize) / ofZ sr)))%nat ->
  (0 < sr)%Z.
Proof.
  intros H. destruct sr as [|p|p]; [| lia |]; exfalso.
  - vm_compute in H. lia.
  - assert (Hq : (1000 * ofNat fftSize) / ofZ (Z.neg p) <= 0).
    { unfold Qle, Qdiv, Qmult, Qinv, ofZ, inject_Z. simpl. lia. }
    apply Qfloor_resp_le in Hq. change (Qfloor 0) with 0%Z in Hq.
    unfold Math_floor in H. lia.
Qed.

Section Spectrum.
Context {W : WebAudio}.

(** X21.  A frequency found in the spectrum is the one-decimal rounding
    of a multiple of the bin width, sample rate over 2048, that lies
    above 5 Hz and below 1000 Hz; what is reported lies between 5 and
    1000 Hz. *)
Theorem dominant_frequency_range (buffer : AudioBuffer) (f : Q) :
  detectDominantFrequency buffer = Some f ->
  5 <= f <= 1000 /\
  exists k : nat,
    (1 <= k)%nat /\
    f = round1 (ofNat k * (ofZ (sampleRate buffer) / ofNat fftSize)) /\
    5 < ofNat k * (ofZ (sampleRate buffer) / ofNat fftSize) < 1000.
Proof.
  unfold detectDominantFrequency.
  set (fd := getFloatFrequencyData _ _).
  set (ul := Z.to_nat (Math_floor ((1000 * ofNat fftSize) / ofZ (sampleRate buffer)))).
  pose proof (loudest_bin_range fd ul) as Hr.
  set (k := loudest_bin fd ul) in *.
  set (freq := ofNat k * (ofZ (sampleRate buffer) / ofNat fftSize)).
  destruct (gtb freq 5) eqn:E; [|discriminate].
  apply gtb_gt in E. intros [= <-].
  assert (Hk : (1 <= k < ul)%nat).
  { destruct Hr as [Hr | Hr]; auto. exfalso. unfold freq in E. rewrite Hr in E.
    change (ofNat 0) with 0 in E. rewrite Qmult_0_l in E. lra. }
  assert (Hsr : (0 < sampleRate buffer)%Z)
    by (apply upperLimit_positive_rate; fold ul; lia).
  assert (Hlt : freq < 1000).
  { assert (Hq : ofNat k + 1 <= (1000 * ofNat fftSize) / ofZ (sampleRate buffer)).
    { eapply Qle_trans; [|apply Qfloor_le].
      change (ofNat k + 1) with (inject_Z (Z.of_nat k) + inject_Z 1).
      rewrite <- inject_Z_plus, <- Zle_Qle.
      unfold ul, Math_floor in Hk. lia. }
    assert (Hs : 0 < ofZ (sampleRate buffer)).
    { unfold ofZ. change 0 with (inject_Z 0). rewrite <- Zlt_Qlt. exact Hsr. }
    assert (Hm : (ofNat k + 1) * ofZ (sampleRate buffer) <= 1000 * ofNat fftSize).
    { apply Qmult_le_compat_r with (z := ofZ (sampleRate buffer)) in Hq; [|lra].
      assert (Ed : (1000 * ofNat fftSize) / ofZ (sampleRate buffer)
                   * ofZ (sampleRate buffer) == 1000 * ofNat fftSize).
      { field. intros E0. rewrite E0 in Hs. lra. }
      rewrite Ed in Hq. exact Hq. }
    unfold freq. change (ofNat fftSize) with 2048 in *.
    set (S := ofZ (sampleRate buffer)) in *.
    assert (Ef : ofNat k * (S / 2048) == (ofNat k * S) * (1 # 2048)) by field.
    rewrite Ef. set (p := ofNat k * S) in *.
    assert (Hp : p + S <= 2048000) by (unfold p; lra). lra. }
  split.
  - apply (round1_bounds freq 5 1000). split; apply Qlt_le_weak; auto.
  - exists k. split; [lia|]. split; [reflexivity|]. split; auto.
Qed.

(** X22.  When every bin the analyser reports is silent, the spectrum
    gives no frequency. *)
Theorem silent_spectrum_no_frequency (buffer : AudioBuffer) :
  (forall window sr d,
     In d (getFloatFrequencyData window sr) -> d = NegInfinity) ->
  detectDominantFrequency buffer = None.
Proof.
  intros Hsilent. unfold detectDominantFrequency.
  set (fd := getFloatFrequencyData _ _).
  assert (Hfd : forall d, In d fd -> d = NegInfinity) by (intros d; apply Hsilent).
  set (ul := Z.to_nat _).
  assert (E : loudest_bin fd ul = 0%nat).
  { unfold loudest_bin.
    assert (G : forall l,
      fold_left (fun '(maxVal, maxIdx) i =>
                   if dB_gtb (nth_error fd i) maxVal
                   then (nth i fd NegInfinity, i) else (maxVal, maxIdx))
                l (NegInfinity, 0%nat) = (NegInfinity, 0%nat)).
    { induction l as [|i l IH]; simpl; auto.
      destruct (nth_error fd i) as [d|] eqn:En; simpl; auto.
      apply nth_error_In, Hfd in En. subst d. exact IH. }
    rewrite G. reflexivity. }
  rewrite E. reflexivity.
Qed.

End Spectrum.

Lemma first_bin_heard :
  isSome (@detectDominantFrequency first_bin_host four_samples) = true.
Proof. vm_compute. reflexivity. Qed.

Lemma dominant_frequency_range_witness :
  match @detectDominantFrequency first_bin_host four_samples with
  | Some f =>
    5 <= f <= 1000 /\
    exists k : nat,
      (1 <= k)%nat /\
      f = round1 (ofNat k * (ofZ (sampleRate four_samples) / ofNat fftSize)) /\
      5 < ofNat k * (ofZ (sampleRate four_samples) / ofNat fftSize) < 1000
  | None => False
  end.
Proof.
  destruct (@detectDominantFrequency first_bin_host four_samples) as [f|] eqn:E.
  - exact (@dominant_frequency_range first_bin_host four_samples f E).
  - pose proof first_bin_heard as H. rewrite E in H. discriminate H.
Defined.

Lemma silent_spectrum_no_frequency_witness :
  @detectDominantFrequency silent_host one_second = None.
Proof.
  apply (@silent_spectrum_no_frequency silent_host one_second).
  intros window sr d Hin. apply repeat_spec in Hin. exact Hin.
Defined.

(** ** The frequency written in a file name *)

Lemma span_app (p : ascii -> bool) (a r : list ascii) :
  Forall (fun c => p c = true) a ->
  match r with [] => True | c :: _ => p c = false end ->
  span p (a ++ r) = (a, r).
Proof.
  intros Ha Hr. induction Ha as [|c t Hc _ IH].
  - destruct r as [|c r']; simpl; [reflexivity | rewrite Hr; reflexivity].
  - simpl. rewrite Hc, IH. reflexivity.
Qed.

Lemma sep_not_digit (c : ascii) : is_sep c = true -> is_digit c = false.
Proof.
  unfold is_sep, is_digit. intros H. apply orb_true_iff in H.
  apply andb_false_iff.
  destruct H as [H | H]; apply Nat.eqb_eq in H; rewrite H; auto.
Qed.

Lemma space_not_digit (c : ascii) : is_space c = true -> is_digit c = false.
Proof.
  unfold is_space, is_digit. intros H. apply andb_false_iff.
  apply orb_true_iff in H. destruct H as [H | H].
  - apply andb_true_iff in H. destruct H as [_ H]. apply Nat.leb_le in H.
    left. apply Nat.leb_gt. lia.
  - apply Nat.eqb_eq in H. rewrite H. auto.
Qed.

Lemma h_not_digit (c : ascii) : is_h c = true -> is_digit c = false.
Proof.
  unfold is_h, is_digit. intros H. apply orb_true_iff in H.
  apply andb_false_iff.
  destruct H as [H | H]; apply Nat.eqb_eq in H; rewrite H; auto.
Qed.

Lemma h_not_space (c : ascii) : is_h c = true -> is_space c = false.
Proof.
  unfold is_h, is_space. intros H. apply orb_true_iff in H.
  destruct H as [H | H]; apply Nat.eqb_eq in H; rewrite H; auto.
Qed.

Lemma h_not_sep (c : ascii) : is_h c = true -> is_sep c = false.
Proof.
  unfold is_h, is_sep. intros H. apply orb_true_iff in H.
  destruct H as [H | H]; apply Nat.eqb_eq in H; rewrite H; auto.
Qed.

Lemma space_not_sep (c : ascii) : is_space c = true -> is_sep c = false.
Proof.
  unfold is_space, is_sep. intros H. apply orb_false_iff.
  apply orb_true_iff in H. destruct H as [H | H].
  - apply andb_true_iff in H. destruct H as [_ H]. apply Nat.leb_le in H.
    split; apply Nat.eqb_neq; lia.
  - apply Nat.eqb_eq in H. rewrite H. auto.
Qed.

Lemma unit_follows_spaces (sp rest : list ascii) (h z : ascii) :
  Forall (fun c => is_space c = true) sp -> is_h h = true -> is_z z = true ->
  unit_follows (sp ++ h :: z :: rest) = true.
Proof.
  intros Hsp Hh Hz. unfold unit_follows.
  rewrite (span_app is_space sp (h :: z :: rest) Hsp (h_not_space h Hh)).
  cbn [snd]. rewrite Hh, Hz. reflexivity.
Qed.

Lemma match_first_skip (prefix l : list ascii) :
  Forall (fun c => is_digit c = false) prefix ->
  match_first (prefix ++ l) = match_first l.
Proof.
  induction 1 as [|c t Hc _ IH]; [reflexivity|].
  cbn [app match_first]. unfold match_here at 1. cbn [span]. rewrite Hc.
  exact IH.
Qed.

Lemma match_first_here (l : list ascii) (g : list ascii * list ascii) :
  match_here l = Some g -> match_first l = Some g.
Proof. intros H. destruct l; cbn [match_first]; rewrite H; reflexivity. Qed.

Lemma head_not_digit (sp rest : list ascii) (h z : ascii) :
  Forall (fun c => is_space c = true) sp -> is_h h = true ->
  match sp ++ h :: z :: rest with
  | [] => True
  | c :: _ => is_digit c = false
  end.
Proof.
  intros Hsp Hh. destruct Hsp as [|s sp' Hs _]; simpl.
  - apply h_not_digit, Hh.
  - apply space_not_digit, Hs.
Qed.

(** X23.  A name made of a part without digits, then digits, then a
    point or an underscore, then digits, then white space if any and
    "hz" in either case gives the decimal number written there, the
    underscore read as the point; without the separator and the
    fraction it gives the whole number. *)
Theorem frequency_hint_format (prefix d1 d2 sp rest : list ascii)
    (sep h z : ascii) :
  Forall (fun c => is_digit c = false) prefix ->
  d1 <> [] -> Forall (fun c => is_digit c = true) d1 ->
  Forall (fun c => is_digit c = true) d2 ->
  Forall (fun c => is_space c = true) sp ->
  is_sep sep = true -> is_h h = true -> is_z z = true ->
  extractFrequency
    (string_of_list_ascii (prefix ++ d1 ++ sep :: d2 ++ sp ++ h :: z :: rest))
    = Some (parseFloat d1 d2) /\
  extractFrequency
    (string_of_list_ascii (prefix ++ d1 ++ sp ++ h :: z :: rest))
    = Some (parseFloat d1 []) /\
  parseFloat d1 d2 ==
    ofZ (digits_value d1) +
    ofZ (digits_value d2) / ofZ (10 ^ Z.of_nat (List.length d2)) /\
  parseFloat d1 [] == ofZ (digits_value d1).
Proof.
  intros Hp Hne H1 H2 Hsp Hsep Hh Hz.
  unfold extractFrequency. rewrite !list_ascii_of_string_of_list_ascii.
  rewrite (match_first_skip prefix (d1 ++ sep :: d2 ++ sp ++ h :: z :: rest) Hp).
  rewrite (match_first_skip prefix (d1 ++ sp ++ h :: z :: rest) Hp).
  split; [|split; [|split]].
  - rewrite (match_first_here _ (d1, d2)); [reflexivity|].
    unfold match_here.
    rewrite (span_app is_digit d1 (sep :: d2 ++ sp ++ h :: z :: rest) H1
               (sep_not_digit sep Hsep)).
    destruct d1 as [|c d1']; [congruence|].
    rewrite Hsep.
    rewrite (span_app is_digit d2 _ H2 (head_not_digit sp rest h z Hsp Hh)).
    rewrite unit_follows_spaces by auto. reflexivity.
  - rewrite (match_first_here _ (d1, [])); [reflexivity|].
    unfold match_here.
    rewrite (span_app is_digit d1 _ H1 (head_not_digit sp rest h z Hsp Hh)).
    destruct d1 as [|c d1']; [congruence|].
    rewrite unit_follows_spaces by auto.
    destruct Hsp as [|s sp' Hs Hsp']; cbn [app].
    + rewrite (h_not_sep h Hh). reflexivity.
    + rewrite (space_not_sep s Hs). reflexivity.
  - reflexivity.
  - unfold parseFloat. cbn. unfold Qdiv. rewrite Qmult_0_l. ring.
Qed.

Lemma frequency_hint_format_witness :
  extractFrequency "theta 7_83 Hz.mp3" = Some (parseFloat ["7"%char] ["8"; "3"]%char) /\
  extractFrequency "theta 7 Hz.mp3" = Some (parseFloat ["7"%char] []) /\
  parseFloat ["7"%char] ["8"; "3"]%char ==
    ofZ (digits_value ["7"%char]) +
    ofZ (digits_value ["8"; "3"]%char) / ofZ (10 ^ Z.of_nat 2) /\
  parseFloat ["7"%char] [] == ofZ (digits_value ["7"%char]).
Proof.
  apply (frequency_hint_format
           (list_ascii_of_string "theta ") ["7"%char] ["8"; "3"]%char
           [" "%char] (list_ascii_of_string ".mp3") "_"%char "H"%char "z"%char);
    try reflexivity; try discriminate; repeat constructor.
Defined.

(** ** The derived fields of the metadata *)




Section Derived.
Context {M : MathLib} {W : WebAudio}.



End Derived.


(** ** The output of [process] *)

Lemma mixdown_graph_inv {M : MathLib} (fuel : nat) (f m : AudioMetadata.t)
    (o : ProcessingOptions.t) (ctx : OfflineGraph) (stretched : bool) :
  mixdown_graph fuel f m o = Some (ctx, stretched) ->
  g_numberOfChannels ctx = 2%nat /\
  g_length ctx =
    Math_floor (ProcessingOptions.targetDurationMinutes o * 60 *
                ofZ (Z.max (AudioMetadata.sampleRate f)
                           (AudioMetadata.sampleRate m))) /\
  g_sampleRate ctx =
    Z.max (AudioMetadata.sampleRate f) (AudioMetadata.sampleRate m) /\
  g_masterGain ctx = 89 # 100 /\
  stretched = gtb (Math_abs (stretch_rate m o - 1)) (1 # 100).
Proof.
  unfold mixdown_graph.
  destruct (if gtb _ _ then _ else _) as [musicBuffer|]; [|discriminate].
  destruct (renderLoopingTrack _ _ _ _ _) as [focusVoices|]; [|discriminate].
  destruct (original_bounds m o) as [origBounds|]; [|discriminate].
  destruct (renderMusicTrack _ _ _ _ _ _ _) as [musicVoices|]; [|discriminate].
  intros [= <- <-]. repeat split.
Qed.

Section Output.
Context {M : MathLib} {W : WebAudio}.

(** X25.  With a host whose rendering has the channels and the frames
    of the graph it was asked to render, and a target duration of a
    whole number of minutes, the file that [process] returns has 44
    bytes plus four for every frame of the target duration at the
    higher of the two sample rates; its media type is that of the
    format; the progress reported starts at 5, ends at 100 and
    increases strictly; it passes 25 when the tempo ratio is at least
    0.011 away from 1 and does not when it is within 0.009 of 1. *)
Theorem process_output (fuel : nat) (f m : AudioMetadata.t)
    (o : ProcessingOptions.t) (minutes : Z) (out : Processed) :
  (forall g, numberOfChannels (startRendering g) = g_numberOfChannels g /\
             length (startRendering g) = Z.to_nat (g_length g)) ->
  ProcessingOptions.targetDurationMinutes o == inject_Z minutes ->
  process fuel f m o = Some out ->
  List.length (bytes (blob out)) =
    (44 + 4 * Z.to_nat (minutes * 60 *
                        Z.max (AudioMetadata.sampleRate f)
                              (AudioMetadata.sampleRate m)))%nat /\
  type (blob out) = media_type (ProcessingOptions.exportFormat o) /\
  hd_error (progress out) = Some 5%Z /\
  last (progress out) 0%Z = 100%Z /\
  StronglySorted Z.lt (progress out) /\
  (11 # 1000 <= Qabs (stretch_rate m o - 1) -> In 25%Z (progress out)) /\
  (Qabs (stretch_rate m o - 1) <= 9 # 1000 -> ~ In 25%Z (progress out)).
Proof.
  intros Hhost Hmin H.
  destruct (mixdown_graph fuel f m o) as [[ctx stretched]|] eqn:Hg.
  2:{ unfold process in H. rewrite Hg in H. discriminate H. }
  pose proof (process_after_graph _ _ _ _ _ _ Hg) as Hp. cbv zeta in Hp.
  rewrite H in Hp. apply (f_equal (fun x => match x with
                                            | Some y => y
                                            | None => out
                                            end)) in Hp.
  rewrite Hp. clear Hp H.
  destruct (mixdown_graph_inv _ _ _ _ _ _ Hg) as (Hc & Hl & _ & _ & Hs).
  destruct (Hhost ctx) as [Hn Hlen].
  assert (Hframes : g_length ctx =
                    (minutes * 60 * Z.max (AudioMetadata.sampleRate f)
                                          (AudioMetadata.sampleRate m))%Z).
  { rewrite Hl. unfold Math_floor, ofZ. rewrite Hmin.
    change 60 with (inject_Z 60). rewrite <- !inject_Z_mult.
    apply Qfloor_Z. }
  cbv beta iota delta [blob bytes type progress]. split.
  - rewrite length_app, riff_header_length, pcm_payload_length.
    rewrite Hn, Hlen, Hc, Hframes. lia.
  - split; [reflexivity|].
    unfold milestones. destruct stretched; cbn [app hd_error last In].
    + split; [reflexivity|]. split; [reflexivity|].
      split; [repeat constructor; lia|].
      split; [intros _; right; left; reflexivity|].
      intros Hnear. symmetry in Hs. apply gtb_gt in Hs.
      unfold Math_abs in Hs. lra.
    + split; [reflexivity|]. split; [reflexivity|].
      split; [repeat constructor; lia|]. split.
      * intros Hfar. exfalso.
        assert (Ht : gtb (Math_abs (stretch_rate m o - 1)) (1 # 100) = true).
        { apply gtb_gt. unfold Math_abs. lra. }
        congruence.
      * intros _ Hin.
        repeat (destruct Hin as [Hin | Hin]; [discriminate Hin|]).
        destruct Hin.
Qed.

(** X26.  For metadata that [decodeFile] returned, and without a tempo
    set by hand, the source tempo [process] works from lies between 60
    and 200 BPM (the corrected tempo of the analysis, or 120 when the
    analysis was skipped); so for a positive target tempo the stretch
    ratio is the target over the source tempo, is positive, and lies
    between a 200th and a 60th of the target. *)
Theorem decoded_tempo_drives_stretch (fuel : nat) (name mime : string)
    (audioBuffer : AudioBuffer) (mode : DetectionMode)
    (md : AudioMetadata.t) (o : ProcessingOptions.t) :
  decodeFile fuel name mime audioBuffer mode = Some md ->
  ProcessingOptions.sourceBpmOverride o = None ->
  60 <= source_bpm md o <= 200 /\
  (AudioMetadata.bpmInfo md = None -> source_bpm md o = 120) /\
  (forall info, AudioMetadata.bpmInfo md = Some info ->
                source_bpm md o = corrected info) /\
  forall t, ProcessingOptions.targetBpm o = Some t -> 0 < t ->
    stretch_rate md o = t / source_bpm md o /\
    0 < stretch_rate md o /\
    t / 200 <= stretch_rate md o <= t / 60.
Proof.
  intros Hd Ho.
  assert (Hinfo : AudioMetadata.bpmInfo md = None \/
                  exists info, AudioMetadata.bpmInfo md = Some info /\
                               60 <= corrected info <= 200).
  { revert Hd. unfold decodeFile. destruct (ltb _ 600).
    - destruct (analyzeBpm fuel audioBuffer mode) as [info|] eqn:Ea; [|discriminate].
      cbn [option_map]. intros [= <-]. right. exists info. split; auto.
      apply (analyzeBpm_corrected_range _ _ _ _ Ea).
    - intros [= <-]. left. reflexivity. }
  assert (Hsrc : 60 <= source_bpm md o <= 200 /\
                 (AudioMetadata.bpmInfo md = None -> source_bpm md o = 120) /\
                 (forall info, AudioMetadata.bpmInfo md = Some info ->
                               source_bpm md o = corrected info)).
  { unfold source_bpm. rewrite Ho. cbn [orElse].
    destruct Hinfo as [-> | (info & -> & Hr)]; cbn [option_map].
    - split; [split; lra|]. split; [reflexivity | discriminate].
    - assert (Ht : truthy (corrected info) = true).
      { unfold truthy. apply negb_true_iff, eqb_neq. intros E0.
        rewrite E0 in Hr. lra. }
      rewrite Ht. split; [exact Hr|]. split; [discriminate|].
      intros info' [= <-]. reflexivity. }
  destruct Hsrc as (Hr & Hnone & Hsome).
  split; [exact Hr|]. split; [exact Hnone|]. split; [exact Hsome|].
  intros t Ht Hpos. unfold stretch_rate. rewrite Ht.
  assert (Htt : truthy t = true).
  { unfold truthy. apply negb_true_iff, eqb_neq. intros E0.
    rewrite E0 in Hpos. lra. }
  rewrite Htt. set (s := source_bpm md o) in *.
  split; [reflexivity|]. split; [apply Qlt_shift_div_l; lra|]. split.
  - apply Qle_shift_div_l; [lra|].
    assert (E : t / 200 * s == t - t * (200 - s) * (1 # 200)) by field.
    rewrite E. assert (0 <= t * (200 - s)) by (apply Qmult_le_0_compat; lra).
    set (u := t * (200 - s)) in *. lra.
  - apply Qle_shift_div_r; [lra|].
    assert (E : t / 60 * s == t + t * (s - 60) * (1 # 60)) by field.
    rewrite E. assert (0 <= t * (s - 60)) by (apply Qmult_le_0_compat; lra).
    set (u := t * (s - 60)) in *. lra.
Qed.

End Output.

Lemma silent_host_contract (g : OfflineGraph) :
  numberOfChannels (@startRendering silent_host g) = g_numberOfChannels g /\
  length (@startRendering silent_host g) = Z.to_nat (g_length g).
Proof.
  unfold numberOfChannels. cbn. rewrite repeat_length. split; reflexivity.
Qed.

Lemma one_minute_graph :
  isSome (@mixdown_graph approx_math 40 focus_track music_track one_minute)
  = true.
Proof. vm_compute. reflexivity. Qed.

Lemma process_output_witness :
  match @process approx_math silent_host 40 focus_track music_track
          one_minute with
  | Some out =>
    List.length (bytes (blob out)) =
      (44 + 4 * Z.to_nat (1 * 60 *
                          Z.max (AudioMetadata.sampleRate focus_track)
                                (AudioMetadata.sampleRate music_track)))%nat /\
    type (blob out) = media_type (ProcessingOptions.exportFormat one_minute) /\
    hd_error (progress out) = Some 5%Z /\
    last (progress out) 0%Z = 100%Z /\
    StronglySorted Z.lt (progress out) /\
    (11 # 1000 <= Qabs (stretch_rate music_track one_minute - 1) ->
     In 25%Z (progress out)) /\
    (Qabs (stretch_rate music_track one_minute - 1) <= 9 # 1000 ->
     ~ In 25%Z (progress out))
  | None => False
  end.
Proof.
  destruct (@process approx_math silent_host 40 focus_track music_track
              one_minute) as [out|] eqn:E.
  - apply (@process_output approx_math silent_host 40 focus_track music_track
             one_minute 1 out silent_host_contract); [reflexivity | exact E].
  - destruct (isSome_inv _ one_minute_graph) as [[ctx stretched] Hg].
    rewrite (process_after_graph _ _ _ _ _ _ Hg) in E. discriminate E.
Defined.

Lemma decoded_tempo_drives_stretch_witness :
  match @decodeFile approx_math silent_host 1 "theta 7_83 Hz.mp3" "audio/mpeg"
          steady_clicks fast with
  | Some md =>
    60 <= source_bpm md retimed <= 200 /\
    (AudioMetadata.bpmInfo md = None -> source_bpm md retimed = 120) /\
    (forall info, AudioMetadata.bpmInfo md = Some info ->
                  source_bpm md retimed = corrected info) /\
    forall t, ProcessingOptions.targetBpm retimed = Some t -> 0 < t ->
      stretch_rate md retimed = t / source_bpm md retimed /\
      0 < stretch_rate md retimed /\
      t / 200 <= stretch_rate md retimed <= t / 60
  | None => False
  end.
Proof.
  destruct (@decodeFile approx_math silent_host 1 "theta 7_83 Hz.mp3"
              "audio/mpeg" steady_clicks fast) as [md|] eqn:E.
  - exact (@decoded_tempo_drives_stretch approx_math silent_host 1
             "theta 7_83 Hz.mp3" "audio/mpeg" steady_clicks fast md
             retimed E eq_refl).
  - pose proof hinted_file as H. rewrite E in H. discriminate H.
Defined.

(** ** Silence in accurate mode *)

Lemma sum_squares_zero (data : list Q) (from count : nat) :
  Forall (fun x => x == 0) data -> sum_squares data from count == 0.
Proof.
  intros Hall. unfold sum_squares.
  assert (G : forall l acc, acc == 0 ->
    fold_left (fun s j => s + sample data j * sample data j) l acc == 0).
  { induction l as [|j l IH]; intros acc Ha; simpl; auto.
    apply IH.
    rewrite (sample_Forall (fun x => x == 0) data (Qeq_refl 0) Hall j), Ha.
    ring. }
  apply G. reflexivity.
Qed.

Lemma energy_env_zero (data : list Q) (ratio envLength : nat) :
  Forall (fun x => x == 0) data ->
  Forall (fun x => x == 0) (energy_env data ratio envLength).
Proof.
  intros Hall. unfold energy_env. apply Forall_forall. intros x Hin.
  apply in_map_iff in Hin. destruct Hin as (i & <- & _).
  destruct (_ <? _)%nat; [apply sum_squares_zero; auto | reflexivity].
Qed.

Lemma onset_env_zero (env : list Q) :
  Forall (fun x => x == 0) env -> Forall (fun x => x == 0) (onset_env env).
Proof.
  intros Hall. unfold onset_env. apply Forall_forall. intros x Hin.
  apply in_map_iff in Hin. destruct Hin as (i & <- & _).
  pose proof (sample_Forall (fun x => x == 0) env (Qeq_refl 0) Hall) as Hs.
  destruct (i =? 0)%nat; [apply Hs|].
  unfold Math_max. destruct (ltb 0 _) eqn:E; [|reflexivity].
  rewrite (Hs i), (Hs (i - 1)%nat). ring.
Qed.

Lemma autocorr_zero (env : list Q) (lag : nat) :
  Forall (fun x => x == 0) env -> autocorr env lag == 0.
Proof.
  intros Hall. unfold autocorr.
  pose proof (sample_Forall (fun x => x == 0) env (Qeq_refl 0) Hall) as Hs.
  assert (G : forall l acc, acc == 0 ->
    fold_left (fun s i => s + sample env i * sample env (i + lag)) l acc == 0).
  { induction l as [|j l IH]; intros acc Ha; simpl; auto.
    apply IH. rewrite (Hs j), Ha. ring. }
  apply G. reflexivity.
Qed.

Lemma best_lag_default (env : list Q) :
  (forall lag, autocorr env lag <= 0) -> best_lag env = 60%nat.
Proof.
  intros Hall. unfold best_lag.
  assert (G : forall l,
    fold_left (fun '(maxAuto, bestLag) lag =>
                 let sum := autocorr env lag in
                 if gtb sum maxAuto then (sum, lag) else (maxAuto, bestLag))
              l (0, 60%nat) = (0, 60%nat)).
  { induction l as [|lag l IH]; simpl; auto.
    replace (gtb (autocorr env lag) 0) with false; auto.
    symmetry. apply gtb_le, Hall. }
  rewrite G. reflexivity.
Qed.

(** X27.  For a signal that is all zeros, at a sample rate of at least
    100 Hz, no lag has a positive autocorrelation, the lag stays at its
    initial 60 and accurate mode reports 100 BPM as raw and corrected
    tempo, not the fallback; the confidence is high as soon as the
    square root of zero is below 10. *)
Theorem silence_accurate_tempo {M : MathLib} (fuel : nat) (buffer : AudioBuffer) :
  (100 <= sampleRate buffer)%Z ->
  Forall (fun x => x == 0) (getChannelData buffer 0) ->
  exists info,
    analyzeBpm fuel buffer accurate = Some info /\
    raw info == 100 /\ corrected info == 100 /\
    algorithmsUsed info = ["Full-Track Autocorrelation"%string] /\
    ((forall x, x == 0 -> Math_sqrt x < 10) -> confidence info = high).
Proof.
  intros Hsr Hz.
  assert (Hb : detectBpmByAutocorrelation buffer = Some (60 * 100 / ofNat 60)).
  { destruct (raw_passes_total buffer accurate Hsr) as (rs & algos & Hrs & _).
    unfold raw_passes in Hrs.
    destruct (detectBpmByAutocorrelation buffer) as [bpm|] eqn:Hb; [|discriminate].
    revert Hb. unfold detectBpmByAutocorrelation.
    match goal with |- context [if ?c then None else _] => destruct c end;
      [discriminate|]. intros [= <-].
    rewrite best_lag_default; [reflexivity|].
    intros lag. rewrite autocorr_zero; [apply Qle_refl|].
    apply onset_env_zero, energy_env_zero, Hz. }
  destruct (analyzeBpm_accurate_of fuel buffer _ Hb)
    as (info & Hi & _ & _ & Hraw & Hcor & Halg & Hconf).
  { split; vm_compute; discriminate. }
  exists info. split; [exact Hi|]. rewrite Hraw, Hcor.
  split; [reflexivity|]. split; [reflexivity|]. split; [exact Halg | exact Hconf].
Qed.

Lemma silence_accurate_tempo_witness :
  exists info,
    @analyzeBpm approx_math 0 one_second accurate = Some info /\
    raw info == 100 /\ corrected info == 100 /\
    algorithmsUsed info = ["Full-Track Autocorrelation"%string] /\
    ((forall x, x == 0 -> @Math_sqrt approx_math x < 10) -> confidence info = high).
Proof.
  apply (@silence_accurate_tempo approx_math 0 one_second).
  - vm_compute. discriminate.
  - change (getChannelData one_second 0) with (repeat 0 (8 * 1000)).
    apply Forall_forall. intros x Hin. apply repeat_spec in Hin. subst x.
    reflexivity.
Defined.

(** ** Runs that do not return *)

(** X28.  When the loop region, taken at the playback rate, is not
    longer than the crossfade and the intro ends before the point where
    the outro has to start, the placement time of the music renderer
    never moves forward: its loop is never left, whatever the fuel. *)
Theorem renderMusicTrack_stuck (b : AudioBuffer) (totalDur targetVolume : Q)
    (bnd : LoopBoundaries) (cf rate : Q) :
  (outroStart bnd - introEnd bnd) / rate <= cf ->
  introEnd bnd / rate < totalDur - (duration b - outroStart bnd) / rate ->
  forall fuel,
    renderMusicTrack fuel b totalDur targetVolume bnd cf rate = None.
Proof.
  intros Hcf Hlt fuel. unfold renderMusicTrack.
  set (eLoopDur := (outroStart bnd - introEnd bnd) / rate) in *.
  set (lET := totalDur - (duration b - outroStart bnd) / rate) in *.
  set (eIntroDur := introEnd bnd / rate) in *.
  rewrite (while_loop_stuck (fun s : Q * list Voice => fst s <= eIntroDur));
    auto.
  - intros [cur voices] Hcur. cbn [fst] in Hcur. split.
    + apply ltb_lt. lra.
    + intros s' [= <-]. cbn [fst].
      replace (geb (cur + eLoopDur - cf) lET) with false; [lra|].
      symmetry. apply geb_lt. lra.
  - cbn [fst]. apply Qle_refl.
Qed.

Lemma renderMusicTrack_stuck_witness :
  renderMusicTrack 1000 bed 10 1 bed_half_second 1 1 = None.
Proof.
  apply (renderMusicTrack_stuck bed 10 1 bed_half_second 1 1).
  - vm_compute. discriminate.
  - vm_compute. reflexivity.
Defined.

(** X29.  With the page's crossfade of three seconds, a foundation of
    three seconds or less and a positive target duration,
    [handleProcess] gets no file from the engine, whatever the fuel:
    the placement time of the looping renderer never moves forward and
    its loop is never left. *)
Theorem page_short_foundation_hangs {M : MathLib} {W : WebAudio}
    (st : App.State) (f m : AudioMetadata.t) :
  App.focusTrack st = Some f -> App.musicTrack st = Some m ->
  duration (AudioMetadata.buffer f) <= 3 -> 0 < App.targetDuration st ->
  forall fuel, App.handleProcess fuel st = None.
Proof.
  intros Hf Hm Hd Ht fuel. unfold App.handleProcess. rewrite Hf, Hm.
  unfold process, mixdown_graph.
  destruct (if gtb _ _ then _ else _) as [musicBuffer|]; [|reflexivity].
  rewrite renderLoopingTrack_stuck; [reflexivity | exact Hd |].
  cbn [App.processing_options ProcessingOptions.targetDurationMinutes]. lra.
Qed.

Lemma page_short_foundation_hangs_witness :
  @App.handleProcess approx_math silent_host 1000 page_short_foundation = None.
Proof.
  apply (@page_short_foundation_hangs approx_math silent_host
           page_short_foundation focus_track music_track);
    try reflexivity.
  vm_compute. discriminate.
Defined.

(** ** What the voices play *)

Lemma renderLoopingTrack_sources (fuel : nat) (b : AudioBuffer)
    (totalDur targetVolume cf : Q) (voices : list Voice) :
  renderLoopingTrack fuel b totalDur targetVolume cf = Some voices ->
  Forall (fun v => v_buffer v = b /\ v_playbackRate v = None) voices.
Proof.
  unfold renderLoopingTrack.
  destruct (while_loop _ _ _ _) as [[c vs]|] eqn:E; [|discriminate].
  intros [= <-].
  apply (while_loop_inv (fun s : Q * list Voice =>
           Forall (fun v => v_buffer v = b /\ v_playbackRate v = None) (snd s)))
    in E; [apply E| |constructor].
  intros [cur vs0] s' Hall _ [= <-]. cbn [snd] in *.
  apply Forall_app. split; [exact Hall|].
  constructor; [split; reflexivity | constructor].
Qed.

Lemma renderMusicTrack_sources (fuel : nat) (b : AudioBuffer)
    (totalDur targetVolume : Q) (bnd : LoopBoundaries) (cf rate : Q)
    (voices : list Voice) :
  renderMusicTrack fuel b totalDur targetVolume bnd cf rate = Some voices ->
  Forall (fun v => v_buffer v = b /\ v_playbackRate v = Some rate) voices.
Proof.
  intros H.
  destruct (renderMusicTrack_inv _ _ _ _ _ _ _ _ H) as (loops & -> & Hall & _).
  constructor; [split; reflexivity|]. apply Forall_app. split.
  - eapply Forall_impl; [|exact Hall]. intros v (cur & -> & _).
    split; reflexivity.
  - constructor; [split; reflexivity | constructor].
Qed.

Lemma stretch_channels_count {M : MathLib} (chans : list (list Q)) (rate : Q)
    (inputLength outputLength grainSize outputStride : nat) :
  forall out,
    stretch_channels chans rate inputLength outputLength grainSize outputStride
    = Some out ->
    List.length out = List.length chans.
Proof.
  induction chans as [|c rest IH]; intros out; simpl.
  - intros [= <-]. reflexivity.
  - destruct (stretch_channel _ _ _ _ _ _) as [c'|]; [|discriminate].
    destruct (stretch_channels rest _ _ _ _ _) as [rest'|]; [|discriminate].
    intros [= <-]. simpl. f_equal. apply IH. reflexivity.
Qed.

Lemma timeStretch_outside_band {M : MathLib} (buffer out : AudioBuffer)
    (rate : Q) :
  1 # 100 < Qabs (rate - 1) -> timeStretch buffer rate = Some out ->
  0 < rate /\
  (0 < Math_floor (ofNat (length buffer) / rate))%Z /\
  length out = Z.to_nat (Math_floor (ofNat (length buffer) / rate)) /\
  sampleRate out = sampleRate buffer /\
  numberOfChannels out = numberOfChannels buffer.
Proof.
  intros Hband. unfold timeStretch, Math_abs.
  replace (ltb (Qabs (rate - 1)) (1 # 100)) with false
    by (symmetry; apply ltb_ge, Qlt_le_weak; auto).
  destruct (leb rate 0) eqn:Er; [discriminate|].
  destruct (_ <=? 0)%Z eqn:El; [discriminate|].
  cbn [orb].
  destruct (stretch_channels _ _ _ _ _ _) as [chans|] eqn:Ec; [|discriminate].
  intros [= <-]. apply Z.leb_gt in El.
  split.
  - destruct (Qlt_le_dec 0 rate) as [Hpos | Hneg]; [exact Hpos|].
    apply leb_le in Hneg. congruence.
  - split; [exact El|]. split; [reflexivity|]. split; [reflexivity|].
    unfold numberOfChannels. cbn [channels].
    eapply stretch_channels_count. exact Ec.
Qed.

(** X30.  In every graph [process] builds, the voices are those of the
    foundation, each playing the foundation's buffer at its own rate,
    followed by those of the music, each playing one and the same
    buffer at playback rate 1.  When the tempo ratio is within 0.009 of
    1 that buffer is the music as decoded.  When the ratio is at least
    0.011 away from 1 it is a buffer the stretcher built: the ratio is
    positive, the buffer has the sample rate and the channels of the
    music and at least one frame, and its frame count is the length of
    the music over the ratio, up to two frames. *)
Theorem process_voice_sources {M : MathLib} (fuel : nat)
    (f m : AudioMetadata.t) (o : ProcessingOptions.t)
    (ctx : OfflineGraph) (stretched : bool) :
  mixdown_graph fuel f m o = Some (ctx, stretched) ->
  exists musicBuffer focusVoices musicVoices,
    g_voices ctx = focusVoices ++ musicVoices /\
    Forall (fun v => v_buffer v = AudioMetadata.buffer f /\
                     v_playbackRate v = None) focusVoices /\
    Forall (fun v => v_buffer v = musicBuffer /\
                     v_playbackRate v = Some 1) musicVoices /\
    (Qabs (stretch_rate m o - 1) <= 9 # 1000 ->
       stretched = false /\ musicBuffer = AudioMetadata.buffer m) /\
    (11 # 1000 <= Qabs (stretch_rate m o - 1) ->
       stretched = true /\
       0 < stretch_rate m o /\
       (0 < length musicBuffer)%nat /\
       ofNat (length (AudioMetadata.buffer m)) / stretch_rate m o - 2
         <= ofNat (length musicBuffer)
         <= ofNat (length (AudioMetadata.buffer m)) / stretch_rate m o + 1 /\
       sampleRate musicBuffer = sampleRate (AudioMetadata.buffer m) /\
       numberOfChannels musicBuffer =
         numberOfChannels (AudioMetadata.buffer m)).
Proof.
  unfold mixdown_graph.
  destruct (gtb (Math_abs (stretch_rate m o - 1)) (1 # 100)) eqn:Es.
  - apply gtb_gt in Es. unfold Math_abs in Es.
    destruct (timeStretch _ _) as [musicBuffer|] eqn:Et; [|discriminate].
    destruct (renderLoopingTrack _ _ _ _ _) as [focusVoices|] eqn:Ef; [|discriminate].
    destruct (original_bounds m o) as [origBounds|]; [|discriminate].
    destruct (renderMusicTrack _ _ _ _ _ _ _) as [musicVoices|] eqn:Em; [|discriminate].
    intros H. injection H as Hctx Hst. subst ctx stretched.
    exists musicBuffer, focusVoices, musicVoices.
    cbn [g_voices]. split; [reflexivity|].
    split; [eapply renderLoopingTrack_sources; eauto|].
    split; [eapply renderMusicTrack_sources; eauto|].
    split; [intros Hnear; lra|]. intros _. split; [reflexivity|].
    destruct (timeStretch_outside_band _ _ _ Es Et)
      as (Hpos & Hlen & El & Hsr & Hch).
    split; [exact Hpos|]. split; [lia|].
    split; [|split; [exact Hsr | exact Hch]].
    set (q := ofNat (length (AudioMetadata.buffer m)) / stretch_rate m o) in *.
    unfold Math_floor in *.
    pose proof (Qfloor_le q) as Hlo. pose proof (Qlt_floor q) as Hhi.
    rewrite inject_Z_plus in Hhi. change (inject_Z 1) with 1 in Hhi.
    assert (Hn : ofNat (length musicBuffer) = inject_Z (Qfloor q)).
    { rewrite El. unfold ofNat. rewrite Z2Nat.id by lia. reflexivity. }
    rewrite Hn. set (F := inject_Z (Qfloor q)) in *. split; lra.
  - apply gtb_le in Es. unfold Math_abs in Es.
    destruct (renderLoopingTrack _ _ _ _ _) as [focusVoices|] eqn:Ef; [|discriminate].
    destruct (original_bounds m o) as [origBounds|]; [|discriminate].
    destruct (renderMusicTrack _ _ _ _ _ _ _) as [musicVoices|] eqn:Em; [|discriminate].
    intros H. injection H as Hctx Hst. subst ctx stretched.
    exists (AudioMetadata.buffer m), focusVoices, musicVoices.
    cbn [g_voices]. split; [reflexivity|].
    split; [eapply renderLoopingTrack_sources; eauto|].
    split; [eapply renderMusicTrack_sources; eauto|].
    split; [intros _; split; reflexivity | intros Hfar; lra].
Qed.

Lemma process_voice_sources_witness :
  match @mixdown_graph approx_math 2 focus_track music_track long_crossfade with
  | Some (ctx, stretched) =>
    exists musicBuffer focusVoices musicVoices,
      g_voices ctx = focusVoices ++ musicVoices /\
      Forall (fun v => v_buffer v = AudioMetadata.buffer focus_track /\
                       v_playbackRate v = None) focusVoices /\
      Forall (fun v => v_buffer v = musicBuffer /\
                       v_playbackRate v = Some 1) musicVoices /\
      (Qabs (stretch_rate music_track long_crossfade - 1) <= 9 # 1000 ->
         stretched = false /\
         musicBuffer = AudioMetadata.buffer music_track) /\
      (11 # 1000 <= Qabs (stretch_rate music_track long_crossfade - 1) ->
         stretched = true /\
         0 < stretch_rate music_track long_crossfade /\
         (0 < length musicBuffer)%nat /\
         ofNat (length (AudioMetadata.buffer music_track)) /
           stretch_rate music_track long_crossfade - 2
           <= ofNat (length musicBuffer)
           <= ofNat (length (AudioMetadata.buffer music_track)) /
                stretch_rate music_track long_crossfade + 1 /\
         sampleRate musicBuffer = sampleRate (AudioMetadata.buffer music_track) /\
         numberOfChannels musicBuffer =
           numberOfChannels (AudioMetadata.buffer music_track))
  | None => False
  end.
Proof.
  destruct (@mixdown_graph approx_math 2 focus_track music_track long_crossfade)
    as [[ctx stretched]|] eqn:E.
  - exact (@process_voice_sources approx_math 2 focus_track music_track
             long_crossfade ctx stretched E).
  - pose proof long_crossfade_graph as H. rewrite E in H. discriminate H.
Defined.

